(** * LC-3 virtual machine (src/vanilla/vm.js)

    A shallow embedding of the two JavaScript interpreters found in
    src/vanilla/vm.js.  Module [Vm] follows the first one (lines 1-441, entry
    point [run]), called vm.js below; module [Main] follows the second one
    (lines 443-886, entry point [main]), the module that test.js loads as
    ./main, called main.js below.  Both share the JavaScript number fragment
    of module [JS], the typed arrays, the console model and the image loader.

    [printAsHex] and [printAsBinary], which both interpreters define alike,
    are embedded once, outside the two modules.

    Not embedded: of the second interpreter, [trapPuts], [trapPutsp] and the
    loop of [main]. *)

From Stdlib Require Import ZArith Zbitwise Lia Bool List.
From Stdlib Require Import Init.Byte Strings.Byte Strings.String Strings.Ascii.
From stdpp Require Import base list.

Local Open Scope Z_scope.

(** ** The JavaScript fragment used by the interpreters *)

Module JS.

(** Values that flow through the interpreters: integral numbers, [NaN]
    (only ever produced by arithmetic on [undefined]) and [undefined]
    (an out-of-range typed-array read, or an absent key code). *)
Inductive value : Type :=
| Num (n : Z)
| NaN
| Undefined.

(** ToInt32, ToUint32 and ToUint16 of ECMAScript; [NaN] and [undefined]
    convert to 0. *)
Definition wrap32 (n : Z) : Z := (n + 2 ^ 31) mod 2 ^ 32 - 2 ^ 31.

Definition ToInt32 (v : value) : Z :=
  match v with
  | Num n => wrap32 n
  | NaN | Undefined => 0
  end.

Definition ToUint32 (v : value) : Z :=
  match v with
  | Num n => n mod 2 ^ 32
  | NaN | Undefined => 0
  end.

Definition ToUint16 (v : value) : Z :=
  match v with
  | Num n => n mod 2 ^ 16
  | NaN | Undefined => 0
  end.

(** [a << b], [a >> b], [a & b], [a | b], [~a]: 32-bit integer operators. *)
Definition shl (a b : value) : value :=
  Num (wrap32 (Z.shiftl (ToInt32 a) (ToUint32 b mod 32))).

Definition sar (a b : value) : value :=
  Num (Z.shiftr (ToInt32 a) (ToUint32 b mod 32)).

Definition band (a b : value) : value := Num (Z.land (ToInt32 a) (ToInt32 b)).

Definition bor (a b : value) : value := Num (Z.lor (ToInt32 a) (ToInt32 b)).

Definition bnot (a : value) : value := Num (Z.lnot (ToInt32 a)).

(** [a + b] and [a - b] on numbers; [undefined] converts to [NaN]. *)
Definition add (a b : value) : value :=
  match a, b with
  | Num x, Num y => Num (x + y)
  | _, _ => NaN
  end.

Definition sub (a b : value) : value :=
  match a, b with
  | Num x, Num y => Num (x - y)
  | _, _ => NaN
  end.

(** [a === b] and [a !== b]. *)
Definition strict_eq (a b : value) : bool :=
  match a, b with
  | Num x, Num y => x =? y
  | Undefined, Undefined => true
  | _, _ => false
  end.

Definition strict_ne (a b : value) : bool := negb (strict_eq a b).

(** Truthiness, as tested by [if (v)]. *)
Definition truthy (v : value) : bool :=
  match v with
  | Num n => negb (n =? 0)
  | NaN | Undefined => false
  end.

(** [String.fromCharCode(v)]: a string of one UTF-16 code unit. *)
Definition fromCharCode (v : value) : list Z := [ToUint16 v].

(** A [Uint16Array]: a fixed-length sequence of 16-bit cells.  An element
    read outside the array is [undefined]; an element write outside is
    dropped; a stored value is reduced by ToUint16. *)
Abbreviation Uint16Array := (list Z).

Definition new_Uint16Array (length : Z) : Uint16Array :=
  replicate (Z.to_nat length) 0.

Definition get (a : Uint16Array) (k : value) : value :=
  match k with
  | Num n =>
      if 0 <=? n
      then match a !! Z.to_nat n with
           | Some w => Num w
           | None => Undefined
           end
      else Undefined
  | NaN | Undefined => Undefined
  end.

Definition set (a : Uint16Array) (k v : value) : Uint16Array :=
  match k with
  | Num n => if 0 <=? n then <[Z.to_nat n := ToUint16 v]> a else a
  | NaN | Undefined => a
  end.

End JS.

Import JS.
Coercion Num : Z >-> value.

Declare Scope js_scope.
Delimit Scope js_scope with js.
Bind Scope js_scope with value.
Infix ".<<" := shl (at level 32, left associativity) : js_scope.
Infix ".>>" := sar (at level 32, left associativity) : js_scope.
Infix ".&" := band (at level 40, left associativity) : js_scope.
Infix ".|" := bor (at level 50, left associativity) : js_scope.
Infix ".+" := JS.add (at level 50, left associativity) : js_scope.
Infix ".-" := JS.sub (at level 50, left associativity) : js_scope.
Infix "===" := strict_eq (at level 70, no associativity) : js_scope.
Infix "!==" := strict_ne (at level 70, no associativity) : js_scope.
Local Open Scope js_scope.

(** ** Registers, opcodes, flags, trap codes, device registers *)

Definition R0 : Z := 0.
Definition R7 : Z := 7.
Definition PC : Z := 8.
Definition COND : Z := 9.

Definition OP_BR : Z := 0.
Definition OP_ADD : Z := 1.
Definition OP_LD : Z := 2.
Definition OP_ST : Z := 3.
Definition OP_JSR : Z := 4.
Definition OP_AND : Z := 5.
Definition OP_LDR : Z := 6.
Definition OP_STR : Z := 7.
Definition OP_RTI : Z := 8.
Definition OP_NOT : Z := 9.
Definition OP_LDI : Z := 10.
Definition OP_STI : Z := 11.
Definition OP_JMP : Z := 12.
Definition OP_RES : Z := 13.
Definition OP_LEA : Z := 14.
Definition OP_TRAP : Z := 15.

Definition FL_POS : Z := 1.
Definition FL_ZRO : Z := 2.
Definition FL_NEG : Z := 4.

Definition TRAP_GETC : Z := 0x20.
Definition TRAP_OUT : Z := 0x21.
Definition TRAP_PUTS : Z := 0x22.
Definition TRAP_IN : Z := 0x23.
Definition TRAP_PUTSP : Z := 0x24.
Definition TRAP_HALT : Z := 0x25.

Definition MR_KBSR : Z := 0xfe00.
Definition MR_KBDR : Z := 0xfe02.

(** ** Machine state and console *)

(** The [memory] object: its 16-bit cells and, because [memory[undefined] = v]
    creates an ordinary own property named "undefined" on the array object,
    the value of that property ([Undefined] while absent). *)
Record Memory : Type := mkMemory {
  cells : Uint16Array;
  prop_undefined : value
}.

Definition mem_get (m : Memory) (k : value) : value :=
  match k with
  | Undefined => prop_undefined m
  | _ => get (cells m) k
  end.

Definition mem_set (m : Memory) (k v : value) : Memory :=
  match k with
  | Undefined => mkMemory (cells m) v
  | _ => mkMemory (set (cells m) k v) (prop_undefined m)
  end.

(** What the console delivers while the program waits: either the 5 ms timer
    of a poll fires first, or a 'data' event arrives with a chunk of bytes. *)
Inductive event : Type :=
| Timeout
| Data (chunk : list byte).

Record machine : Type := mkMachine {
  memory : Memory;
  registers : Uint16Array;
  stdin : list event;
  stdout : list (list Z)
}.

Definition with_memory (s : machine) (m : Memory) : machine :=
  mkMachine m (registers s) (stdin s) (stdout s).
Definition with_registers (s : machine) (r : Uint16Array) : machine :=
  mkMachine (memory s) r (stdin s) (stdout s).
Definition with_stdin (s : machine) (i : list event) : machine :=
  mkMachine (memory s) (registers s) i (stdout s).
Definition with_stdout (s : machine) (o : list (list Z)) : machine :=
  mkMachine (memory s) (registers s) (stdin s) o.

(** [const memory = new Uint16Array(0xffff); const registers = new Uint16Array(10);] *)
Definition initial (input : list event) : machine :=
  mkMachine (mkMemory (new_Uint16Array 0xffff) Undefined) (new_Uint16Array 10) input [].

(** Outcome of running a piece of the interpreter from a state: it returns a
    value, or the process exits (the Ctrl-C listener), or it waits for a 'data'
    event that never arrives, or it is caught in a loop that cannot exit.
    Every outcome carries the state reached. *)
Inductive result (A : Type) : Type :=
| Ret (a : A) (s : machine)
| Exit (s : machine)
| Block (s : machine)
| Spin (s : machine).
Arguments Ret {A} a s.
Arguments Exit {A} s.
Arguments Block {A} s.
Arguments Spin {A} s.

Definition state_of {A : Type} (r : result A) : machine :=
  match r with
  | Ret _ s | Exit s | Block s | Spin s => s
  end.

Definition M (A : Type) : Type := machine -> result A.

Definition ret {A : Type} (a : A) : M A := fun s => Ret a s.

Definition bind {A B : Type} (m : M A) (k : A -> M B) : M B :=
  fun s =>
    match m s with
    | Ret a s' => k a s'
    | Exit s' => Exit s'
    | Block s' => Block s'
    | Spin s' => Spin s'
    end.

Notation "x <- m ;; k" := (bind m (fun x => k))
  (at level 100, m at next level, right associativity).
Notation "m ;;; k" := (bind m (fun _ => k))
  (at level 100, right associativity).

Definition spin {A : Type} : M A := fun s => Spin s.

(** [registers[k]], [registers[k] = v], [memory[k]], [memory[k] = v]. *)
Definition reg (k : value) : M value := fun s => Ret (get (registers s) k) s.
Definition set_reg (k v : value) : M unit :=
  fun s => Ret tt (with_registers s (set (registers s) k v)).
Definition mem (k : value) : M value := fun s => Ret (mem_get (memory s) k) s.
Definition set_mem (k v : value) : M unit :=
  fun s => Ret tt (with_memory s (mem_set (memory s) k v)).

(** [process.stdout.write(str)]. *)
Definition stdout_write (str : list Z) : M unit :=
  fun s => Ret tt (with_stdout s (stdout s ++ [str])).

(** [chunk[0]] of a Buffer. *)
Definition first_byte (chunk : list byte) : value :=
  match chunk with
  | b :: _ => Num (Z.of_N (Byte.to_N b))
  | [] => Undefined
  end.

(** The listener installed by [run] and by [main]:
    [process.stdin.on('data', (data) => { if (data[0] === 3) process.exit(0); })]. *)
Definition ctrl_c (chunk : list byte) : bool := first_byte chunk === 3.

(** [await Promise.race([once(process.stdin, 'data'), sleep(..)])] followed by
    [[[keyCode]] = key]: the next console event decides the race. *)
Definition race_data_sleep : M value :=
  fun s =>
    match stdin s with
    | [] => Ret Undefined s
    | Timeout :: rest => Ret Undefined (with_stdin s rest)
    | Data chunk :: rest =>
        if ctrl_c chunk then Exit (with_stdin s rest)
        else Ret (first_byte chunk) (with_stdin s rest)
    end.

(** [await once(process.stdin, 'data')]: wait for the next 'data' event. *)
Fixpoint next_data (evs : list event) : option (list byte * list event) :=
  match evs with
  | [] => None
  | Timeout :: rest => next_data rest
  | Data chunk :: rest => Some (chunk, rest)
  end.

Definition once_data : M value :=
  fun s =>
    match next_data (stdin s) with
    | None => Block (with_stdin s [])
    | Some (chunk, rest) =>
        if ctrl_c chunk then Exit (with_stdin s rest)
        else Ret (first_byte chunk) (with_stdin s rest)
    end.

(** [buf.readUInt16BE(offset)] of a Node Buffer; [None] is the RangeError
    thrown when fewer than two bytes remain at [offset]. *)
Definition readUInt16BE (buf : list byte) (offset : nat) : option Z :=
  match buf !! offset, buf !! S offset with
  | Some hi, Some lo => Some (Z.of_N (Byte.to_N hi) * 2 ^ 8 + Z.of_N (Byte.to_N lo))
  | _, _ => None
  end.

(** Big-endian 16-bit word of two bytes, and the loader loop shared by [run]
    and [main]:
    [while (offset < buf.length) { word = buf.readUInt16BE(offset);
       writeMemory(memLocation, word); offset += 2; memLocation += 1; }]
    over the bytes from [offset] on.  A single trailing byte makes
    [readUInt16BE] throw. *)
Definition uint16BE (hi lo : byte) : Z :=
  Z.of_N (Byte.to_N hi) * 2 ^ 8 + Z.of_N (Byte.to_N lo).

Fixpoint load_words (bytes : list byte) (memLocation : Z) (m : Memory) : option Memory :=
  match bytes with
  | [] => Some m
  | [_] => None
  | hi :: lo :: rest =>
      load_words rest (memLocation + 1) (mem_set m memLocation (uint16BE hi lo))
  end.

(** [memLocation = buf.readUInt16BE(0); offset = 2; while ...; registers[PC] = 0x3000]. *)
Definition load_image (buf : list byte) (s : machine) : option machine :=
  match buf with
  | hi :: lo :: rest =>
      match load_words rest (uint16BE hi lo) (memory s) with
      | Some m =>
          Some (with_registers (with_memory s m) (set (registers s) PC 0x3000))
      | None => None
      end
  | _ => None
  end.

(** ** The first interpreter (lines 1-441, vm.js) *)

Module Vm.

Definition pollForKey : M value := race_data_sleep.

Definition readMemory (address : value) : M value :=
  (if address === MR_KBSR then
     keyCode <- pollForKey;;
     if truthy keyCode then
       set_mem MR_KBSR 0x8000;;;
       set_mem MR_KBDR keyCode
     else
       set_mem MR_KBSR 0
   else ret tt);;;
  mem address.

Definition writeMemory (address v : value) : M unit := set_mem address v.

Definition signExtendSuffix (instr : value) (inputBitWidth : Z) : value :=
  let mask := (1 .<< inputBitWidth) .- 1 in
  let suffix := instr .& mask in
  if truthy ((suffix .>> (inputBitWidth .- 1)) .& 1) then
    let extended := suffix .| (0xffff .<< inputBitWidth) in
    extended .& 0xffff
  else suffix.

Definition updateCondFlag (register : value) : M unit :=
  r <- reg register;;
  if r === 0 then set_reg COND FL_ZRO
  else if (r .>> 15) === 1 then set_reg COND FL_NEG
  else set_reg COND FL_POS.

Definition add (instr : value) : M unit :=
  let destReg := (instr .>> 9) .& 7 in
  let inputReg := (instr .>> 6) .& 7 in
  let immFlag := (instr .>> 5) .& 1 in
  (if truthy immFlag then
     let immValue := signExtendSuffix instr 5 in
     a <- reg inputReg;;
     set_reg destReg (a .+ immValue)
   else
     let secondInputReg := instr .& 7 in
     a <- reg inputReg;;
     b <- reg secondInputReg;;
     set_reg destReg (a .+ b));;;
  updateCondFlag destReg.

Definition and (instr : value) : M unit :=
  let destReg := (instr .>> 9) .& 7 in
  let inputReg := (instr .>> 6) .& 7 in
  let immFlag := (instr .>> 5) .& 1 in
  (if truthy immFlag then
     let immValue := signExtendSuffix instr 5 in
     a <- reg inputReg;;
     set_reg destReg (a .& immValue)
   else
     let secondInputReg := instr .& 7 in
     a <- reg inputReg;;
     b <- reg secondInputReg;;
     set_reg destReg (a .& b));;;
  updateCondFlag destReg.

Definition not (instr : value) : M unit :=
  let destReg := (instr .>> 9) .& 7 in
  let inputReg := (instr .>> 6) .& 7 in
  a <- reg inputReg;;
  set_reg destReg (bnot a);;;
  updateCondFlag destReg.

Definition branch (instr : value) : M unit :=
  let condMask := (instr .>> 9) .& 7 in
  condFlag <- reg COND;;
  let shouldBranch := condMask .& condFlag in
  if truthy shouldBranch then
    let offset := signExtendSuffix instr 9 in
    pc <- reg PC;;
    let newPC := (pc .+ offset) .& 0xffff in
    set_reg PC newPC
  else ret tt.

Definition jump (instr : value) : M unit :=
  let baseRegister := (instr .>> 6) .& 7 in
  b <- reg baseRegister;;
  set_reg PC b.

Definition jumpToSubroutine (instr : value) : M unit :=
  pc <- reg PC;;
  set_reg R7 pc;;;
  let offsetFlag := (instr .>> 11) .& 1 in
  if offsetFlag === 1 then
    let offset := signExtendSuffix instr 11 in
    pc <- reg PC;;
    let newPC := (pc .+ offset) .& 0xffff in
    set_reg PC newPC
  else
    let baseRegister := (instr .>> 6) .& 7 in
    b <- reg baseRegister;;
    set_reg PC b.

Definition load (instr : value) : M unit :=
  let destReg := (instr .>> 9) .& 7 in
  let offset := signExtendSuffix instr 9 in
  pc <- reg PC;;
  let addr := (pc .+ offset) .& 0xffff in
  v <- readMemory addr;;
  set_reg destReg v;;;
  updateCondFlag destReg.

Definition loadIndirect (instr : value) : M unit :=
  let destReg := (instr .>> 9) .& 7 in
  let loadOffset := signExtendSuffix instr 9 in
  pc <- reg PC;;
  let addr := (pc .+ loadOffset) .& 0xffff in
  loadAddr <- readMemory addr;;
  loadVal <- readMemory loadAddr;;
  set_reg destReg loadVal;;;
  updateCondFlag destReg.

Definition loadWithOffset (instr : value) : M unit :=
  let destReg := (instr .>> 9) .& 7 in
  let baseRegister := (instr .>> 6) .& 7 in
  let offset := signExtendSuffix instr 6 in
  b <- reg baseRegister;;
  let addr := (b .+ offset) .& 0xffff in
  v <- readMemory addr;;
  set_reg destReg v;;;
  updateCondFlag destReg.

Definition loadEffectiveAddress (instr : value) : M unit :=
  let destReg := (instr .>> 9) .& 7 in
  let offset := signExtendSuffix instr 9 in
  pc <- reg PC;;
  set_reg destReg ((pc .+ offset) .& 0xffff);;;
  updateCondFlag destReg.

Definition store (instr : value) : M unit :=
  let inputReg := (instr .>> 9) .& 7 in
  let offset := signExtendSuffix instr 9 in
  pc <- reg PC;;
  let destAddr := (pc .+ offset) .& 0xffff in
  v <- reg inputReg;;
  writeMemory destAddr v.

Definition storeIndirect (instr : value) : M unit :=
  let inputReg := (instr .>> 9) .& 7 in
  let offset := signExtendSuffix instr 9 in
  pc <- reg PC;;
  let readAddr := (pc .+ offset) .& 0xffff in
  destAddr <- readMemory readAddr;;
  v <- reg inputReg;;
  writeMemory destAddr v.

Definition storeOffset (instr : value) : M unit :=
  let regToStore := (instr .>> 9) .& 7 in
  let baseReg := (instr .>> 6) .& 7 in
  let offset := signExtendSuffix instr 6 in
  b <- reg baseReg;;
  let destAddr := (b .+ offset) .& 0xffff in
  v <- reg regToStore;;
  writeMemory destAddr v.

Definition getChar : M value := once_data.

Definition trapGetc : M unit :=
  keyCode <- getChar;;
  set_reg R0 keyCode.

(** The code units of the prompt ['Enter a character: ']. *)
Definition prompt : list Z :=
  [69; 110; 116; 101; 114; 32; 97; 32; 99; 104; 97; 114; 97; 99; 116; 101; 114; 58; 32].

Definition trapIn : M unit :=
  stdout_write prompt;;;
  keyCode <- getChar;;
  stdout_write (fromCharCode keyCode);;;
  set_reg R0 keyCode.

Definition trapOut : M unit :=
  character <- reg R0;;
  stdout_write (fromCharCode character).

(** The [while (character !== 0x0000)] loop of [trapPuts].  [fuel] counts
    the cells from the start address to the end of the array; once the
    address has left the array every read is [undefined], which is
    [!== 0], so the loop cannot exit any more: [spin]. *)
Fixpoint trapPuts_loop (fuel : nat) (addr character : value) : M unit :=
  if character !== 0 then
    match fuel with
    | O => spin
    | S fuel' =>
        stdout_write (fromCharCode character);;;
        let addr := addr .+ 1 in
        character <- readMemory addr;;
        trapPuts_loop fuel' addr character
    end
  else ret tt.

Definition trapPuts : M unit :=
  fun s =>
    (addr <- reg R0;;
     character <- readMemory addr;;
     trapPuts_loop (length (cells (memory s))) addr character) s.

Fixpoint trapPutsp_loop (fuel : nat) (addr characterPair : value) : M unit :=
  if characterPair !== 0 then
    match fuel with
    | O => spin
    | S fuel' =>
        let char1 := characterPair .& 0xff in
        stdout_write (fromCharCode char1);;;
        let char2 := characterPair .>> 8 in
        (if char2 !== 0 then stdout_write (fromCharCode char2) else ret tt);;;
        let addr := addr .+ 1 in
        characterPair <- readMemory addr;;
        trapPutsp_loop fuel' addr characterPair
    end
  else ret tt.

Definition trapPutsp : M unit :=
  fun s =>
    (addr <- reg R0;;
     characterPair <- readMemory addr;;
     trapPutsp_loop (length (cells (memory s))) addr characterPair) s.

(** The inner [switch (trapCode)]; the result is the new value of [running]. *)
Definition trap (instruction : value) : M bool :=
  let trapCode := instruction .& 0xFF in
  if trapCode === TRAP_GETC then trapGetc;;; ret true
  else if trapCode === TRAP_HALT then ret false
  else if trapCode === TRAP_IN then trapIn;;; ret true
  else if trapCode === TRAP_OUT then trapOut;;; ret true
  else if trapCode === TRAP_PUTS then trapPuts;;; ret true
  else if trapCode === TRAP_PUTSP then trapPutsp;;; ret true
  else ret true.

(** The [switch (opcode)] of the main loop. *)
Definition execute (opcode instruction : value) : M bool :=
  if opcode === OP_ADD then add instruction;;; ret true
  else if opcode === OP_AND then and instruction;;; ret true
  else if opcode === OP_NOT then not instruction;;; ret true
  else if opcode === OP_BR then branch instruction;;; ret true
  else if opcode === OP_JMP then jump instruction;;; ret true
  else if opcode === OP_JSR then jumpToSubroutine instruction;;; ret true
  else if opcode === OP_LD then load instruction;;; ret true
  else if opcode === OP_LDI then loadIndirect instruction;;; ret true
  else if opcode === OP_LDR then loadWithOffset instruction;;; ret true
  else if opcode === OP_LEA then loadEffectiveAddress instruction;;; ret true
  else if opcode === OP_ST then store instruction;;; ret true
  else if opcode === OP_STI then storeIndirect instruction;;; ret true
  else if opcode === OP_STR then storeOffset instruction;;; ret true
  else if opcode === OP_TRAP then trap instruction
  else ret true.

(** One iteration of [while (running)]: fetch, decode, advance, dispatch. *)
Definition fetch : M (value * value) :=
  pc <- reg PC;;
  instruction <- readMemory pc;;
  let opcode := instruction .>> 12 in
  pc <- reg PC;;
  set_reg PC (pc .+ 1);;;
  ret (opcode, instruction).

Definition step : M bool :=
  oi <- fetch;;
  execute (fst oi) (snd oi).

(** [while (running) { ... } process.exit(0)]; [None] when [fuel]
    iterations were not enough to reach an outcome. *)
Fixpoint loop (fuel : nat) (s : machine) : option (result unit) :=
  match fuel with
  | O => None
  | S fuel' =>
      match step s with
      | Ret true s' => loop fuel' s'
      | Ret false s' => Some (Exit s')
      | Exit s' => Some (Exit s')
      | Block s' => Some (Block s')
      | Spin s' => Some (Spin s')
      end
  end.

(** [run(programBuffer)] from the module's initial state; the outer [None]
    is the RangeError of a truncated image. *)
Definition run (programBuffer : list byte) (input : list event) (fuel : nat)
  : option (option (result unit)) :=
  match load_image programBuffer (initial input) with
  | Some s => Some (loop fuel s)
  | None => None
  end.

End Vm.

(** ** The second interpreter (lines 443-886, main.js)

    The memory access functions, [signExtend], [updateCondFlag], the
    instruction handlers and the trap routines GETC, IN and OUT; the loader
    is [load_image] above. *)

Module Main.

Definition pollForKey : M value := race_data_sleep.

Definition readMemory (address : value) : M value :=
  (if address === MR_KBSR then
     keyCode <- pollForKey;;
     if truthy keyCode then
       set_mem MR_KBSR (1 .<< 15);;;
       set_mem MR_KBDR keyCode
     else
       set_mem MR_KBSR 0
   else ret tt);;;
  mem address.

Definition writeMemory (address v : value) : M unit := set_mem address v.

Definition signExtend (num : value) (bitCount : Z) : value :=
  if truthy ((num .>> (bitCount .- 1)) .& 1) then
    num .| (0xFFFF .<< bitCount)
  else num.

(** [register[register]] indexes the number [register] itself, not the
    [registers] array: a number has no indexed properties, so the
    expression is [undefined] whatever the argument. *)
Definition number_index (n k : value) : value := Undefined.

Definition updateCondFlag (register : value) : M unit :=
  r <- reg register;;
  if r === 0 then set_reg COND FL_ZRO
  else if (number_index register register .>> 15) === 1 then set_reg COND FL_NEG
  else set_reg COND FL_POS.

Definition add (instr : value) : M unit :=
  let destReg := (instr .>> 9) .& 7 in
  let inputReg := (instr .>> 6) .& 7 in
  let immFlag := (instr .>> 5) .& 1 in
  (if truthy immFlag then
     let immValue := signExtend (instr .& 31) 5 in
     a <- reg inputReg;;
     set_reg destReg (a .+ immValue)
   else
     let secondInputReg := instr .& 7 in
     a <- reg inputReg;;
     b <- reg secondInputReg;;
     set_reg destReg (a .+ b));;;
  updateCondFlag destReg.

Definition and (instr : value) : M unit :=
  let destReg := (instr .>> 9) .& 7 in
  let inputReg := (instr .>> 6) .& 7 in
  let immFlag := (instr .>> 5) .& 1 in
  (if truthy immFlag then
     let immValue := signExtend (instr .& 31) 5 in
     a <- reg inputReg;;
     set_reg destReg (a .& immValue)
   else
     let secondInputReg := instr .& 7 in
     a <- reg inputReg;;
     b <- reg secondInputReg;;
     set_reg destReg (a .& b));;;
  updateCondFlag destReg.

Definition not (instr : value) : M unit :=
  let destReg := (instr .>> 9) .& 7 in
  let inputReg := (instr .>> 6) .& 7 in
  a <- reg inputReg;;
  set_reg destReg (bnot a);;;
  updateCondFlag destReg.

Definition branch (instr : value) : M unit :=
  let neg := (instr .>> 11) .& 1 in
  let zero := (instr .>> 10) .& 1 in
  let pos := (instr .>> 9) .& 1 in
  cond <- reg COND;;
  let shouldBranch :=
    (truthy neg && (cond === FL_NEG))
    || (truthy zero && (cond === FL_ZRO))
    || (truthy pos && (cond === FL_POS)) in
  if shouldBranch then
    let offset := signExtend (instr .& 511) 9 in
    pc <- reg PC;;
    set_reg PC (pc .+ offset)
  else ret tt.

Definition jump (instr : value) : M unit :=
  let baseRegister := (instr .>> 6) .& 7 in
  set_reg PC baseRegister.

Definition jumpToSubroutine (instr : value) : M unit :=
  pc <- reg PC;;
  set_reg R7 pc;;;
  let offsetFlag := (instr .>> 11) .& 1 in
  if truthy offsetFlag then
    let offset := signExtend (instr .& 2047) 11 in
    pc <- reg PC;;
    set_reg PC (pc .+ offset)
  else
    let baseRegister := (instr .>> 6) .& 7 in
    set_reg PC baseRegister.

Definition load (instr : value) : M unit :=
  let destReg := (instr .>> 9) .& 7 in
  let offset := signExtend (instr .& 511) 9 in
  pc <- reg PC;;
  let addr := pc .+ offset in
  v <- readMemory addr;;
  set_reg destReg v;;;
  updateCondFlag destReg.

Definition loadIndirect (instr : value) : M unit :=
  let destReg := (instr .>> 9) .& 7 in
  let loadOffset := signExtend (instr .& 511) 9 in
  pc <- reg PC;;
  loadAddr <- readMemory (pc .+ loadOffset);;
  v <- readMemory loadAddr;;
  set_reg destReg v;;;
  updateCondFlag destReg.

Definition loadWithOffset (instr : value) : M unit :=
  let destReg := (instr .>> 9) .& 7 in
  let baseRegister := (instr .>> 6) .& 7 in
  let offset := signExtend (instr .& 63) 6 in
  let addr := baseRegister .+ offset in
  v <- readMemory addr;;
  set_reg destReg v;;;
  updateCondFlag destReg.

Definition loadEffectiveAddress (instr : value) : M unit :=
  let destReg := (instr .>> 9) .& 7 in
  let offset := signExtend (instr .& 511) 9 in
  pc <- reg PC;;
  let addr := pc .+ offset in
  v <- readMemory addr;;
  set_reg destReg v;;;
  updateCondFlag destReg.

Definition store (instr : value) : M unit :=
  let inputReg := (instr .>> 9) .& 7 in
  let offset := signExtend (instr .& 511) 9 in
  pc <- reg PC;;
  let destAddr := pc .+ offset in
  v <- reg inputReg;;
  writeMemory destAddr v.

Definition storeIndirect (instr : value) : M unit :=
  let inputReg := (instr .>> 9) .& 7 in
  let offset := signExtend (instr .& 511) 9 in
  pc <- reg PC;;
  let readAddr := pc .+ offset in
  destAddr <- readMemory readAddr;;
  v <- reg inputReg;;
  writeMemory destAddr v.

Definition storeOffset (instr : value) : M unit :=
  let inputReg := (instr .>> 9) .& 7 in
  let baseReg := (instr .>> 6) .& 7 in
  let offset := signExtend (instr .& 63) 6 in
  b <- reg baseReg;;
  let destAddr := b .+ offset in
  v <- reg inputReg;;
  writeMemory destAddr v.

Definition getChar : M value := once_data.

Definition trapGetc : M unit :=
  keyCode <- getChar;;
  set_reg R0 keyCode.

Definition trapIn : M unit :=
  stdout_write Vm.prompt;;;
  keyCode <- getChar;;
  stdout_write (fromCharCode keyCode);;;
  set_reg R0 keyCode.

Definition trapOut : M unit :=
  r0 <- reg R0;;
  character <- readMemory r0;;
  stdout_write (fromCharCode character).

End Main.

(** ** Observations, contracts and test inputs used in the statements *)

(** The value a computation returned, if it returned. *)
Definition returned {A : Type} (r : result A) : option A :=
  match r with
  | Ret a _ => Some a
  | _ => None
  end.

(** [registers[j]] in a state. *)
Definition reg_at (j : Z) (s : machine) : value := get (registers s) j.

(** Number of cells of [memory]. *)
Definition mem_len (s : machine) : Z := Z.of_nat (length (cells (memory s))).

(** A computation leaves the observation [f] of the state unchanged, whatever
    its outcome. *)
Definition preserves {X A : Type} (f : machine -> X) (m : M A) : Prop :=
  forall s, f (state_of (m s)) = f s.

(** From a state satisfying [P], a computation that returns does so in a
    state satisfying [Q]. *)
Definition ensures {A : Type} (P Q : machine -> Prop) (m : M A) : Prop :=
  forall s a s', P s -> m s = Ret a s' -> Q s'.

(** The opcodes that must leave COND alone. *)
Definition keeps_flags : list Z :=
  [OP_BR; OP_JMP; OP_JSR; OP_ST; OP_STI; OP_STR; OP_TRAP].

(** The flag rule in the words of the specification: Z for a zero result,
    N when bit 15 is set, P otherwise. *)
Definition flag_of (w : Z) : Z :=
  if w =? 0 then FL_ZRO else if Z.testbit w 15 then FL_NEG else FL_POS.

Definition regs_ok (s : machine) : Prop := length (registers s) = 10%nat.

Definition written (d : Z) (s : machine) : Prop :=
  regs_ok s /\ exists w, registers s !! Z.to_nat d = Some w /\ 0 <= w < 2 ^ 16.

Definition flags_ok (d : Z) (s : machine) : Prop :=
  exists w, registers s !! Z.to_nat d = Some w /\ reg_at COND s = Num (flag_of w).

(** Sign extension in the words of the specification: the low [w] bits of
    [v], with 1-bits ORed into positions [w..15] when bit [w-1] is set. *)
Definition sign_extend_spec (v w : Z) : Z :=
  if Z.testbit v (w - 1)
  then Z.land (Z.lor (Z.land v (Z.ones w)) (Z.shiftl 0xFFFF w)) 0xFFFF
  else Z.land v (Z.ones w).

(** The cells after a read of KBSR whose poll yielded [k], and the state
    after that read: one console event consumed, nothing else touched. *)
Definition cells_after_poll (k : value) (cs : Uint16Array) : Uint16Array :=
  if truthy k then set (set cs MR_KBSR 0x8000) MR_KBDR k else set cs MR_KBSR 0.

Definition after_poll (s : machine) (cells' : Uint16Array) : machine :=
  mkMachine (mkMemory cells' (prop_undefined (memory s)))
            (registers s) (tail (stdin s)) (stdout s).

(** Origin x3000, one word: TRAP HALT. *)
Definition trap_halt_image : list byte := [x30; x00; xf0; x25].

(** The state in which [run] enters its loop on [trap_halt_image]. *)
Definition trap_halt_machine : machine :=
  with_registers
    (with_memory (initial []) (mem_set (memory (initial [])) 0x3000 0xF025))
    (set (registers (initial [])) PC 0x3000).

(** Origin x3000: LD R0, +2; TRAP OUT; TRAP HALT; .FILL x0141. *)
Definition out_image : list byte :=
  [x30; x00; x20; x02; xf0; x21; xf0; x25; x01; x41].

(** The initial state with R0 = x0141, and with R0 = KBSR and a key pending. *)
Definition r0_is_0x141 : machine :=
  with_registers (initial []) (set (registers (initial [])) R0 0x141).

Definition r0_is_KBSR : machine :=
  with_registers (initial [Data [x41]]) (set (registers (initial [])) R0 MR_KBSR).

(** The state after a key [A] was polled through KBSR, with a chunk that
    starts with the byte 0 pending: KBSR holds x8000 and KBDR holds x41. *)
Definition key_then_nul : machine :=
  state_of (Vm.readMemory MR_KBSR (initial [Data [x41]; Data [x00; x42]])).

(** Origin xFFFE followed by the words 1, 2, 3. *)
Definition wrap_image : list byte := [xff; xfe; x00; x01; x00; x02; x00; x03].

(** ** Well-formed states and the vocabulary of the instruction semantics *)

(** A 16-bit word. *)
Definition word (w : Z) : Prop := 0 <= w < 2 ^ 16.

(** What the two typed arrays are by construction: ten registers and 65535
    memory cells, each a 16-bit word. *)
Definition wf_registers (rs : Uint16Array) : Prop :=
  length rs = 10%nat /\ Forall word rs.

Definition wf_cells (cs : Uint16Array) : Prop :=
  Z.of_nat (length cs) = 0xffff /\ Forall word cs.

Definition wf (s : machine) : Prop :=
  wf_registers (registers s) /\ wf_cells (cells (memory s)).

(** A computation keeps the property [P] of the state, whatever its outcome. *)
Definition keeps {A : Type} (P : machine -> Prop) (m : M A) : Prop :=
  forall s, P s -> P (state_of (m s)).

(** The content of register [j] and of memory cell [a] as integers (0 where
    the array has no such element). *)
Definition rget (rs : Uint16Array) (j : Z) : Z := default 0 (rs !! Z.to_nat j).

Definition mread (m : Memory) (a : Z) : Z := default 0 (cells m !! Z.to_nat a).

(** Bits [lo .. lo+n-1] of an instruction word, and its register fields. *)
Definition field (i lo n : Z) : Z := Z.land (Z.shiftr i lo) (Z.ones n).

Definition DR (i : Z) : Z := field i 9 3.
Definition SR1 (i : Z) : Z := field i 6 3.
Definition SR2 (i : Z) : Z := field i 0 3.

(** The low [w] bits of [i] read as a two's-complement number. *)
Definition simm (w i : Z) : Z :=
  if Z.testbit i (w - 1) then Z.land i (Z.ones w) - 2 ^ w else Z.land i (Z.ones w).

(** The register file after an instruction has written [r] to register [d]
    and set the flags from it. *)
Definition write_result (d r : Z) (s : machine) : machine :=
  with_registers s
    (<[Z.to_nat COND := flag_of r]> (<[Z.to_nat d := r]> (registers s))).

(** The register file after [registers[j] = r]. *)
Definition write_reg (j r : Z) (s : machine) : machine :=
  with_registers s (<[Z.to_nat j := r]> (registers s)).

(** The state after [memory[a] = v] for a number [a] and a word [v]. *)
Definition write_mem (a v : Z) (s : machine) : machine :=
  with_memory s (mkMemory (<[Z.to_nat a := v]> (cells (memory s)))
                          (prop_undefined (memory s))).

(** The cells from address [a] on hold the non-zero words [ws] followed by
    a zero word. *)
Fixpoint string_at (cs : Uint16Array) (a : Z) (ws : list Z) : Prop :=
  match ws with
  | [] => cs !! Z.to_nat a = Some 0
  | w :: ws' => cs !! Z.to_nat a = Some w /\ w <> 0 /\ string_at cs (a + 1) ws'
  end.

(** What PUTS writes for a string: one write per word. *)
Definition puts_output (ws : list Z) : list (list Z) := List.map (fun w => [w]) ws.

(** What PUTSP writes for a string: per word the low byte, then the high
    byte unless it is zero. *)
Definition putsp_output (ws : list Z) : list (list Z) :=
  List.concat
    (List.map (fun w => [Z.land w 0xFF]
                          :: (if Z.shiftr w 8 =? 0 then [] else [[Z.shiftr w 8]])) ws).

(** Everything of the state but the registers. *)
Definition outside_registers (s : machine) : Memory * list event * list (list Z) :=
  (memory s, stdin s, stdout s).

(** The opcodes whose handlers work on registers only. *)
Definition register_only : list Z :=
  [OP_ADD; OP_AND; OP_NOT; OP_BR; OP_JMP; OP_JSR; OP_LEA; OP_RTI; OP_RES].

(** Executable check of [wf]. *)
Definition wordb (w : Z) : bool := (0 <=? w) && (w <? 2 ^ 16).

Definition wfb (s : machine) : bool :=
  (length (registers s) =? 10)%nat && forallb wordb (registers s)
  && (Z.of_nat (length (cells (memory s))) =? 0xffff)
  && forallb wordb (cells (memory s)).

(** [trapPuts] with an iteration bound of its own. *)
Definition trapPuts_within (fuel : nat) : M unit :=
  addr <- reg R0;;
  character <- Vm.readMemory addr;;
  Vm.trapPuts_loop fuel addr character.

(** The number [signExtend] of main.js returns for the low [w] bits of [i]:
    for a negative operand the 1-bits are ORed in from bit [w] up to bit
    [w + 15] and nothing is cut off. *)
Definition main_offset (w i : Z) : Z :=
  if Z.testbit i (w - 1) then Z.land i (Z.ones w) + 0xFFFF * 2 ^ w
  else Z.land i (Z.ones w).

(** The flag main.js chooses for a result. *)
Definition main_flag_of (r : Z) : Z := if r =? 0 then FL_ZRO else FL_POS.

(** ** The debugging printers (lines 112-125, and again 550-563)

    Strings are sequences of UTF-16 code units, as in [fromCharCode]. *)

(** The digit character of a digit value: ['0'..'9'], then ['a'..'z']. *)
Definition digit_char (d : Z) : Z := if d <? 10 then 48 + d else 87 + d.

(** The digits of a non-negative integer, most significant first. *)
Fixpoint to_digits (fuel : nat) (radix n : Z) (acc : list Z) : list Z :=
  match fuel with
  | O => acc
  | S fuel' =>
      if n <? radix then n :: acc
      else to_digits fuel' radix (n / radix) (n mod radix :: acc)
  end.

(** [num.toString(radix)] of an integral number: a minus sign for a negative
    number, then the digits of the magnitude without leading zeros. *)
Definition Number_toString (num radix : Z) : list Z :=
  let magnitude := Z.abs num in
  let digits := to_digits (S (Z.to_nat (Z.log2 magnitude))) radix magnitude [] in
  (if num <? 0 then [45] else []) ++ List.map digit_char digits.

(** [str.padStart(targetLength, padString)] with a one-character pad. *)
Definition padStart (str : list Z) (targetLength : Z) (pad : Z) : list Z :=
  replicate (Z.to_nat targetLength - length str) pad ++ str.

(** [str.slice(from, to)] for [0 <= from <= to]. *)
Definition slice (str : list Z) (from to : Z) : list Z :=
  take (Z.to_nat to - Z.to_nat from) (drop (Z.to_nat from) str).

(** [parts.join(separator)]. *)
Fixpoint join (separator : list Z) (parts : list (list Z)) : list Z :=
  match parts with
  | [] => []
  | [p] => p
  | p :: rest => p ++ separator ++ join separator rest
  end.

(** [console.log(str)]: the string and a line feed. *)
Definition console_log (str : list Z) : M unit := stdout_write (str ++ [10]).

Definition printAsHex (num : Z) : M unit :=
  let hex := Number_toString num 16 in
  console_log (padStart hex 4 48).

(** The [for] loop runs for the offsets 0, 4, 8 and 12. *)
Definition printAsBinary (num : Z) : M unit :=
  let binary := Number_toString num 2 in
  let padded := padStart binary 16 48 in
  let ret := List.map (fun offset => slice padded offset (offset + 4)) [0; 4; 8; 12] in
  console_log (join [32] ret).

(** The number a digit sequence denotes. *)
Definition of_digits (radix : Z) (ds : list Z) : Z :=
  fold_left (fun a d => a * radix + d) ds 0.

(** [ds] is the digit sequence of [n] in base [radix] as [padStart] leaves
    it: zero-padded to [width] digits, and without a leading zero when it is
    longer than that.  There is exactly one such sequence. *)
Definition padded_digits (radix : Z) (width : nat) (n : Z) (ds : list Z) : Prop :=
  of_digits radix ds = n
  /\ Forall (fun d => 0 <= d < radix) ds
  /\ (width <= length ds)%nat
  /\ (length ds = width \/ hd 0 ds <> 0).

(** The code of a byte read from the console. *)
Definition byte_code (b : byte) : Z := Z.of_N (Byte.to_N b).

(** ** A test state

    Registers R0..R7, PC and COND; at x3000 the words ADD R1,R1,#1, RTI,
    TRAP x25 and TRAP xFF; a pointer at x3010; the string "Hi" at x4000; a
    packed string at x4100; a non-zero word in the last cell; on the console
    a timer tick and two chunks of typed characters. *)
Definition sample_cells : Uint16Array :=
  fold_right (fun av cs => <[Z.to_nat (fst av) := snd av]> cs)
    (new_Uint16Array 0xffff)
    [(0x3000, 0x1261); (0x3001, 0x8000); (0x3002, 0xF025); (0x3003, 0xF0FF);
     (0x3010, 0x4000);
     (0x4000, 72); (0x4001, 105); (0x4002, 0);
     (0x4100, 0x6948); (0x4101, 0x0021); (0x4102, 0);
     (0xFFFE, 65)].

Definition sample : machine :=
  mkMachine (mkMemory sample_cells Undefined)
    [0x4000; 5; 0xFFFF; 0x4000; 0; 0x3100; 0; 0x3005; 0x3000; 1]
    [Timeout; Data [x61; x62]; Data [x63]] [].

(** * Properties *)

(** ** Facts about the JavaScript fragment and typed arrays *)

Ltac pow2_consts :=
  change (2 ^ 15) with 32768 in *; change (2 ^ 16) with 65536 in *;
  change (2 ^ 28) with 268435456 in *; change (2 ^ 31) with 2147483648 in *.

Lemma wrap32_small (n : Z) : - 2 ^ 31 <= n < 2 ^ 31 -> wrap32 n = n.
Proof. intros H. unfold wrap32. rewrite Z.mod_small; lia. Qed.

Lemma land_mask_range (a k : Z) : 0 <= k -> 0 <= Z.land a (Z.ones k) < 2 ^ k.
Proof.
  intros Hk. rewrite Z.land_ones by exact Hk. apply Z.mod_pos_bound.
  apply Z.pow_pos_nonneg; lia.
Qed.

Lemma band_7 (a : value) : exists r, a .& 7 = Num r /\ 0 <= r <= 7.
Proof.
  exists (Z.land (ToInt32 a) 7). split; [reflexivity|].
  pose proof (land_mask_range (ToInt32 a) 3 ltac:(lia)) as H.
  change (Z.ones 3) with 7 in H. change (2 ^ 3) with 8 in H. lia.
Qed.

Lemma band_small (a b : Z) :
  - 2 ^ 31 <= a < 2 ^ 31 -> - 2 ^ 31 <= b < 2 ^ 31 -> Num a .& Num b = Num (Z.land a b).
Proof. intros Ha Hb. unfold band. simpl. rewrite !wrap32_small by assumption. reflexivity. Qed.

Lemma bor_small (a b : Z) :
  - 2 ^ 31 <= a < 2 ^ 31 -> - 2 ^ 31 <= b < 2 ^ 31 -> Num a .| Num b = Num (Z.lor a b).
Proof. intros Ha Hb. unfold bor. simpl. rewrite !wrap32_small by assumption. reflexivity. Qed.

Lemma sar_small (a n : Z) :
  - 2 ^ 31 <= a < 2 ^ 31 -> 0 <= n < 32 -> Num a .>> Num n = Num (Z.shiftr a n).
Proof.
  intros Ha Hn. unfold sar. simpl. rewrite wrap32_small by assumption.
  rewrite (Z.mod_small n (2 ^ 32)) by lia. rewrite (Z.mod_small n 32) by lia.
  reflexivity.
Qed.

Lemma truthy_bit (a n : Z) :
  0 <= n -> truthy (Num (Z.land (Z.shiftr a n) 1)) = Z.testbit a n.
Proof.
  intros Hn. change 1 with (Z.ones 1). rewrite Z.land_ones by lia.
  change (2 ^ 1) with 2. rewrite <- Z.bit0_mod, Z.shiftr_spec by lia.
  rewrite Z.add_0_l. unfold truthy. destruct (Z.testbit a n); reflexivity.
Qed.

Lemma band_FF_idem (a : value) : (a .& 0xFF) .& 0xFF = a .& 0xFF.
Proof.
  unfold band. cbn [ToInt32]. change (wrap32 255) with (Z.ones 8).
  pose proof (land_mask_range (ToInt32 a) 8 ltac:(lia)) as H.
  rewrite wrap32_small by (change (2 ^ 8) with 256 in H; pow2_consts; lia).
  rewrite <- Z.land_assoc, Z.land_diag. reflexivity.
Qed.

Lemma get_set_ne (rs : Uint16Array) (k v : value) (j : Z) :
  k <> Num j -> get (set rs k v) j = get rs j.
Proof.
  intros Hk. destruct k as [n| |]; simpl; try reflexivity.
  destruct (Z.leb_spec 0 n); simpl; [|reflexivity].
  destruct (Z.leb_spec 0 j); [|reflexivity].
  rewrite list_lookup_insert_ne; [reflexivity|].
  intros E. apply Hk. f_equal. lia.
Qed.

Lemma get_set_eq (rs : Uint16Array) (j : Z) (v : value) :
  0 <= j < Z.of_nat (length rs) -> get (set rs j v) j = Num (ToUint16 v).
Proof.
  intros Hj. simpl. destruct (Z.leb_spec 0 j); [|lia].
  rewrite list_lookup_insert_eq; [reflexivity|lia].
Qed.

Lemma length_set (rs : Uint16Array) (k v : value) : length (set rs k v) = length rs.
Proof.
  destruct k as [n| |]; simpl; try reflexivity.
  destruct (0 <=? n); [apply length_insert|reflexivity].
Qed.

Lemma get_outside (a : Uint16Array) (n : Z) :
  Z.of_nat (length a) <= n -> get a n = Undefined.
Proof.
  intros H. unfold get. destruct (Z.leb_spec 0 n); [|reflexivity].
  rewrite (proj2 (lookup_ge_None a (Z.to_nat n))); [reflexivity|lia].
Qed.

Lemma set_outside (a : Uint16Array) (n : Z) (v : value) :
  Z.of_nat (length a) <= n -> set a n v = a.
Proof.
  intros H. unfold set. destruct (Z.leb_spec 0 n); [|reflexivity].
  apply list_insert_ge. lia.
Qed.

Lemma get_cell (rs : Uint16Array) (d w : Z) :
  0 <= d -> rs !! Z.to_nat d = Some w -> get rs d = Num w.
Proof.
  intros Hd Hw. unfold get. destruct (Z.leb_spec 0 d); [|lia]. rewrite Hw. reflexivity.
Qed.

Lemma length_new_Uint16Array (n : Z) : length (new_Uint16Array n) = Z.to_nat n.
Proof. apply length_replicate. Qed.

Lemma mem_get_set_ne (m : Memory) (n : Z) (v a : value) :
  a <> Num n -> mem_get (mem_set m n v) a = mem_get m a.
Proof.
  intros Ha. destruct a as [k| |]; try reflexivity.
  unfold mem_get, mem_set. cbn [cells]. apply get_set_ne. congruence.
Qed.

Lemma mem_len_mem_set (m : Memory) (k v : value) :
  length (cells (mem_set m k v)) = length (cells m).
Proof. destruct k; simpl; try reflexivity. destruct (0 <=? n); [apply length_insert|reflexivity]. Qed.

Lemma returned_inv {A : Type} (r : result A) (a : A) :
  returned r = Some a -> exists s', r = Ret a s'.
Proof. destruct r; intros [= <-]. eauto. Qed.

Lemma initial_memory_length (input : list event) :
  Z.of_nat (length (cells (memory (initial input)))) = 0xffff.
Proof. vm_compute. reflexivity. Qed.

(** ** Frame reasoning: what a computation leaves unchanged *)

Section Frame.
Context {X : Type} (f : machine -> X).

Lemma preserves_ret {A : Type} (a : A) : preserves f (ret a).
Proof. intros s. reflexivity. Qed.

Lemma preserves_spin {A : Type} : preserves f (@spin A).
Proof. intros s. reflexivity. Qed.

Lemma preserves_bind {A B : Type} (m : M A) (k : A -> M B) :
  preserves f m -> (forall a, preserves f (k a)) -> preserves f (bind m k).
Proof.
  intros Hm Hk s. unfold bind. specialize (Hm s).
  destruct (m s) as [a s'| s'| s'| s']; simpl in *; try exact Hm.
  rewrite Hk. exact Hm.
Qed.

Lemma preserves_reg (k : value) : preserves f (reg k).
Proof. intros s. reflexivity. Qed.

Lemma preserves_mem (k : value) : preserves f (mem k).
Proof. intros s. reflexivity. Qed.

End Frame.

Lemma set_reg_preserves_reg_at (j : Z) (k v : value) :
  k <> Num j -> preserves (reg_at j) (set_reg k v).
Proof. intros Hk s. unfold reg_at. simpl. apply get_set_ne, Hk. Qed.

Lemma set_reg_field_preserves (j : Z) (a v : value) :
  7 < j -> preserves (reg_at j) (set_reg (a .& 7) v).
Proof.
  intros Hj. destruct (band_7 a) as (r & -> & Hr).
  apply set_reg_preserves_reg_at. intros [= E]. lia.
Qed.

Lemma set_mem_preserves_registers (k v : value) : preserves registers (set_mem k v).
Proof. intros s. reflexivity. Qed.

Lemma stdout_write_preserves_registers (str : list Z) : preserves registers (stdout_write str).
Proof. intros s. reflexivity. Qed.

Lemma race_data_sleep_preserves_registers : preserves registers race_data_sleep.
Proof.
  intros s. unfold race_data_sleep.
  destruct (stdin s) as [|[|chunk] rest]; try reflexivity.
  destruct (ctrl_c chunk); reflexivity.
Qed.

Lemma once_data_preserves_registers : preserves registers once_data.
Proof.
  intros s. unfold once_data.
  destruct (next_data (stdin s)) as [[chunk rest]|]; [|reflexivity].
  destruct (ctrl_c chunk); reflexivity.
Qed.

Lemma race_data_sleep_preserves_memory : preserves memory race_data_sleep.
Proof.
  intros s. unfold race_data_sleep.
  destruct (stdin s) as [|[|chunk] rest]; try reflexivity.
  destruct (ctrl_c chunk); reflexivity.
Qed.

Lemma set_mem_preserves_mem_len (k v : value) : preserves mem_len (set_mem k v).
Proof. intros s. unfold mem_len. simpl. rewrite mem_len_mem_set. reflexivity. Qed.

Lemma preserves_registers_reg_at {A : Type} (j : Z) (m : M A) :
  preserves registers m -> preserves (reg_at j) m.
Proof. intros H s. unfold reg_at. rewrite H. reflexivity. Qed.

Create HintDb frame.
#[export] Hint Resolve preserves_ret preserves_spin preserves_reg preserves_mem
  set_mem_preserves_registers stdout_write_preserves_registers
  race_data_sleep_preserves_registers once_data_preserves_registers : frame.

Ltac frame_step :=
  match goal with
  | |- preserves _ (bind _ _) => apply preserves_bind; [|intros ?]
  | |- preserves _ (if ?b then _ else _) => destruct b
  | |- preserves _ (let _ := _ in _) => cbv zeta
  | |- preserves _ _ => solve [auto with frame]
  end.
Ltac frame := repeat frame_step.

Lemma vm_readMemory_preserves_registers (a : value) : preserves registers (Vm.readMemory a).
Proof. unfold Vm.readMemory, Vm.pollForKey. frame. Qed.

Lemma vm_readMemory_preserves_mem_len (a : value) : preserves mem_len (Vm.readMemory a).
Proof.
  assert (preserves mem_len race_data_sleep) as Hp.
  { intros s. unfold mem_len. rewrite race_data_sleep_preserves_memory. reflexivity. }
  pose proof set_mem_preserves_mem_len.
  unfold Vm.readMemory, Vm.pollForKey. frame.
Qed.

#[export] Hint Resolve vm_readMemory_preserves_registers : frame.
#[export] Hint Extern 2 (preserves (reg_at _) _) =>
  apply preserves_registers_reg_at; solve [auto with frame] : frame.
#[export] Hint Extern 1 (preserves (reg_at _) (set_reg (_ .& Num 7) _)) =>
  apply set_reg_field_preserves; lia : frame.
#[export] Hint Extern 1 (preserves (reg_at _) (set_reg (Num _) _)) =>
  apply set_reg_preserves_reg_at; discriminate : frame.

Lemma vm_branch_keeps_COND i : preserves (reg_at COND) (Vm.branch i).
Proof. unfold Vm.branch. frame. Qed.

Lemma vm_jump_keeps_COND i : preserves (reg_at COND) (Vm.jump i).
Proof. unfold Vm.jump. frame. Qed.

Lemma vm_jumpToSubroutine_keeps_COND i : preserves (reg_at COND) (Vm.jumpToSubroutine i).
Proof. unfold Vm.jumpToSubroutine. frame. Qed.

Lemma vm_store_preserves_registers i : preserves registers (Vm.store i).
Proof. unfold Vm.store, Vm.writeMemory. frame. Qed.

Lemma vm_storeIndirect_preserves_registers i : preserves registers (Vm.storeIndirect i).
Proof. unfold Vm.storeIndirect, Vm.writeMemory. frame. Qed.

Lemma vm_storeOffset_preserves_registers i : preserves registers (Vm.storeOffset i).
Proof. unfold Vm.storeOffset, Vm.writeMemory. frame. Qed.

Lemma vm_trapOut_preserves_registers : preserves registers Vm.trapOut.
Proof. unfold Vm.trapOut. frame. Qed.

Lemma vm_trapPuts_loop_preserves_registers fuel addr c :
  preserves registers (Vm.trapPuts_loop fuel addr c).
Proof.
  revert addr c. induction fuel as [|fuel IH]; intros addr c; simpl; frame.
Qed.

Lemma vm_trapPuts_preserves_registers : preserves registers Vm.trapPuts.
Proof.
  intros s. unfold Vm.trapPuts.
  generalize (length (cells (memory s))). intros n. revert s.
  change (preserves registers
            (addr <- reg R0;; character <- Vm.readMemory addr;;
             Vm.trapPuts_loop n addr character)).
  frame. apply vm_trapPuts_loop_preserves_registers.
Qed.

Lemma vm_trapPutsp_loop_preserves_registers fuel addr c :
  preserves registers (Vm.trapPutsp_loop fuel addr c).
Proof.
  revert addr c. induction fuel as [|fuel IH]; intros addr c; simpl; frame.
Qed.

Lemma vm_trapPutsp_preserves_registers : preserves registers Vm.trapPutsp.
Proof.
  intros s. unfold Vm.trapPutsp.
  generalize (length (cells (memory s))). intros n. revert s.
  change (preserves registers
            (addr <- reg R0;; characterPair <- Vm.readMemory addr;;
             Vm.trapPutsp_loop n addr characterPair)).
  frame. apply vm_trapPutsp_loop_preserves_registers.
Qed.

#[export] Hint Resolve vm_store_preserves_registers vm_storeIndirect_preserves_registers
  vm_storeOffset_preserves_registers vm_trapOut_preserves_registers
  vm_trapPuts_preserves_registers vm_trapPutsp_preserves_registers : frame.

(** A trap routine writes at most R0. *)
Lemma vm_trap_keeps_reg (j : Z) (i : value) :
  j <> R0 -> preserves (reg_at j) (Vm.trap i).
Proof.
  intros Hj. unfold Vm.trap, Vm.trapGetc, Vm.trapIn, Vm.getChar.
  assert (forall v, preserves (reg_at j) (set_reg R0 v)) as H0.
  { intros v. apply set_reg_preserves_reg_at. intros [= E]. auto. }
  frame; apply H0.
Qed.

Lemma vm_fetch_keeps_reg (j : Z) : j <> PC -> preserves (reg_at j) Vm.fetch.
Proof.
  intros Hj. unfold Vm.fetch.
  assert (forall v, preserves (reg_at j) (set_reg PC v)) as H0.
  { intros v. apply set_reg_preserves_reg_at. intros [= E]. auto. }
  frame.
Qed.

Lemma vm_execute_keeps_COND (op : Z) (instr : value) :
  In op (OP_RTI :: OP_RES :: keeps_flags) -> preserves (reg_at COND) (Vm.execute op instr).
Proof.
  intros Hop. simpl in Hop.
  assert (preserves (reg_at COND) (Vm.trap instr)) as Htrap
    by (apply vm_trap_keeps_reg; discriminate).
  pose proof (vm_branch_keeps_COND instr).
  pose proof (vm_jump_keeps_COND instr).
  pose proof (vm_jumpToSubroutine_keeps_COND instr).
  repeat (destruct Hop as [<-|Hop]; [unfold Vm.execute; simpl; frame|]).
  destruct Hop.
Qed.

(** ** Memory access (C1) *)

Lemma vm_readMemory_plain (a : value) (s : machine) :
  (a === MR_KBSR) = false -> Vm.readMemory a s = Ret (mem_get (memory s) a) s.
Proof. intros H. unfold Vm.readMemory. rewrite H. reflexivity. Qed.

Lemma main_readMemory_plain (a : value) (s : machine) :
  (a === MR_KBSR) = false -> Main.readMemory a s = Ret (mem_get (memory s) a) s.
Proof. intros H. unfold Main.readMemory. rewrite H. reflexivity. Qed.

Lemma main_readMemory_eq : Main.readMemory = Vm.readMemory.
Proof. reflexivity. Qed.

Lemma vm_readMemory_outside (a : Z) (s : machine) :
  MR_KBSR < mem_len s -> mem_len s <= a -> Vm.readMemory a s = Ret Undefined s.
Proof.
  intros Hk Ha. rewrite vm_readMemory_plain by (simpl; apply Z.eqb_neq; lia).
  unfold mem_get. rewrite get_outside by exact Ha. reflexivity.
Qed.

(** Inside the array, and away from the keyboard status register, a write
    followed by a read returns the written value modulo 2^16. *)
Lemma vm_write_then_read (s : machine) (a : Z) (v : value) :
  0 <= a < Z.of_nat (length (cells (memory s))) -> a <> MR_KBSR ->
  (Vm.writeMemory a v;;; Vm.readMemory a) s
  = Ret (Num (ToUint16 v)) (with_memory s (mem_set (memory s) a v)).
Proof.
  intros Ha Hk. unfold Vm.writeMemory, bind, set_mem.
  rewrite vm_readMemory_plain by (simpl; apply Z.eqb_neq, Hk).
  f_equal. cbn [memory with_memory mem_get mem_set cells]. apply get_set_eq, Ha.
Qed.

(** C1.  The claim asks that every address in x0000..xFFFF, xFFFF included,
    designates a cell.  Both interpreters allocate [new Uint16Array(0xffff)], 65535
    cells with indices 0..xFFFE, under the comment "65535 aka 2**16 memory
    locations": a write to xFFFF is dropped and a read of xFFFF yields
    [undefined], in [run] and in [main] alike.  Inside the array the claim
    holds ([vm_write_then_read]). *)
Theorem address_0xFFFF_is_not_a_cell (input : list event) (v : value) :
  length (cells (memory (initial input))) = Z.to_nat 0xffff
  /\ (Vm.writeMemory 0xFFFF v;;; Vm.readMemory 0xFFFF) (initial input)
     = Ret Undefined (initial input)
  /\ (Main.writeMemory 0xFFFF v;;; Main.readMemory 0xFFFF) (initial input)
     = Ret Undefined (initial input).
Proof.
  assert (length (cells (memory (initial input))) = Z.to_nat 0xffff) as Hlen
    by apply length_new_Uint16Array.
  assert (mem_set (memory (initial input)) 0xFFFF v = memory (initial input)) as Hset.
  { unfold mem_set. rewrite set_outside by (rewrite Hlen; lia). reflexivity. }
  assert (with_memory (initial input) (memory (initial input)) = initial input)
    as Hid by reflexivity.
  assert (mem_get (memory (initial input)) 0xFFFF = Undefined) as Hget.
  { unfold mem_get. apply get_outside. rewrite Hlen. lia. }
  split; [exact Hlen|]. split.
  - unfold Vm.writeMemory, bind, set_mem. rewrite Hset, Hid.
    rewrite vm_readMemory_plain by reflexivity. rewrite Hget. reflexivity.
  - unfold Main.writeMemory, bind, set_mem. rewrite Hset, Hid.
    rewrite main_readMemory_plain by reflexivity. rewrite Hget. reflexivity.
Qed.

(** ** Sign extension (C6) *)

Lemma width_constants (w : Z) :
  In w [5; 6; 9; 11] ->
  (1 .<< w) .- 1 = Num (Z.ones w)
  /\ Num w .- 1 = Num (w - 1)
  /\ 0xffff .<< w = Num (Z.shiftl 0xFFFF w)
  /\ 0 <= Z.shiftl 0xFFFF w < 2 ^ 28
  /\ 0 <= Z.ones w < 2 ^ 15
  /\ 1 <= w <= 15.
Proof.
  intros Hw. simpl in Hw.
  repeat (destruct Hw as [<-|Hw];
          [repeat split; try reflexivity; try lia; vm_compute; congruence|]).
  destruct Hw.
Qed.

(** The masked operand and the test of its sign bit, common to
    [signExtendSuffix] and to the callers of [signExtend]. *)
Lemma suffix_sign_bit (v w : Z) :
  0 <= v < 2 ^ 16 -> In w [5; 6; 9; 11] ->
  Num v .& Num (Z.ones w) = Num (Z.land v (Z.ones w))
  /\ truthy ((Num (Z.land v (Z.ones w)) .>> Num (w - 1)) .& 1) = Z.testbit v (w - 1).
Proof.
  intros Hv Hw. destruct (width_constants w Hw) as (_ & _ & _ & _ & Ho & Hw').
  pose proof (land_mask_range v w ltac:(lia)) as Hr.
  assert (2 ^ w <= 2 ^ 15) as Hp by (apply Z.pow_le_mono_r; lia).
  pow2_consts.
  split; [apply band_small; pow2_consts; lia|].
  rewrite sar_small by (pow2_consts; lia).
  rewrite band_small.
  - rewrite truthy_bit by lia.
    rewrite Z.land_spec, Z.testbit_ones_nonneg by lia.
    rewrite (proj2 (Z.ltb_lt (w - 1) w)) by lia. apply andb_true_r.
  - pow2_consts.
    pose proof (Z.shiftr_nonneg (Z.land v (Z.ones w)) (w - 1)) as H1.
    assert (Z.shiftr (Z.land v (Z.ones w)) (w - 1) <= Z.land v (Z.ones w)).
    { rewrite Z.shiftr_div_pow2 by lia. apply Z.div_le_upper_bound.
      - apply Z.pow_pos_nonneg; lia.
      - pose proof (Z.pow_pos_nonneg 2 (w - 1)). nia. }
    lia.
  - pow2_consts. lia.
Qed.

Lemma suffix_lor_range (v w : Z) :
  In w [5; 6; 9; 11] ->
  0 <= Z.lor (Z.land v (Z.ones w)) (Z.shiftl 0xFFFF w) < 2 ^ 31.
Proof.
  intros Hw. destruct (width_constants w Hw) as (_ & _ & _ & Hs & _ & Hw').
  pose proof (land_mask_range v w ltac:(lia)) as Hr.
  assert (2 ^ w <= 2 ^ 15) as Hp by (apply Z.pow_le_mono_r; lia).
  pose proof (Z.add_lor_land (Z.land v (Z.ones w)) (Z.shiftl 0xFFFF w)) as Hadd.
  pose proof (Z.lor_nonneg (Z.land v (Z.ones w)) (Z.shiftl 0xFFFF w)) as Hlor.
  pose proof (Z.land_nonneg (Z.land v (Z.ones w)) (Z.shiftl 0xFFFF w)) as Hland.
  pow2_consts. lia.
Qed.

Lemma vm_signExtendSuffix_eq (v w : Z) :
  0 <= v < 2 ^ 16 -> In w [5; 6; 9; 11] ->
  Vm.signExtendSuffix v w = Num (sign_extend_spec v w).
Proof.
  intros Hv Hw. unfold Vm.signExtendSuffix, sign_extend_spec.
  destruct (width_constants w Hw) as (-> & -> & -> & Hs & Ho & Hw').
  destruct (suffix_sign_bit v w Hv Hw) as [-> ->].
  destruct (Z.testbit v (w - 1)); [|reflexivity].
  pose proof (land_mask_range v w ltac:(lia)) as Hr.
  assert (2 ^ w <= 2 ^ 15) as Hp by (apply Z.pow_le_mono_r; lia).
  rewrite bor_small by (pow2_consts; lia).
  pose proof (suffix_lor_range v w Hw) as Hl.
  rewrite band_small; [reflexivity| |]; pow2_consts; lia.
Qed.

Lemma sign_extend_spec_bits (v w i : Z) :
  1 <= w <= 16 -> 0 <= i ->
  Z.testbit (sign_extend_spec v w) i
  = if i <? w then Z.testbit v i else (i <? 16) && Z.testbit v (w - 1).
Proof.
  intros Hw Hi. unfold sign_extend_spec.
  destruct (Z.testbit v (w - 1)) eqn:Hb.
  - rewrite Z.land_spec, Z.lor_spec, Z.land_spec.
    change 0xFFFF with (Z.ones 16).
    rewrite (Z.testbit_ones_nonneg w i), (Z.testbit_ones_nonneg 16 i) by lia.
    destruct (Z.ltb_spec i w) as [Hlt|Hge].
    + rewrite Z.shiftl_spec_low by lia.
      rewrite (proj2 (Z.ltb_lt i 16)) by lia.
      rewrite andb_true_r, orb_false_r, andb_true_r. reflexivity.
    + rewrite Z.shiftl_spec by lia. rewrite Z.testbit_ones_nonneg by lia.
      rewrite andb_false_r, orb_false_l.
      destruct (Z.ltb_spec i 16) as [H16|H16].
      * rewrite (proj2 (Z.ltb_lt (i - w) 16)) by lia. reflexivity.
      * rewrite andb_false_r. reflexivity.
  - rewrite Z.land_spec, Z.testbit_ones_nonneg by lia.
    destruct (i <? w); [apply andb_true_r|]. rewrite andb_false_r, andb_false_r.
    reflexivity.
Qed.

Lemma sign_extend_spec_range (v w : Z) : 0 <= w <= 16 -> 0 <= sign_extend_spec v w < 2 ^ 16.
Proof.
  intros Hw. unfold sign_extend_spec. destruct (Z.testbit v (w - 1)).
  - change 0xFFFF with (Z.ones 16). apply land_mask_range. lia.
  - pose proof (land_mask_range v w ltac:(lia)).
    assert (2 ^ w <= 2 ^ 16) by (apply Z.pow_le_mono_r; lia). lia.
Qed.

(** vm.js: for every 16-bit [v] and every width in use, [signExtendSuffix]
    returns a 16-bit word that is the low [w] bits of [v], extended with
    1-bits up to bit 15 when bit [w-1] is set. *)
Theorem vm_signExtendSuffix_spec (v w : Z) :
  0 <= v < 2 ^ 16 -> In w [5; 6; 9; 11] ->
  exists r,
    Vm.signExtendSuffix v w = Num r
    /\ 0 <= r < 2 ^ 16
    /\ (Z.testbit v (w - 1) = false -> r = Z.land v (Z.ones w))
    /\ (Z.testbit v (w - 1) = true ->
        r = Z.land (Z.lor (Z.land v (Z.ones w)) (Z.shiftl 0xFFFF w)) 0xFFFF)
    /\ (forall i, 0 <= i ->
          Z.testbit r i
          = if i <? w then Z.testbit v i else (i <? 16) && Z.testbit v (w - 1)).
Proof.
  intros Hv Hw. exists (sign_extend_spec v w).
  assert (1 <= w <= 16) as Hr.
  { simpl in Hw. repeat (destruct Hw as [<-|Hw]; [lia|]). destruct Hw. }
  split; [apply vm_signExtendSuffix_eq; assumption|].
  split; [apply sign_extend_spec_range; lia|].
  split; [|split].
  - intros Hb. unfold sign_extend_spec. rewrite Hb. reflexivity.
  - intros Hb. unfold sign_extend_spec. rewrite Hb. reflexivity.
  - intros i Hi. apply sign_extend_spec_bits; assumption.
Qed.

Lemma vm_signExtendSuffix_spec_witness :
  exists r,
    Vm.signExtendSuffix 0x1F 5 = Num r
    /\ 0 <= r < 2 ^ 16
    /\ (Z.testbit 0x1F (5 - 1) = false -> r = Z.land 0x1F (Z.ones 5))
    /\ (Z.testbit 0x1F (5 - 1) = true ->
        r = Z.land (Z.lor (Z.land 0x1F (Z.ones 5)) (Z.shiftl 0xFFFF 5)) 0xFFFF)
    /\ (forall i, 0 <= i ->
          Z.testbit r i
          = if i <? 5 then Z.testbit 0x1F i else (i <? 16) && Z.testbit 0x1F (5 - 1)).
Proof.
  refine (vm_signExtendSuffix_spec 0x1F 5 _ _).
  - lia.
  - simpl. tauto.
Defined.

(** C6.  The claim asks that sign extension return a 16-bit word.
    [signExtendSuffix] of vm.js does ([vm_signExtendSuffix_spec]);
    [signExtend] of main.js returns [num | (0xFFFF << bitCount)] without the
    final [& 0xffff] of its sibling: for the 5-bit operand x1F it yields
    x1FFFFF where the contract gives xFFFF. *)
Theorem main_signExtend_is_not_truncated :
  Main.signExtend 0x1F 5 = Num 0x1FFFFF
  /\ Vm.signExtendSuffix 0x1F 5 = Num 0xFFFF
  /\ sign_extend_spec 0x1F 5 = 0xFFFF.
Proof. repeat split; vm_compute; reflexivity. Qed.

(** Its callers mask the operand first; the result then agrees with the
    contract modulo 2^16 only. *)
Lemma main_signExtend_mod (v w : Z) :
  0 <= v < 2 ^ 16 -> In w [5; 6; 9; 11] ->
  exists r, Main.signExtend (Num v .& Num (Z.ones w)) w = Num r
            /\ r mod 2 ^ 16 = sign_extend_spec v w.
Proof.
  intros Hv Hw. unfold Main.signExtend, sign_extend_spec.
  destruct (width_constants w Hw) as (_ & -> & -> & Hs & Ho & Hw').
  destruct (suffix_sign_bit v w Hv Hw) as [-> ->].
  pose proof (land_mask_range v w ltac:(lia)) as Hr.
  assert (2 ^ w <= 2 ^ 15) as Hp by (apply Z.pow_le_mono_r; lia).
  destruct (Z.testbit v (w - 1)).
  - rewrite bor_small by (pow2_consts; lia). eexists. split; [reflexivity|].
    rewrite <- (Z.land_ones _ 16) by lia. reflexivity.
  - eexists. split; [reflexivity|]. apply Z.mod_small. pow2_consts. lia.
Qed.

(** ** The keyboard registers (C5, C10) *)

Lemma first_byte_range (chunk : list byte) (c : Z) :
  first_byte chunk = Num c -> 0 <= c < 256.
Proof.
  destruct chunk as [|b chunk]; [discriminate|]. intros [= <-].
  pose proof (Byte.to_N_bounded b). lia.
Qed.

Lemma pollForKey_inv (s s1 : machine) (k : value) :
  Vm.pollForKey s = Ret k s1 ->
  s1 = with_stdin s (tail (stdin s))
  /\ (k = Undefined \/ exists c, k = Num c /\ 0 <= c < 256 /\ c <> 3).
Proof.
  unfold Vm.pollForKey, race_data_sleep. destruct s as [m r i o]. simpl.
  destruct i as [|[|chunk] rest].
  - intros [= <- <-]. auto.
  - intros [= <- <-]. auto.
  - destruct (ctrl_c chunk) eqn:Hc; [discriminate|]. intros [= <- <-].
    split; [reflexivity|]. unfold ctrl_c in Hc.
    destruct (first_byte chunk) as [c| |] eqn:Hb; auto; [|destruct chunk; discriminate].
    right. exists c. split; [reflexivity|]. split; [eapply first_byte_range, Hb|].
    simpl in Hc. apply Z.eqb_neq in Hc. exact Hc.
Qed.

Lemma vm_readMemory_KBSR (s s1 : machine) (k : value) :
  Z.of_nat (length (cells (memory s))) = 0xffff ->
  Vm.pollForKey s = Ret k s1 ->
  Vm.readMemory MR_KBSR s
  = Ret (get (cells_after_poll k (cells (memory s))) MR_KBSR)
        (after_poll s (cells_after_poll k (cells (memory s)))).
Proof.
  intros Hlen Hp. destruct (pollForKey_inv _ _ _ Hp) as [-> _].
  unfold Vm.readMemory, bind. simpl (Num MR_KBSR === Num MR_KBSR). cbv beta iota.
  rewrite Hp. unfold cells_after_poll. destruct (truthy k); reflexivity.
Qed.

Lemma vm_readMemory_KBSR_no_return (s : machine) :
  returned (Vm.pollForKey s) = None -> returned (Vm.readMemory MR_KBSR s) = None.
Proof.
  unfold Vm.readMemory, bind. simpl (Num MR_KBSR === Num MR_KBSR). cbv beta iota.
  destruct (Vm.pollForKey s); intros H; try reflexivity. discriminate H.
Qed.

Lemma cells_after_key (cs : Uint16Array) (c : Z) :
  Z.of_nat (length cs) = 0xffff -> 0 <= c < 256 -> c <> 0 ->
  get (cells_after_poll c cs) MR_KBSR = Num 0x8000
  /\ get (cells_after_poll c cs) MR_KBDR = Num c
  /\ Z.land c 0xFF = c
  /\ (forall a : Z, a <> MR_KBSR -> a <> MR_KBDR -> get (cells_after_poll c cs) a = get cs a).
Proof.
  intros Hlen Hc Hc0. unfold cells_after_poll, truthy.
  rewrite (proj2 (Z.eqb_neq c 0) Hc0). cbn [negb].
  split; [|split; [|split]].
  - rewrite get_set_ne by discriminate. apply get_set_eq. unfold MR_KBSR. lia.
  - rewrite get_set_eq by (rewrite length_set; unfold MR_KBDR; lia).
    simpl. rewrite Z.mod_small by lia. reflexivity.
  - change 0xFF with (Z.ones 8). rewrite Z.land_ones by lia.
    apply Z.mod_small. change (2 ^ 8) with 256. lia.
  - intros a Ha1 Ha2. rewrite !get_set_ne by congruence. reflexivity.
Qed.

Lemma cells_after_no_key (cs : Uint16Array) (k : value) :
  Z.of_nat (length cs) = 0xffff -> truthy k = false ->
  get (cells_after_poll k cs) MR_KBSR = Num 0
  /\ (forall a : Z, a <> MR_KBSR -> get (cells_after_poll k cs) a = get cs a).
Proof.
  intros Hlen Hk. unfold cells_after_poll. rewrite Hk. split.
  - apply get_set_eq. unfold MR_KBSR. lia.
  - intros a Ha. rewrite get_set_ne by congruence. reflexivity.
Qed.

(** C5, as amended.  A read of KBSR polls the keyboard first.  If the poll
    yields a non-zero byte [c], then afterwards mem[KBSR] = x8000 and
    mem[KBDR] = [c] (so its low byte is [c]); if the poll yields no key, then
    afterwards mem[KBSR] = 0 and mem[KBDR] is unchanged.  In both cases the
    read returns mem[KBSR], and no other cell and no register changes; the
    console loses the event the poll consumed.  [readMemory] of main.js is the
    same function. *)
Theorem read_KBSR_polls_keyboard (s s1 : machine) (k : value) :
  Z.of_nat (length (cells (memory s))) = 0xffff ->
  Vm.pollForKey s = Ret k s1 -> k <> Num 0 ->
  exists cells',
    Vm.readMemory MR_KBSR s = Ret (get cells' MR_KBSR) (after_poll s cells')
    /\ Main.readMemory MR_KBSR s = Vm.readMemory MR_KBSR s
    /\ match k with
       | Num c =>
           get cells' MR_KBSR = Num 0x8000
           /\ get cells' MR_KBDR = Num c /\ Z.land c 0xFF = c
           /\ (forall a : Z, a <> MR_KBSR -> a <> MR_KBDR ->
                  get cells' a = get (cells (memory s)) a)
       | _ =>
           get cells' MR_KBSR = Num 0
           /\ (forall a : Z, a <> MR_KBSR -> get cells' a = get (cells (memory s)) a)
       end.
Proof.
  intros Hlen Hp Hk. exists (cells_after_poll k (cells (memory s))).
  split; [apply (vm_readMemory_KBSR s s1 k Hlen Hp)|]. split; [reflexivity|].
  destruct (pollForKey_inv _ _ _ Hp) as [_ [->|(c & -> & Hc & _)]].
  - apply cells_after_no_key; [exact Hlen|reflexivity].
  - apply cells_after_key; [exact Hlen|exact Hc|congruence].
Qed.

Lemma read_KBSR_polls_keyboard_witness :
  (exists cells',
     Vm.readMemory MR_KBSR (initial [Data [x41]])
     = Ret (get cells' MR_KBSR) (after_poll (initial [Data [x41]]) cells')
     /\ Main.readMemory MR_KBSR (initial [Data [x41]])
        = Vm.readMemory MR_KBSR (initial [Data [x41]])
     /\ get cells' MR_KBSR = Num 0x8000
     /\ get cells' MR_KBDR = Num 0x41 /\ Z.land 0x41 0xFF = 0x41
     /\ (forall a : Z, a <> MR_KBSR -> a <> MR_KBDR ->
            get cells' a = get (cells (memory (initial [Data [x41]]))) a))
  /\ (exists cells',
        Vm.readMemory MR_KBSR (initial [Timeout])
        = Ret (get cells' MR_KBSR) (after_poll (initial [Timeout]) cells')
        /\ Main.readMemory MR_KBSR (initial [Timeout])
           = Vm.readMemory MR_KBSR (initial [Timeout])
        /\ get cells' MR_KBSR = Num 0
        /\ (forall a : Z, a <> MR_KBSR ->
               get cells' a = get (cells (memory (initial [Timeout]))) a)).
Proof.
  split.
  - refine (read_KBSR_polls_keyboard (initial [Data [x41]]) (initial []) 0x41 _ _ _).
    + vm_compute. reflexivity.
    + reflexivity.
    + discriminate.
  - refine (read_KBSR_polls_keyboard (initial [Timeout]) (initial []) Undefined _ _ _).
    + vm_compute. reflexivity.
    + reflexivity.
    + discriminate.
Defined.

Lemma nul_poll_evaluation :
  returned (Vm.pollForKey (initial [Data [x00]])) = Some (Num 0)
  /\ returned (Vm.readMemory MR_KBSR (initial [Data [x00]])) = Some (Num 0)
  /\ get (cells (memory (state_of (Vm.readMemory MR_KBSR (initial [Data [x00]])))))
         MR_KBSR = Num 0.
Proof. repeat split; vm_compute; reflexivity. Qed.

(** C5 as stated fails for the byte 0: the poll yields it, yet KBSR is left
    at 0. *)
Lemma nul_byte_leaves_KBSR_clear :
  ~ (forall s c s1,
       Z.of_nat (length (cells (memory s))) = 0xffff ->
       Vm.pollForKey s = Ret (Num c) s1 ->
       get (cells (memory (state_of (Vm.readMemory MR_KBSR s)))) MR_KBSR = Num 0x8000).
Proof.
  intros H.
  specialize (H (initial [Data [x00]]) 0 (initial []) (initial_memory_length _) eq_refl).
  destruct nul_poll_evaluation as (_ & _ & E).
  rewrite E in H. discriminate H.
Qed.

(** C10.  With a chunk that starts with the byte 0 pending, the poll obtains
    that byte, and the read of KBSR treats it as no key: it returns 0, sets
    mem[KBSR] to 0 whatever it held before, and leaves mem[KBDR] and every
    other cell, the registers and the output unchanged.  In general a read
    of KBSR whose poll returns does return, with 0 or x8000; it returns
    x8000 only when the poll obtained a non-zero byte, and then that byte
    is in mem[KBDR], whose low byte is therefore not zero: a NUL keystroke
    never shows in KBSR/KBDR. *)
Theorem nul_key_is_never_surfaced (s : machine) (chunk : list byte) (rest : list event) :
  Z.of_nat (length (cells (memory s))) = 0xffff ->
  stdin s = Data (x00 :: chunk) :: rest ->
  let cells' := set (cells (memory s)) MR_KBSR 0 in
  Vm.pollForKey s = Ret (Num 0) (with_stdin s rest)
  /\ Vm.readMemory MR_KBSR s = Ret (Num 0) (after_poll s cells')
  /\ get cells' MR_KBSR = Num 0
  /\ get cells' MR_KBDR = get (cells (memory s)) MR_KBDR
  /\ (forall a : Z, a <> MR_KBSR -> get cells' a = get (cells (memory s)) a)
  /\ (forall (t t1 : machine) (k : value),
        Z.of_nat (length (cells (memory t))) = 0xffff ->
        Vm.pollForKey t = Ret k t1 ->
        exists v,
          Vm.readMemory MR_KBSR t
          = Ret v (after_poll t (cells_after_poll k (cells (memory t))))
          /\ (v = Num 0 \/ v = Num 0x8000)
          /\ (v = Num 0x8000 ->
              exists d, k = Num d /\ d <> 0
                        /\ get (cells_after_poll k (cells (memory t))) MR_KBDR = Num d
                        /\ Z.land d 0xFF <> 0)).
Proof.
  intros Hlen Hin cells'.
  assert (Vm.pollForKey s = Ret (Num 0) (with_stdin s rest)) as Hp.
  { unfold Vm.pollForKey, race_data_sleep. rewrite Hin. reflexivity. }
  assert (get cells' MR_KBSR = Num 0) as Hk
    by (apply (get_set_eq (cells (memory s)) MR_KBSR 0); unfold MR_KBSR; lia).
  split; [exact Hp|]. split; [|split; [exact Hk|split; [|split]]].
  - rewrite (vm_readMemory_KBSR s _ (Num 0) Hlen Hp).
    change (cells_after_poll (Num 0) (cells (memory s))) with cells'.
    rewrite Hk. reflexivity.
  - apply get_set_ne. discriminate.
  - intros a Ha. apply get_set_ne. congruence.
  - intros t t1 k Hlt Hpt. eexists. split; [exact (vm_readMemory_KBSR t t1 k Hlt Hpt)|].
    destruct (truthy k) eqn:Hk'.
    + destruct (pollForKey_inv _ _ _ Hpt) as [_ [->|(c & -> & Hc & _)]];
        [discriminate Hk'|].
      assert (c <> 0) as Hc0 by (intros ->; discriminate Hk').
      destruct (cells_after_key (cells (memory t)) c Hlt Hc Hc0) as (H1 & H2 & H3 & _).
      split; [right; exact H1|]. intros _. exists c.
      split; [reflexivity|]. split; [exact Hc0|]. split; [exact H2|].
      rewrite H3. exact Hc0.
    + destruct (cells_after_no_key (cells (memory t)) k Hlt Hk') as [H1 _].
      split; [left; exact H1|]. intros E. rewrite H1 in E. discriminate E.
Qed.

Lemma nul_key_is_never_surfaced_witness :
  get (cells (memory key_then_nul)) MR_KBSR = Num 0x8000
  /\ (let cells' := set (cells (memory key_then_nul)) MR_KBSR 0 in
      Vm.pollForKey key_then_nul = Ret (Num 0) (with_stdin key_then_nul [])
      /\ Vm.readMemory MR_KBSR key_then_nul = Ret (Num 0) (after_poll key_then_nul cells')
      /\ get cells' MR_KBSR = Num 0
      /\ get cells' MR_KBDR = get (cells (memory key_then_nul)) MR_KBDR
      /\ (forall a : Z, a <> MR_KBSR ->
             get cells' a = get (cells (memory key_then_nul)) a)
      /\ (forall (t t1 : machine) (k : value),
             Z.of_nat (length (cells (memory t))) = 0xffff ->
             Vm.pollForKey t = Ret k t1 ->
             exists v,
               Vm.readMemory MR_KBSR t
               = Ret v (after_poll t (cells_after_poll k (cells (memory t))))
               /\ (v = Num 0 \/ v = Num 0x8000)
               /\ (v = Num 0x8000 ->
                   exists d, k = Num d /\ d <> 0
                             /\ get (cells_after_poll k (cells (memory t))) MR_KBDR = Num d
                             /\ Z.land d 0xFF <> 0))).
Proof.
  split.
  - vm_compute. reflexivity.
  - refine (nul_key_is_never_surfaced key_then_nul [x42] [] _ _).
    + vm_compute. reflexivity.
    + vm_compute. reflexivity.
Defined.

Lemma key_then_nul_evaluation :
  get (cells (memory key_then_nul)) MR_KBSR = Num 0x8000
  /\ get (cells (memory key_then_nul)) MR_KBDR = Num 0x41
  /\ stdin key_then_nul = [Data [x00; x42]].
Proof. repeat split; vm_compute; reflexivity. Qed.

(** ** Condition flags (C2, C9) *)

Lemma flag_of_one_hot (w : Z) : In (flag_of w) [FL_POS; FL_ZRO; FL_NEG].
Proof.
  unfold flag_of. destruct (w =? 0); [simpl; auto|].
  destruct (Z.testbit w 15); simpl; auto.
Qed.

Lemma bit15_of_word (w : Z) :
  0 <= w < 2 ^ 16 -> (Z.shiftr w 15 =? 1) = Z.testbit w 15.
Proof.
  intros Hw. rewrite <- (Z.add_0_l 15) at 2. rewrite <- Z.shiftr_spec by lia.
  rewrite Z.bit0_odd. rewrite Z.shiftr_div_pow2 by lia.
  change (2 ^ 15) with 32768. change (2 ^ 16) with 65536 in Hw.
  assert (w / 32768 = 0 \/ w / 32768 = 1) as [-> | ->]
    by (Z.div_mod_to_equations; lia); reflexivity.
Qed.

Lemma vm_updateCondFlag_spec (s : machine) (d w : Z) :
  0 <= d -> registers s !! Z.to_nat d = Some w -> 0 <= w < 2 ^ 16 ->
  Vm.updateCondFlag d s
  = Ret tt (with_registers s (set (registers s) COND (flag_of w))).
Proof.
  intros Hd Hw Hr. unfold Vm.updateCondFlag, bind, reg.
  rewrite (get_cell _ d w Hd Hw). unfold flag_of. simpl (Num w === Num 0).
  destruct (w =? 0); [reflexivity|].
  rewrite sar_small by (pow2_consts; lia).
  simpl (Num _ === Num 1). rewrite bit15_of_word by exact Hr.
  destruct (Z.testbit w 15); reflexivity.
Qed.

(** main.js: the negative branch tests [register[register]], which is
    [undefined]; the flag is Z for a zero result and P for every other. *)
Lemma main_updateCondFlag_spec (s : machine) (d : value) :
  Main.updateCondFlag d s
  = Ret tt (with_registers s
              (set (registers s) COND
                   (if get (registers s) d === 0 then FL_ZRO else FL_POS))).
Proof.
  unfold Main.updateCondFlag, bind, reg.
  destruct (get (registers s) d === 0); reflexivity.
Qed.

(** C2.  The claim asks for N whenever bit 15 of the written result is set.
    [updateCondFlag] of vm.js tests [registers[register] >> 15]; the one of
    main.js tests [register[register] >> 15], an index into the number
    itself, which is [undefined]: N is never chosen.  ADD R0, R0, #-1 on the
    zeroed registers writes xFFFF and leaves COND = P in main.js, COND = N in
    vm.js. *)
Theorem main_updateCondFlag_never_sets_N :
  registers (state_of (Main.add 0x103F (initial [])))
  = [0xFFFF; 0; 0; 0; 0; 0; 0; 0; 0; FL_POS]
  /\ registers (state_of (Vm.add 0x103F (initial [])))
     = [0xFFFF; 0; 0; 0; 0; 0; 0; 0; 0; FL_NEG]
  /\ flag_of 0xFFFF = FL_NEG.
Proof. repeat split; vm_compute; reflexivity. Qed.

Lemma ensures_bind {A B : Type} (P R Q : machine -> Prop) (m : M A) (k : A -> M B) :
  ensures P R m -> (forall a, ensures R Q (k a)) -> ensures P Q (bind m k).
Proof.
  intros Hm Hk s b s' HP. unfold bind.
  destruct (m s) as [a s1|s1|s1|s1] eqn:E; try discriminate.
  intros Hr. exact (Hk a s1 b s' (Hm s a s1 HP E) Hr).
Qed.

Lemma ensures_ret {A : Type} (P : machine -> Prop) (a : A) : ensures P P (ret a).
Proof. intros s b s' HP [= _ <-]. exact HP. Qed.

Lemma ensures_preserved {A : Type} (m : M A) :
  preserves registers m -> ensures regs_ok regs_ok m.
Proof.
  intros Hm s a s' HP E. specialize (Hm s). rewrite E in Hm. simpl in Hm.
  unfold regs_ok. rewrite Hm. exact HP.
Qed.

Lemma ensures_set_reg (d : Z) (v : value) :
  0 <= d <= 7 -> ensures regs_ok (written d) (set_reg d v).
Proof.
  intros Hd s a s' HP [= _ <-]. unfold written, regs_ok in *.
  cbn [registers with_registers]. destruct (Z.leb_spec 0 d); [|lia].
  rewrite length_insert. split; [exact HP|].
  exists (ToUint16 v). split.
  - apply list_lookup_insert_eq. lia.
  - destruct v; simpl; try (pow2_consts; lia). apply Z.mod_pos_bound. lia.
Qed.

Lemma ensures_updateCondFlag (d : Z) :
  0 <= d <= 7 -> ensures (written d) (flags_ok d) (Vm.updateCondFlag d).
Proof.
  intros Hd s a s' (Hlen & w & Hw & Hr) E.
  rewrite (vm_updateCondFlag_spec s d w ltac:(lia) Hw Hr) in E.
  assert (s' = with_registers s (set (registers s) COND (flag_of w))) as ->
    by congruence.
  exists w. unfold reg_at. cbn [registers with_registers]. split.
  - unfold set. change (0 <=? COND) with true. cbv iota.
    rewrite list_lookup_insert_ne; [exact Hw|]. unfold COND. lia.
  - rewrite get_set_eq by (unfold regs_ok in Hlen; rewrite Hlen; unfold COND; lia).
    unfold flag_of. destruct (w =? 0); [reflexivity|].
    destruct (Z.testbit w 15); reflexivity.
Qed.

Ltac ens_step :=
  match goal with
  | |- ensures _ _ (bind _ _) => eapply ensures_bind; [|intros ?]
  | |- ensures _ _ (if ?b then _ else _) => destruct b
  | |- ensures _ _ (let _ := _ in _) => cbv zeta
  | |- ensures _ _ (set_reg (Num _) _) => apply ensures_set_reg; assumption
  | |- ensures _ _ (Vm.updateCondFlag _) => apply ensures_updateCondFlag; assumption
  | |- ensures _ _ _ => apply ensures_preserved; solve [auto with frame]
  end.
Ltac ens := repeat ens_step.

(** vm.js: after ADD, AND, NOT, LD, LDI, LDR or LEA has returned, COND holds
    the flag of the word now in the destination register, one of P, Z, N. *)
Theorem vm_flag_instructions_set_COND (instr : value) (op : Z) :
  instr .>> 12 = Num op ->
  In op [OP_ADD; OP_AND; OP_NOT; OP_LD; OP_LDI; OP_LDR; OP_LEA] ->
  exists dr,
    (instr .>> 9) .& 7 = Num dr /\ 0 <= dr <= 7
    /\ forall s b s',
         length (registers s) = 10%nat ->
         Vm.execute (instr .>> 12) instr s = Ret b s' ->
         exists w, registers s' !! Z.to_nat dr = Some w
                   /\ reg_at COND s' = Num (flag_of w)
                   /\ In (flag_of w) [FL_POS; FL_ZRO; FL_NEG].
Proof.
  intros Hop Hin. rewrite Hop. destruct (band_7 (instr .>> 9)) as (dr & Hdr & Hr).
  exists dr. split; [exact Hdr|]. split; [exact Hr|].
  assert (ensures regs_ok (flags_ok dr) (Vm.execute op instr)) as He.
  { simpl in Hin.
    repeat (destruct Hin as [<-|Hin];
            [unfold Vm.execute; simpl;
             unfold Vm.add, Vm.and, Vm.not, Vm.load, Vm.loadIndirect,
               Vm.loadWithOffset, Vm.loadEffectiveAddress;
             rewrite Hdr; ens; apply ensures_ret|]).
    destruct Hin. }
  intros s b s' Hlen Hex. destruct (He s b s' Hlen Hex) as (w & Hw & Hc).
  exists w. split; [exact Hw|]. split; [exact Hc|]. apply flag_of_one_hot.
Qed.

Lemma vm_flag_instructions_set_COND_witness :
  exists dr,
    (Num 0x103F .>> 9) .& 7 = Num dr /\ 0 <= dr <= 7
    /\ forall s b s',
         length (registers s) = 10%nat ->
         Vm.execute (Num 0x103F .>> 12) 0x103F s = Ret b s' ->
         exists w, registers s' !! Z.to_nat dr = Some w
                   /\ reg_at COND s' = Num (flag_of w)
                   /\ In (flag_of w) [FL_POS; FL_ZRO; FL_NEG].
Proof.
  refine (vm_flag_instructions_set_COND 0x103F OP_ADD _ _).
  - reflexivity.
  - simpl. tauto.
Defined.

(** Every other opcode leaves COND alone: [vm_execute_keeps_COND] covers BR,
    JMP, JSR, ST, STI, STR, TRAP and the two unused opcodes RTI and RES. *)

(** C9.  For every instruction word whose opcode is BR, JMP, JSR, ST, STI,
    STR or TRAP (any trap vector), executing it leaves COND unchanged,
    whatever the outcome: both the handler run on any state and the whole
    loop iteration that fetched the word. *)
Theorem vm_step_keeps_COND (instr : value) (op : Z) (s : machine) :
  instr .>> 12 = Num op -> In op keeps_flags ->
  returned (Vm.fetch s) = Some (instr .>> 12, instr) ->
  (forall t, reg_at COND (state_of (Vm.execute (instr .>> 12) instr t)) = reg_at COND t)
  /\ reg_at COND (state_of (Vm.step s)) = reg_at COND s.
Proof.
  intros Hop Hin Hf. rewrite Hop in *.
  assert (preserves (reg_at COND) (Vm.execute op instr)) as Hex
    by (apply vm_execute_keeps_COND; right; right; exact Hin).
  split; [exact Hex|].
  destruct (returned_inv _ _ Hf) as [s1 Hs1].
  unfold Vm.step, bind. rewrite Hs1. cbn [fst snd].
  rewrite Hex. pose proof (vm_fetch_keeps_reg COND ltac:(discriminate) s) as Hk.
  rewrite Hs1 in Hk. exact Hk.
Qed.

Lemma vm_step_keeps_COND_witness :
  (forall t, reg_at COND (state_of (Vm.execute (Num 0xF025 .>> 12) 0xF025 t))
             = reg_at COND t)
  /\ reg_at COND (state_of (Vm.step trap_halt_machine)) = reg_at COND trap_halt_machine.
Proof.
  refine (vm_step_keeps_COND 0xF025 OP_TRAP trap_halt_machine _ _ _).
  - reflexivity.
  - unfold keeps_flags. simpl. tauto.
  - vm_compute. reflexivity.
Defined.

(** ** TRAP (C4, C7) *)

Lemma trap_halt_machine_loaded :
  load_image trap_halt_image (initial []) = Some trap_halt_machine.
Proof. reflexivity. Qed.

(** C4, as amended.  For every instruction word with opcode bits 1111,
    execution is the trap dispatch on bits 7..0 and nothing else: R7 is not
    written (no return address is saved) and the trap routine leaves PC at
    the already-advanced value. *)
Theorem vm_trap_leaves_R7 (instr : value) (s : machine) :
  instr .>> 12 = Num OP_TRAP ->
  returned (Vm.fetch s) = Some (instr .>> 12, instr) ->
  Vm.execute (instr .>> 12) instr = Vm.trap instr
  /\ Vm.trap instr = Vm.trap (instr .& 0xFF)
  /\ (forall t, reg_at R7 (state_of (Vm.trap instr t)) = reg_at R7 t
                /\ reg_at PC (state_of (Vm.trap instr t)) = reg_at PC t)
  /\ reg_at R7 (state_of (Vm.step s)) = reg_at R7 s
  /\ reg_at PC (state_of (Vm.step s)) = reg_at PC (state_of (Vm.fetch s)).
Proof.
  intros Hop Hf. rewrite Hop in *.
  assert (Vm.execute OP_TRAP instr = Vm.trap instr) as Hex by reflexivity.
  assert (forall j, j <> R0 -> forall t, reg_at j (state_of (Vm.trap instr t)) = reg_at j t)
    as Hkeep by (intros j Hj; apply vm_trap_keeps_reg, Hj).
  destruct (returned_inv _ _ Hf) as [s1 Hs1].
  split; [exact Hex|]. split; [|split; [|split]].
  - unfold Vm.trap. rewrite band_FF_idem. reflexivity.
  - intros t. split; apply Hkeep; discriminate.
  - unfold Vm.step, bind. rewrite Hs1. cbn [fst snd].
    rewrite Hex, Hkeep by discriminate.
    pose proof (vm_fetch_keeps_reg R7 ltac:(discriminate) s) as Hk.
    rewrite Hs1 in Hk. exact Hk.
  - unfold Vm.step, bind. rewrite Hs1. cbn [fst snd state_of].
    rewrite Hex, Hkeep by discriminate. reflexivity.
Qed.

Lemma vm_trap_leaves_R7_witness :
  Vm.execute (Num 0xF025 .>> 12) 0xF025 = Vm.trap 0xF025
  /\ Vm.trap 0xF025 = Vm.trap (Num 0xF025 .& 0xFF)
  /\ (forall t, reg_at R7 (state_of (Vm.trap 0xF025 t)) = reg_at R7 t
                /\ reg_at PC (state_of (Vm.trap 0xF025 t)) = reg_at PC t)
  /\ reg_at R7 (state_of (Vm.step trap_halt_machine)) = reg_at R7 trap_halt_machine
  /\ reg_at PC (state_of (Vm.step trap_halt_machine))
     = reg_at PC (state_of (Vm.fetch trap_halt_machine)).
Proof.
  refine (vm_trap_leaves_R7 0xF025 trap_halt_machine _ _).
  - reflexivity.
  - vm_compute. reflexivity.
Defined.

Lemma trap_halt_evaluation :
  (fun s => (reg_at PC s, reg_at PC (state_of (Vm.fetch s)),
             reg_at R7 (state_of (Vm.step s))))
    <$> load_image trap_halt_image (initial [])
  = Some (Num 0x3000, Num 0x3001, Num 0).
Proof. vm_compute. reflexivity. Qed.

(** C4 as stated fails on TRAP HALT at x3000: the advanced PC is x3001 and
    R7 is still 0 after the step. *)
Lemma trap_halt_does_not_write_R7 :
  ~ (forall s, load_image trap_halt_image (initial []) = Some s ->
               reg_at R7 (state_of (Vm.step s)) = reg_at PC (state_of (Vm.fetch s))).
Proof.
  intros H. pose proof trap_halt_evaluation as E.
  destruct (load_image trap_halt_image (initial [])) as [s|]; [|discriminate E].
  specialize (H s eq_refl). simpl in E. injection E as E0 E1 E2. congruence.
Qed.

(** C7, as amended.  In vm.js, TRAP x21 writes exactly one string of one
    UTF-16 code unit to the console, whose code is the whole 16-bit value of
    R0 (the low 8 bits of R0 exactly when R0 < x100); the outcome does not
    depend on memory, and registers, memory and console input are unchanged. *)
Theorem vm_trap_OUT_writes_R0 (s : machine) (r0 : Z) (instr : value) :
  registers s !! 0%nat = Some r0 -> 0 <= r0 < 2 ^ 16 ->
  instr .& 0xFF = Num TRAP_OUT ->
  Vm.trapOut s = Ret tt (with_stdout s (stdout s ++ [[r0]]))
  /\ Vm.trap instr s = Ret true (with_stdout s (stdout s ++ [[r0]]))
  /\ (forall m, Vm.trapOut (with_memory s m)
                = Ret tt (with_memory (with_stdout s (stdout s ++ [[r0]])) m))
  /\ (Z.land r0 0xFF = r0 <-> r0 < 2 ^ 8).
Proof.
  intros Hr Hb Hi.
  assert (forall t, registers t = registers s ->
                    Vm.trapOut t = Ret tt (with_stdout t (stdout t ++ [[r0]]))) as Hout.
  { intros t Ht. unfold Vm.trapOut, bind, reg, stdout_write, fromCharCode, get.
    rewrite Ht. change (Z.to_nat R0) with 0%nat. change (0 <=? R0) with true.
    cbv iota. rewrite Hr. unfold ToUint16. rewrite Z.mod_small by exact Hb.
    reflexivity. }
  split; [apply Hout; reflexivity|]. split; [|split].
  - unfold Vm.trap. rewrite Hi. simpl. unfold bind.
    rewrite Hout by reflexivity. reflexivity.
  - intros m. rewrite Hout by reflexivity. reflexivity.
  - change 0xFF with (Z.ones 8). rewrite Z.land_ones by lia. split.
    + intros E. rewrite <- E. apply Z.mod_pos_bound. lia.
    + intros E. apply Z.mod_small. lia.
Qed.

Lemma vm_trap_OUT_writes_R0_witness :
  Vm.trapOut r0_is_0x141 = Ret tt (with_stdout r0_is_0x141 (stdout r0_is_0x141 ++ [[0x141]]))
  /\ Vm.trap 0xF021 r0_is_0x141
     = Ret true (with_stdout r0_is_0x141 (stdout r0_is_0x141 ++ [[0x141]]))
  /\ (forall m, Vm.trapOut (with_memory r0_is_0x141 m)
                = Ret tt (with_memory (with_stdout r0_is_0x141
                                         (stdout r0_is_0x141 ++ [[0x141]])) m))
  /\ (Z.land 0x141 0xFF = 0x141 <-> 0x141 < 2 ^ 8).
Proof.
  refine (vm_trap_OUT_writes_R0 r0_is_0x141 0x141 0xF021 _ _ _).
  - reflexivity.
  - lia.
  - reflexivity.
Defined.

Lemma out_image_evaluation :
  option_map (option_map (fun r => stdout (state_of r))) (Vm.run out_image [] 4)
  = Some (Some [[0x141]])
  /\ stdout (state_of (Vm.trapOut r0_is_0x141)) = [[0x141]]
  /\ stdout r0_is_0x141 = []
  /\ Z.land 0x141 0xFF = 0x41.
Proof. repeat split; vm_compute; reflexivity. Qed.

(** C7 as stated fails for R0 = x0141: the character written has code x141,
    not x41. *)
Lemma trap_OUT_does_not_mask_R0 :
  ~ (forall s r0, registers s !! 0%nat = Some r0 ->
                  stdout (state_of (Vm.trapOut s)) = stdout s ++ [[Z.land r0 0xFF]]).
Proof.
  intros H. specialize (H r0_is_0x141 0x141 eq_refl).
  destruct out_image_evaluation as (_ & E1 & E2 & E3).
  rewrite E1, E2, E3 in H. discriminate H.
Qed.

Lemma main_trapOut_reads_memory :
  stdout (state_of (Main.trapOut r0_is_KBSR)) = [[0x8000]]
  /\ stdin (state_of (Main.trapOut r0_is_KBSR)) = []
  /\ get (cells (memory (state_of (Main.trapOut r0_is_KBSR)))) MR_KBDR = Num 0x41
  /\ stdout (state_of (Vm.trapOut r0_is_KBSR)) = [[MR_KBSR]]
  /\ stdin (state_of (Vm.trapOut r0_is_KBSR)) = [Data [x41]].
Proof. repeat split; vm_compute; reflexivity. Qed.

(** ** The loader and the loop start (C3, C8) *)

Lemma list_pair_ind {A : Type} (P : list A -> Prop) :
  P [] -> (forall a, P [a]) -> (forall a b l, P l -> P (a :: b :: l)) ->
  forall l, P l.
Proof.
  intros H0 H1 H2 l.
  assert (P l /\ forall a, P (a :: l)) as [H _]; [|exact H].
  induction l as [|b l [IH1 IH2]]; split; auto.
Qed.

Lemma load_words_total (bytes : list byte) (memLocation : Z) (m : Memory) :
  Nat.even (length bytes) = true -> is_Some (load_words bytes memLocation m).
Proof.
  revert memLocation m. induction bytes as [|a|a b l IH] using list_pair_ind;
    intros memLocation m Hev.
  - simpl. eauto.
  - discriminate Hev.
  - simpl. apply IH. exact Hev.
Qed.

(** An image with a trailing odd byte makes [readUInt16BE] throw. *)
Lemma load_words_odd (bytes : list byte) (memLocation : Z) (m : Memory) :
  Nat.even (length bytes) = false -> load_words bytes memLocation m = None.
Proof.
  revert memLocation m. induction bytes as [|a|a b l IH] using list_pair_ind;
    intros memLocation m Hev.
  - discriminate Hev.
  - reflexivity.
  - simpl. apply IH. exact Hev.
Qed.

Lemma uint16BE_range (hi lo : byte) : 0 <= uint16BE hi lo < 2 ^ 16.
Proof.
  unfold uint16BE. pose proof (Byte.to_N_bounded hi). pose proof (Byte.to_N_bounded lo).
  change (2 ^ 8) with 256. change (2 ^ 16) with 65536. lia.
Qed.

Lemma load_words_spec (bytes : list byte) (loc : Z) (m : Memory) :
  0 <= loc -> Nat.even (length bytes) = true ->
  exists m',
    load_words bytes loc m = Some m'
    /\ length (cells m') = length (cells m)
    /\ (forall (i : nat) (hi lo : byte),
          bytes !! (2 * i)%nat = Some hi -> bytes !! (2 * i + 1)%nat = Some lo ->
          loc + Z.of_nat i < Z.of_nat (length (cells m)) ->
          mem_get m' (loc + Z.of_nat i) = Num (uint16BE hi lo))
    /\ (forall a : value,
          (forall i : nat, (2 * i < length bytes)%nat -> a <> Num (loc + Z.of_nat i)) ->
          mem_get m' a = mem_get m a).
Proof.
  revert loc m. induction bytes as [|b|hi0 lo0 rest IH] using list_pair_ind;
    intros loc m Hloc Hev.
  - exists m. repeat split; try reflexivity. intros i hi lo Hhi. discriminate Hhi.
  - discriminate Hev.
  - simpl load_words.
    destruct (IH (loc + 1) (mem_set m loc (uint16BE hi0 lo0)) ltac:(lia) Hev)
      as (m' & Hload & Hlen & Hwords & Hothers).
    assert (length (cells (mem_set m loc (uint16BE hi0 lo0))) = length (cells m)) as Hl1
      by apply length_set.
    exists m'. split; [exact Hload|]. split; [congruence|]. split.
    + intros i hi lo Hhi Hlo Hin. destruct i as [|i].
      * simpl in Hhi, Hlo. injection Hhi as <-. injection Hlo as <-.
        rewrite Z.add_0_r in *. rewrite Hothers by (intros i _ [= E]; lia).
        unfold mem_get, mem_set. cbn [cells]. rewrite get_set_eq by lia.
        simpl. rewrite Z.mod_small by apply uint16BE_range. reflexivity.
      * replace (loc + Z.of_nat (S i)) with (loc + 1 + Z.of_nat i) by lia.
        apply Hwords.
        -- replace (2 * S i)%nat with (S (S (2 * i))) in Hhi by lia. exact Hhi.
        -- replace (2 * S i + 1)%nat with (S (S (2 * i + 1))) in Hlo by lia. exact Hlo.
        -- rewrite Hl1. lia.
    + intros a Ha. rewrite Hothers.
      * apply mem_get_set_ne. specialize (Ha 0%nat ltac:(simpl; lia)).
        rewrite Z.add_0_r in Ha. exact Ha.
      * intros i Hi. replace (loc + 1 + Z.of_nat i) with (loc + Z.of_nat (S i)) by lia.
        apply Ha. simpl. lia.
Qed.

Lemma readUInt16BE_cons2 (hi lo : byte) (rest : list byte) (i : nat) :
  readUInt16BE (hi :: lo :: rest) (2 * i + 2)
  = match rest !! (2 * i)%nat, rest !! (2 * i + 1)%nat with
    | Some h, Some l => Some (uint16BE h l)
    | _, _ => None
    end.
Proof.
  unfold readUInt16BE.
  replace (2 * i + 2)%nat with (S (S (2 * i))) by lia.
  replace (2 * i + 1)%nat with (S (2 * i)) by lia. reflexivity.
Qed.

(** C3, as amended.  For every image of even length with an origin word,
    loading succeeds, and the loop starts with PC = x3000 and every other
    register zero: COND is 0, no flag is set. *)
Theorem loop_start_registers (buf : list byte) (input : list event) :
  (2 <= length buf)%nat -> Nat.even (length buf) = true ->
  exists s, load_image buf (initial input) = Some s
            /\ registers s = [0; 0; 0; 0; 0; 0; 0; 0; 0x3000; 0]
            /\ reg_at PC s = Num 0x3000
            /\ reg_at COND s = Num 0
            /\ (forall j, 0 <= j <= 7 -> reg_at j s = Num 0).
Proof.
  intros Hlen Hev. destruct buf as [|hi [|lo rest]]; simpl in Hlen; try lia.
  unfold load_image.
  destruct (load_words_total rest (uint16BE hi lo) (memory (initial input)) Hev)
    as [m ->].
  eexists. split; [reflexivity|].
  assert (registers (with_registers (with_memory (initial input) m)
                       (set (registers (initial input)) PC 0x3000))
          = [0; 0; 0; 0; 0; 0; 0; 0; 0x3000; 0]) as Hr by reflexivity.
  split; [exact Hr|]. unfold reg_at. rewrite Hr.
  split; [reflexivity|]. split; [reflexivity|].
  intros j Hj.
  assert (j = 0 \/ j = 1 \/ j = 2 \/ j = 3 \/ j = 4 \/ j = 5 \/ j = 6 \/ j = 7)
    as Hc by lia.
  repeat (destruct Hc as [->|Hc]; [reflexivity|]). subst j. reflexivity.
Qed.

Lemma loop_start_registers_witness :
  exists s, load_image trap_halt_image (initial []) = Some s
            /\ registers s = [0; 0; 0; 0; 0; 0; 0; 0; 0x3000; 0]
            /\ reg_at PC s = Num 0x3000
            /\ reg_at COND s = Num 0
            /\ (forall j, 0 <= j <= 7 -> reg_at j s = Num 0).
Proof.
  apply (loop_start_registers trap_halt_image []); [simpl; lia | reflexivity].
Defined.

Lemma trap_halt_loop_start :
  (fun s => (reg_at PC s, reg_at COND s))
    <$> load_image trap_halt_image (initial [])
  = Some (Num 0x3000, Num 0).
Proof. vm_compute. reflexivity. Qed.

(** C3 as stated fails: COND is 0 at the loop start, not Z. *)
Lemma loop_start_COND_is_not_Z :
  ~ (forall s, load_image trap_halt_image (initial []) = Some s ->
               reg_at PC s = Num 0x3000 /\ reg_at COND s = Num FL_ZRO).
Proof.
  intros H. pose proof trap_halt_loop_start as E.
  destruct (load_image trap_halt_image (initial [])) as [s|]; [|discriminate E].
  destruct (H s eq_refl) as [_ Hc]. simpl in E. rewrite Hc in E. discriminate E.
Qed.

(** C8, as amended.  For every byte sequence of even length whose first
    big-endian word is the origin O, loading succeeds; word W_i of the image
    is stored at address O + i whenever O + i lies inside the array; the
    address is not reduced modulo 2^16, so the words past the end of the
    array are dropped; every other cell, and the length of memory, is
    unchanged; the loader then sets PC. *)
Theorem load_image_stores_words (buf : list byte) (s : machine) (origin : Z) :
  Nat.even (length buf) = true -> readUInt16BE buf 0 = Some origin ->
  exists s',
    load_image buf s = Some s'
    /\ (forall (i : nat) (W : Z),
          readUInt16BE buf (2 * i + 2) = Some W ->
          origin + Z.of_nat i < Z.of_nat (length (cells (memory s))) ->
          mem_get (memory s') (origin + Z.of_nat i) = Num W)
    /\ (forall a : value,
          (forall i : nat, (2 * i + 2 < length buf)%nat -> a <> Num (origin + Z.of_nat i)) ->
          mem_get (memory s') a = mem_get (memory s) a)
    /\ length (cells (memory s')) = length (cells (memory s))
    /\ registers s' = set (registers s) PC 0x3000.
Proof.
  intros Hev Ho. destruct buf as [|hi [|lo rest]]; try discriminate Ho.
  injection Ho as <-. fold (uint16BE hi lo).
  destruct (load_words_spec rest (uint16BE hi lo) (memory s)
              ltac:(apply uint16BE_range) Hev)
    as (m' & Hload & Hlen & Hwords & Hothers).
  unfold load_image. rewrite Hload. eexists. split; [reflexivity|].
  cbn [memory registers with_memory with_registers].
  split; [|split; [|split; [exact Hlen|reflexivity]]].
  - intros i W HW Hin. rewrite readUInt16BE_cons2 in HW.
    destruct (rest !! (2 * i)%nat) as [h|] eqn:Hh; [|discriminate HW].
    destruct (rest !! (2 * i + 1)%nat) as [l|] eqn:Hl; [|discriminate HW].
    injection HW as <-. apply (Hwords i h l Hh Hl Hin).
  - intros a Ha. apply Hothers. intros i Hi. apply Ha. simpl. lia.
Qed.

Lemma load_image_stores_words_witness :
  exists s',
    load_image wrap_image (initial []) = Some s'
    /\ (forall (i : nat) (W : Z),
          readUInt16BE wrap_image (2 * i + 2) = Some W ->
          0xFFFE + Z.of_nat i < Z.of_nat (length (cells (memory (initial [])))) ->
          mem_get (memory s') (0xFFFE + Z.of_nat i) = Num W)
    /\ (forall a : value,
          (forall i : nat, (2 * i + 2 < length wrap_image)%nat ->
                           a <> Num (0xFFFE + Z.of_nat i)) ->
          mem_get (memory s') a = mem_get (memory (initial [])) a)
    /\ length (cells (memory s')) = length (cells (memory (initial [])))
    /\ registers s' = set (registers (initial [])) PC 0x3000.
Proof.
  refine (load_image_stores_words wrap_image (initial []) 0xFFFE _ _); reflexivity.
Defined.

Lemma wrap_image_evaluation :
  readUInt16BE wrap_image 0 = Some 0xFFFE
  /\ readUInt16BE wrap_image (2 * 2 + 2) = Some 3
  /\ (0xFFFE + 2) mod 2 ^ 16 = 0
  /\ (fun s => (mem_get (memory s) 0xFFFE, mem_get (memory s) 0))
       <$> load_image wrap_image (initial [])
     = Some (Num 1, Num 0).
Proof. repeat split; vm_compute; reflexivity. Qed.

(** C8 as stated fails for origin xFFFE: the third word is not stored at
    (xFFFE + 2) mod 2^16 = 0. *)
Lemma loader_does_not_wrap :
  ~ (forall s' (i : nat) (W : Z),
       load_image wrap_image (initial []) = Some s' ->
       readUInt16BE wrap_image (2 * i + 2) = Some W ->
       mem_get (memory s') ((0xFFFE + Z.of_nat i) mod 2 ^ 16) = Num W).
Proof.
  intros H. destruct wrap_image_evaluation as (_ & HW & _ & E).
  destruct (load_image wrap_image (initial [])) as [s'|]; [|discriminate E].
  specialize (H s' 2%nat 3 eq_refl HW).
  change ((0xFFFE + Z.of_nat 2) mod 2 ^ 16) with 0 in H.
  change (Some (mem_get (memory s') 0xFFFE, mem_get (memory s') 0)
          = Some (Num 1, Num 0)) in E.
  rewrite H in E. discriminate E.
Qed.

(** ** The string loops: [spin] is reached only when no exit remains *)

Lemma vm_trapPuts_loop_outside (fuel : nat) (addr : Z) (s : machine) :
  MR_KBSR < mem_len s -> mem_len s <= addr + 1 ->
  returned (Vm.trapPuts_loop fuel addr Undefined s) = None.
Proof.
  revert addr s. induction fuel as [|fuel IH]; intros addr s Hk Ha; [reflexivity|].
  simpl. unfold bind at 1. unfold stdout_write at 1. unfold bind at 1.
  rewrite vm_readMemory_outside by assumption.
  apply IH; [exact Hk|]. change (mem_len (with_stdout s (stdout s ++ [fromCharCode Undefined])))
    with (mem_len s). lia.
Qed.

(** Fuel beyond the distance to the end of the array changes nothing. *)
Lemma vm_trapPuts_loop_fuel (n k : nat) (addr : Z) (c : value) (s : machine) :
  MR_KBSR < mem_len s -> mem_len s <= addr + Z.of_nat n ->
  (mem_len s <= addr -> c = Undefined) ->
  returned (Vm.trapPuts_loop (n + k) addr c s) = returned (Vm.trapPuts_loop n addr c s).
Proof.
  revert addr c s. induction n as [|n IH]; intros addr c s Hk Ha Hc.
  - rewrite Hc by lia. simpl (0 + k)%nat.
    rewrite vm_trapPuts_loop_outside by (try assumption; lia). reflexivity.
  - simpl. destruct (c !== 0); [|reflexivity].
    unfold bind at 1 3. unfold stdout_write at 1 2. unfold bind at 1 2.
    set (s1 := with_stdout s (stdout s ++ [fromCharCode c])).
    pose proof (vm_readMemory_preserves_mem_len (Num (addr + 1)) s1) as Hlen.
    destruct (Vm.readMemory (Num (addr + 1)) s1) as [c' s2|s2|s2|s2] eqn:Hr;
      try reflexivity.
    simpl in Hlen. change (mem_len s1) with (mem_len s) in Hlen.
    apply IH; rewrite ?Hlen; [exact Hk|lia|].
    intros Ho.
    rewrite vm_readMemory_outside in Hr by (change (mem_len s1) with (mem_len s); lia).
    congruence.
Qed.

Lemma vm_trapPuts_fuel (k : nat) (s : machine) (w : Z) :
  registers s !! 0%nat = Some w -> 0 <= w -> MR_KBSR < mem_len s ->
  returned ((addr <- reg R0;;
             character <- Vm.readMemory addr;;
             Vm.trapPuts_loop (length (cells (memory s)) + k) addr character) s)
  = returned (Vm.trapPuts s).
Proof.
  intros Hw Hw0 Hk. unfold Vm.trapPuts. unfold bind at 1 3. unfold reg at 1 2.
  rewrite (get_cell (registers s) R0 w ltac:(unfold R0; lia) Hw). unfold bind.
  pose proof (vm_readMemory_preserves_mem_len (Num w) s) as Hlen.
  destruct (Vm.readMemory (Num w) s) as [c s2|s2|s2|s2] eqn:Hr; try reflexivity.
  simpl in Hlen. apply vm_trapPuts_loop_fuel; rewrite ?Hlen; [exact Hk|unfold mem_len; lia|].
  intros Ho. rewrite vm_readMemory_outside in Hr by assumption. congruence.
Qed.

Lemma vm_trapPutsp_loop_outside (fuel : nat) (addr : Z) (s : machine) :
  MR_KBSR < mem_len s -> mem_len s <= addr + 1 ->
  returned (Vm.trapPutsp_loop fuel addr Undefined s) = None.
Proof.
  revert addr s. induction fuel as [|fuel IH]; intros addr s Hk Ha; [reflexivity|].
  simpl. unfold bind at 1. unfold stdout_write at 1. unfold bind at 1. unfold ret at 1.
  unfold bind at 1.
  rewrite vm_readMemory_outside by assumption.
  apply IH; [exact Hk|].
  change (mem_len (with_stdout s (stdout s ++ [fromCharCode (Undefined .& 255)])))
    with (mem_len s). lia.
Qed.

Lemma vm_trapPutsp_loop_fuel (n k : nat) (addr : Z) (c : value) (s : machine) :
  MR_KBSR < mem_len s -> mem_len s <= addr + Z.of_nat n ->
  (mem_len s <= addr -> c = Undefined) ->
  returned (Vm.trapPutsp_loop (n + k) addr c s) = returned (Vm.trapPutsp_loop n addr c s).
Proof.
  revert addr c s. induction n as [|n IH]; intros addr c s Hk Ha Hc.
  - rewrite Hc by lia. simpl (0 + k)%nat.
    rewrite vm_trapPutsp_loop_outside by (try assumption; lia). reflexivity.
  - simpl. destruct (c !== 0); [|reflexivity].
    unfold bind at 1 4. unfold stdout_write at 1 3. unfold bind at 1 3.
    set (s1 := with_stdout s (stdout s ++ [fromCharCode (c .& 255)])).
    assert (exists s1', mem_len s1' = mem_len s
                        /\ (if (c .>> 8) !== 0
                            then stdout_write (fromCharCode (c .>> 8))
                            else ret tt) s1 = Ret tt s1') as (s1' & Hs1' & ->).
    { destruct ((c .>> 8) !== 0); eexists; (split; [|reflexivity]); reflexivity. }
    unfold bind.
    pose proof (vm_readMemory_preserves_mem_len (Num (addr + 1)) s1') as Hlen.
    destruct (Vm.readMemory (Num (addr + 1)) s1') as [c' s2|s2|s2|s2] eqn:Hr;
      try reflexivity.
    simpl in Hlen. rewrite Hs1' in Hlen.
    apply IH; rewrite ?Hlen; [exact Hk|lia|].
    intros Ho.
    rewrite vm_readMemory_outside in Hr by (rewrite Hs1'; lia).
    congruence.
Qed.

Lemma vm_trapPutsp_fuel (k : nat) (s : machine) (w : Z) :
  registers s !! 0%nat = Some w -> 0 <= w -> MR_KBSR < mem_len s ->
  returned ((addr <- reg R0;;
             characterPair <- Vm.readMemory addr;;
             Vm.trapPutsp_loop (length (cells (memory s)) + k) addr characterPair) s)
  = returned (Vm.trapPutsp s).
Proof.
  intros Hw Hw0 Hk. unfold Vm.trapPutsp. unfold bind at 1 3. unfold reg at 1 2.
  rewrite (get_cell (registers s) R0 w ltac:(unfold R0; lia) Hw). unfold bind.
  pose proof (vm_readMemory_preserves_mem_len (Num w) s) as Hlen.
  destruct (Vm.readMemory (Num w) s) as [c s2|s2|s2|s2] eqn:Hr; try reflexivity.
  simpl in Hlen. apply vm_trapPutsp_loop_fuel; rewrite ?Hlen; [exact Hk|unfold mem_len; lia|].
  intros Ho. rewrite vm_readMemory_outside in Hr by assumption. congruence.
Qed.

(** ** The end-to-end scenarios of the specification, run on [Vm.run] *)

(** ADD R1, R1, #2; HALT. *)
Example scenario_add_immediate :
  option_map (option_map (fun r => registers (state_of r)))
             (Vm.run [x30; x00; x12; x62; xf0; x25] [] 2)
  = Some (Some [0; 2; 0; 0; 0; 0; 0; 0; 0x3002; FL_POS]).
Proof. vm_compute. reflexivity. Qed.

(** NOT R0, R0; BRz +1; HALT; HALT. *)
Example scenario_not_and_branch :
  option_map (option_map (fun r => registers (state_of r)))
             (Vm.run [x30; x00; x90; x3f; x04; x01; xf0; x25; xf0; x25] [] 3)
  = Some (Some [0xFFFF; 0; 0; 0; 0; 0; 0; 0; 0x3003; FL_NEG]).
Proof. vm_compute. reflexivity. Qed.

(** LEA R0, +2; PUTS; HALT; "Hi". *)
Example scenario_puts_hi :
  option_map (option_map (fun r => stdout (state_of r)))
             (Vm.run [x30; x00; xe0; x02; xf0; x22; xf0; x25;
                      x00; x48; x00; x69; x00; x00] [] 3)
  = Some (Some [[72]; [105]]).
Proof. vm_compute. reflexivity. Qed.

(** A truncated image: [readUInt16BE] throws and the loop is never entered. *)
Example scenario_truncated_image :
  Vm.run [x30; x00; xf0] [] 3 = None.
Proof. reflexivity. Qed.

(** ** Well-formed states and instruction fields *)

Lemma wordb_word (w : Z) : wordb w = true <-> word w.
Proof. unfold wordb, word. rewrite andb_true_iff, Z.leb_le, Z.ltb_lt. tauto. Qed.

Lemma wfb_wf (s : machine) : wfb s = true -> wf s.
Proof.
  unfold wfb, wf, wf_registers, wf_cells. rewrite !andb_true_iff.
  intros [[[H1 H2] H3] H4].
  apply Nat.eqb_eq in H1. apply Z.eqb_eq in H3.
  rewrite forallb_forall in H2, H4.
  repeat split; try assumption; apply List.Forall_forall; intros w Hw; apply wordb_word; auto.
Qed.

Lemma wfb_wf_registers (s : machine) : wfb s = true -> wf_registers (registers s).
Proof. intros H. exact (proj1 (wfb_wf s H)). Qed.

Lemma wf_registers_get (rs : Uint16Array) (j : Z) :
  wf_registers rs -> 0 <= j <= 9 -> get rs j = Num (rget rs j) /\ word (rget rs j).
Proof.
  intros [Hlen Hall] Hj. unfold get, rget. destruct (Z.leb_spec 0 j); [|lia].
  destruct (rs !! Z.to_nat j) as [w|] eqn:E.
  - split; [reflexivity|]. simpl. eapply Forall_lookup_1; eauto.
  - apply lookup_ge_None in E. lia.
Qed.

Lemma field_range (i lo n : Z) : 0 <= n -> 0 <= field i lo n < 2 ^ n.
Proof. intros Hn. apply land_mask_range, Hn. Qed.

Lemma word_int32 (i : Z) : word i -> - 2 ^ 31 <= i < 2 ^ 31.
Proof. unfold word. pow2_consts. lia. Qed.

Lemma shiftr_word (i k : Z) : word i -> 0 <= k -> 0 <= Z.shiftr i k <= i.
Proof.
  intros Hi Hk. unfold word in Hi. split; [apply Z.shiftr_nonneg; lia|].
  rewrite Z.shiftr_div_pow2 by lia. apply Z.div_le_upper_bound.
  - apply Z.pow_pos_nonneg; lia.
  - pose proof (Z.pow_pos_nonneg 2 k). nia.
Qed.

(** Decoding a field of a 16-bit instruction word with [>>] and [&]. *)
Lemma decode_field (i lo n : Z) :
  word i -> 0 <= lo < 32 -> 0 <= n <= 16 ->
  (Num i .>> Num lo) .& Num (Z.ones n) = Num (field i lo n).
Proof.
  intros Hi Hlo Hn. pose proof (word_int32 i Hi). pose proof (shiftr_word i lo Hi ltac:(lia)).
  rewrite sar_small by (try assumption; lia).
  unfold word in Hi. apply band_small.
  - pow2_consts. lia.
  - pose proof (land_mask_range (-1) n ltac:(lia)) as Ho.
    assert (0 <= Z.ones n < 2 ^ 16).
    { rewrite Z.ones_equiv. assert (2 ^ n <= 2 ^ 16) by (apply Z.pow_le_mono_r; lia).
      pose proof (Z.pow_pos_nonneg 2 n). lia. }
    pow2_consts. lia.
Qed.

Lemma decode_reg (i lo : Z) :
  word i -> 0 <= lo < 32 -> (Num i .>> Num lo) .& 7 = Num (field i lo 3) /\ 0 <= field i lo 3 <= 7.
Proof.
  intros Hi Hlo. split.
  - apply (decode_field i lo 3 Hi Hlo). lia.
  - pose proof (field_range i lo 3 ltac:(lia)). change (2 ^ 3) with 8 in H. lia.
Qed.

Lemma decode_low_reg (i : Z) : word i -> Num i .& 7 = Num (SR2 i) /\ 0 <= SR2 i <= 7.
Proof.
  intros Hi. unfold SR2. split.
  - pose proof (word_int32 i Hi).
    rewrite band_small by (try assumption; pow2_consts; lia).
    unfold field. rewrite Z.shiftr_0_r. reflexivity.
  - pose proof (field_range i 0 3 ltac:(lia)). change (2 ^ 3) with 8 in H. lia.
Qed.

Lemma decode_flag (i lo : Z) :
  word i -> 0 <= lo < 32 ->
  exists b, (Num i .>> Num lo) .& 1 = Num b /\ truthy (Num b) = Z.testbit i lo
            /\ (Num b === 1) = Z.testbit i lo.
Proof.
  intros Hi Hlo. exists (field i lo 1). split; [apply (decode_field i lo 1 Hi Hlo); lia|].
  unfold field. change (Z.ones 1) with 1. split; [apply truthy_bit; lia|].
  pose proof (truthy_bit i lo ltac:(lia)) as Ht. rewrite <- Ht. simpl.
  pose proof (land_mask_range (Z.shiftr i lo) 1 ltac:(lia)) as Hr.
  change (Z.ones 1) with 1 in Hr. change (2 ^ 1) with 2 in Hr.
  assert (Z.land (Z.shiftr i lo) 1 = 0 \/ Z.land (Z.shiftr i lo) 1 = 1) as [-> | ->] by lia;
    reflexivity.
Qed.

(** ** Signed operands and relative addresses *)

Lemma suffix_disjoint (v w : Z) :
  0 <= w -> Z.land (Z.land v (Z.ones w)) (Z.shiftl 0xFFFF w) = 0.
Proof.
  intros Hw. apply Z.bits_inj'. intros n Hn.
  rewrite !Z.land_spec, Z.bits_0, Z.testbit_ones_nonneg by lia.
  destruct (Z.ltb_spec n w).
  - rewrite Z.shiftl_spec_low by lia. apply andb_false_r.
  - rewrite andb_false_r. reflexivity.
Qed.

Lemma sign_extend_spec_simm (v w : Z) :
  1 <= w <= 15 -> sign_extend_spec v w = simm w v mod 2 ^ 16.
Proof.
  intros Hw. unfold sign_extend_spec, simm.
  pose proof (land_mask_range v w ltac:(lia)) as Hu.
  assert (2 ^ w <= 2 ^ 15) as Hp by (apply Z.pow_le_mono_r; lia).
  destruct (Z.testbit v (w - 1)).
  - change 0xFFFF with (Z.ones 16) at 2. rewrite Z.land_ones by lia.
    pose proof (Z.add_lor_land (Z.land v (Z.ones w)) (Z.shiftl 0xFFFF w)) as Hadd.
    rewrite suffix_disjoint in Hadd by lia.
    rewrite Z.add_0_r in Hadd. rewrite Hadd.
    rewrite Z.shiftl_mul_pow2 by lia.
    replace (Z.land v (Z.ones w) + 65535 * 2 ^ w)
      with (Z.land v (Z.ones w) - 2 ^ w + 2 ^ w * 2 ^ 16) by (change (2 ^ 16) with 65536; lia).
    apply Z_mod_plus_full.
  - symmetry. apply Z.mod_small. pow2_consts. lia.
Qed.

Lemma simm_range (w i : Z) : 1 <= w -> - 2 ^ (w - 1) <= simm w i < 2 ^ (w - 1).
Proof.
  intros Hw. unfold simm.
  pose proof (land_mask_range i w ltac:(lia)) as Hu.
  assert (2 ^ w = 2 * 2 ^ (w - 1)) as Hp.
  { rewrite <- Z.pow_succ_r by lia. f_equal. lia. }
  assert (0 < 2 ^ (w - 1)) as Hpos by (apply Z.pow_pos_nonneg; lia).
  assert (Z.testbit i (w - 1) = Z.testbit (Z.land i (Z.ones w)) (w - 1)) as Hb.
  { rewrite Z.land_spec, Z.testbit_ones_nonneg by lia.
    rewrite (proj2 (Z.ltb_lt (w - 1) w)) by lia. symmetry. apply andb_true_r. }
  rewrite Hb. set (a := Z.land i (Z.ones w)) in *.
  pose proof (Z.testbit_spec' a (w - 1) ltac:(lia)) as Hs.
  set (P := 2 ^ (w - 1)) in *.
  assert (a / P = 0 \/ a / P = 1) as Hq.
  { pose proof (Z.div_pos a P ltac:(lia) Hpos).
    assert (a / P < 2); [|lia]. apply Z.div_lt_upper_bound; lia. }
  pose proof (Z.div_mod a P ltac:(lia)) as Hdm.
  pose proof (Z.mod_pos_bound a P Hpos) as Hm.
  destruct (Z.testbit a (w - 1)); simpl in Hs; destruct Hq as [Hq|Hq];
    rewrite Hq in Hs, Hdm; try discriminate Hs; lia.
Qed.

(** A PC-relative or base-relative address, as every handler computes it. *)
Lemma relative_address (base i w : Z) :
  word base -> word i -> In w [5; 6; 9; 11] ->
  (Num base .+ Vm.signExtendSuffix i w) .& 0xffff = Num ((base + simm w i) mod 2 ^ 16)
  /\ ToUint16 (Num base .+ Vm.signExtendSuffix i w) = (base + simm w i) mod 2 ^ 16.
Proof.
  intros Hb Hi Hw. rewrite vm_signExtendSuffix_eq by assumption.
  destruct (width_constants w Hw) as (_ & _ & _ & _ & _ & Hw').
  pose proof (sign_extend_spec_range i w ltac:(lia)) as Hr.
  assert ((base + sign_extend_spec i w) mod 2 ^ 16 = (base + simm w i) mod 2 ^ 16) as E.
  { rewrite sign_extend_spec_simm by lia. rewrite Zplus_mod_idemp_r. reflexivity. }
  unfold word in *. simpl JS.add. split.
  - rewrite band_small by (pow2_consts; lia).
    change 0xffff with (Z.ones 16). rewrite Z.land_ones by lia. rewrite E. reflexivity.
  - simpl. exact E.
Qed.

(** ** ADD, AND, NOT *)

Lemma reg_read (s : machine) (j : Z) :
  wf_registers (registers s) -> 0 <= j <= 9 ->
  reg (Num j) s = Ret (Num (rget (registers s) j)) s.
Proof.
  intros Hwf Hj. unfold reg. destruct (wf_registers_get _ j Hwf Hj) as [-> _]. reflexivity.
Qed.

Lemma rget_word (rs : Uint16Array) (j : Z) : wf_registers rs -> word (rget rs j).
Proof.
  intros [_ Hall]. unfold rget. destruct (rs !! Z.to_nat j) as [w|] eqn:E; simpl.
  - eapply Forall_lookup_1; eauto.
  - unfold word. pow2_consts. lia.
Qed.

Lemma ToUint16_word (v : value) : word (ToUint16 v).
Proof.
  unfold word. destruct v; simpl; try (pow2_consts; lia). apply Z.mod_pos_bound. lia.
Qed.

Lemma flag_of_word (r : Z) : word (flag_of r).
Proof.
  unfold word, flag_of. destruct (r =? 0); [|destruct (Z.testbit r 15)];
    unfold FL_ZRO, FL_NEG, FL_POS; pow2_consts; lia.
Qed.

(** [registers[d] = v; updateCondFlag(d)], the tail of every flag-setting
    handler. *)
Lemma vm_write_flag (s : machine) (d : Z) (v : value) :
  length (registers s) = 10%nat -> 0 <= d <= 7 ->
  (set_reg d v;;; Vm.updateCondFlag d) s = Ret tt (write_result d (ToUint16 v) s).
Proof.
  intros Hlen Hd. unfold bind, set_reg.
  rewrite (vm_updateCondFlag_spec _ d (ToUint16 v)).
  - unfold write_result, with_registers. cbn [registers memory stdin stdout].
    unfold set. destruct (Z.leb_spec 0 d); [|lia]. change (0 <=? COND) with true. cbv iota.
    f_equal. f_equal. f_equal. pose proof (flag_of_word (ToUint16 v)) as Hf.
    simpl. apply Z.mod_small. exact Hf.
  - lia.
  - cbn [registers with_registers]. unfold set. destruct (Z.leb_spec 0 d); [|lia].
    apply list_lookup_insert_eq. lia.
  - apply ToUint16_word.
Qed.

Lemma bind_Ret {A B : Type} (m : M A) (k : A -> M B) (s s' : machine) (a : A) :
  m s = Ret a s' -> bind m k s = k a s'.
Proof. intros H. unfold bind. rewrite H. reflexivity. Qed.

(** X1.  ADD: the destination receives the sum modulo 2^16 of the first source
    register and either the second source register or the signed 5-bit
    immediate; the flags follow the result; nothing else changes. *)
Theorem vm_add_spec (i : Z) (s : machine) :
  wf_registers (registers s) -> word i ->
  Vm.add i s
  = Ret tt (write_result (DR i)
              ((rget (registers s) (SR1 i)
                + (if Z.testbit i 5 then simm 5 i else rget (registers s) (SR2 i)))
               mod 2 ^ 16) s).
Proof.
  intros Hwf Hi. unfold Vm.add.
  destruct (decode_reg i 9 Hi ltac:(lia)) as [-> Hd].
  destruct (decode_reg i 6 Hi ltac:(lia)) as [-> Hs1].
  destruct (decode_low_reg i Hi) as [-> Hs2].
  destruct (decode_flag i 5 Hi ltac:(lia)) as (b & -> & -> & _).
  fold (DR i) (SR1 i) in *.
  assert (forall v, (a <- reg (SR1 i);; set_reg (DR i) (a .+ v)) s
                    = set_reg (DR i) (Num (rget (registers s) (SR1 i)) .+ v) s) as H1.
  { intros v. apply (bind_Ret (reg (SR1 i)) (fun a => set_reg (DR i) (a .+ v))).
    apply reg_read; [exact Hwf|lia]. }
  pose proof (rget_word (registers s) (SR1 i) Hwf) as Ha.
  destruct (Z.testbit i 5).
  - unfold bind at 1. rewrite H1. unfold set_reg at 1.
    pose proof (vm_write_flag s (DR i) (Num (rget (registers s) (SR1 i)) .+ Vm.signExtendSuffix i 5)
                  (proj1 Hwf) Hd) as Hw.
    unfold bind, set_reg in Hw. rewrite Hw.
    rewrite (proj2 (relative_address _ i 5 Ha Hi ltac:(simpl; tauto))). reflexivity.
  - unfold bind at 1. unfold bind at 1.
    rewrite (reg_read s (SR1 i) Hwf ltac:(lia)). unfold bind at 1.
    rewrite (reg_read s (SR2 i) Hwf ltac:(lia)). unfold set_reg at 1.
    pose proof (vm_write_flag s (DR i)
                  (Num (rget (registers s) (SR1 i)) .+ Num (rget (registers s) (SR2 i)))
                  (proj1 Hwf) Hd) as Hw.
    unfold bind, set_reg in Hw. rewrite Hw. reflexivity.
Qed.

Lemma vm_add_spec_witness : Vm.add 0x1261 sample = Ret tt (write_result 1 6 sample).
Proof.
  refine (vm_add_spec 0x1261 sample _ _).
  - apply wfb_wf_registers. vm_compute. reflexivity.
  - unfold word. lia.
Defined.

Lemma land_word (a b : Z) : word a -> word (Z.land a b).
Proof.
  intros Ha. unfold word in *.
  rewrite <- (Z.mod_small a (2 ^ 16)) by exact Ha.
  rewrite <- Z.land_ones by lia.
  rewrite (Z.land_comm _ b), Z.land_assoc, Z.land_ones by lia.
  apply Z.mod_pos_bound. lia.
Qed.

(** X2.  AND: the destination receives the bitwise AND of the first source
    register and either the second source register or the sign-extended
    5-bit immediate; the flags follow the result. *)
Theorem vm_and_spec (i : Z) (s : machine) :
  wf_registers (registers s) -> word i ->
  Vm.and i s
  = Ret tt (write_result (DR i)
              (Z.land (rget (registers s) (SR1 i))
                      (if Z.testbit i 5 then simm 5 i mod 2 ^ 16
                       else rget (registers s) (SR2 i))) s).
Proof.
  intros Hwf Hi. unfold Vm.and.
  destruct (decode_reg i 9 Hi ltac:(lia)) as [-> Hd].
  destruct (decode_reg i 6 Hi ltac:(lia)) as [-> Hs1].
  destruct (decode_low_reg i Hi) as [-> Hs2].
  destruct (decode_flag i 5 Hi ltac:(lia)) as (b & -> & -> & _).
  fold (DR i) (SR1 i) in *.
  pose proof (rget_word (registers s) (SR1 i) Hwf) as Ha.
  pose proof (rget_word (registers s) (SR2 i) Hwf) as Hb.
  assert (forall y, word y ->
            (set_reg (DR i) (Num (rget (registers s) (SR1 i)) .& Num y);;;
             Vm.updateCondFlag (DR i)) s
            = Ret tt (write_result (DR i) (Z.land (rget (registers s) (SR1 i)) y) s)) as Hw.
  { intros y Hy. rewrite (vm_write_flag s (DR i) _ (proj1 Hwf) Hd).
    rewrite band_small by (apply word_int32; assumption).
    simpl. rewrite Z.mod_small by (apply land_word; assumption). reflexivity. }
  destruct (Z.testbit i 5).
  - rewrite <- sign_extend_spec_simm by lia.
    rewrite <- (Hw _ (sign_extend_spec_range i 5 ltac:(lia))).
    unfold bind at 1 3. unfold bind at 1.
    rewrite (reg_read s (SR1 i) Hwf ltac:(lia)).
    rewrite vm_signExtendSuffix_eq by (try assumption; simpl; tauto). reflexivity.
  - rewrite <- (Hw _ Hb). unfold bind at 1 3. unfold bind at 1.
    rewrite (reg_read s (SR1 i) Hwf ltac:(lia)). unfold bind at 1.
    rewrite (reg_read s (SR2 i) Hwf ltac:(lia)). reflexivity.
Qed.

Lemma vm_and_spec_witness : Vm.and 0x5881 sample = Ret tt (write_result 4 5 sample).
Proof.
  refine (vm_and_spec 0x5881 sample _ _).
  - apply wfb_wf_registers. vm_compute. reflexivity.
  - unfold word. lia.
Defined.

(** X3.  NOT: the destination receives the 16-bit complement of the source. *)
Theorem vm_not_spec (i : Z) (s : machine) :
  wf_registers (registers s) -> word i ->
  Vm.not i s
  = Ret tt (write_result (DR i) (0xFFFF - rget (registers s) (SR1 i)) s).
Proof.
  intros Hwf Hi. unfold Vm.not.
  destruct (decode_reg i 9 Hi ltac:(lia)) as [-> Hd].
  destruct (decode_reg i 6 Hi ltac:(lia)) as [-> Hs1].
  fold (DR i) (SR1 i) in *.
  pose proof (rget_word (registers s) (SR1 i) Hwf) as Ha.
  unfold bind at 1. rewrite (reg_read s (SR1 i) Hwf ltac:(lia)).
  rewrite (vm_write_flag s (DR i) _ (proj1 Hwf) Hd). f_equal. f_equal.
  unfold bnot, ToInt32, ToUint16. rewrite wrap32_small by (apply word_int32, Ha).
  unfold Z.lnot, word in *. change (2 ^ 16) with 65536 in *.
  rewrite <- (Z_mod_plus_full _ 1 65536). rewrite Z.mod_small by lia. lia.
Qed.

Lemma vm_not_spec_witness : Vm.not 0x98BF sample = Ret tt (write_result 4 0 sample).
Proof.
  refine (vm_not_spec 0x98BF sample _ _).
  - apply wfb_wf_registers. vm_compute. reflexivity.
  - unfold word. lia.
Defined.

(** ** BR, JMP, JSR, LEA *)

Lemma set_reg_word (s : machine) (j x : Z) :
  0 <= j -> word x -> set_reg (Num j) (Num x) s = Ret tt (write_reg j x s).
Proof.
  intros Hj Hx. unfold set_reg, write_reg, set. destruct (Z.leb_spec 0 j); [|lia].
  simpl. rewrite Z.mod_small by exact Hx. reflexivity.
Qed.

Lemma wf_registers_insert (rs : Uint16Array) (n : nat) (x : Z) :
  wf_registers rs -> word x -> wf_registers (<[n := x]> rs).
Proof.
  intros [Hlen Hall] Hx. split; [rewrite length_insert; exact Hlen|].
  apply Forall_insert; assumption.
Qed.

Lemma mod_word (x : Z) : word (x mod 2 ^ 16).
Proof. apply Z.mod_pos_bound. lia. Qed.

Lemma vm_branch_sem (i : Z) (s : machine) :
  wf_registers (registers s) -> word i ->
  Vm.branch i s
  = Ret tt (if Z.land (field i 9 3) (rget (registers s) COND) =? 0 then s
            else write_reg PC ((rget (registers s) PC + simm 9 i) mod 2 ^ 16) s).
Proof.
  intros Hwf Hi. unfold Vm.branch.
  destruct (decode_reg i 9 Hi ltac:(lia)) as [-> Hm].
  unfold bind at 1. rewrite (reg_read s COND Hwf ltac:(unfold COND; lia)).
  pose proof (rget_word (registers s) COND Hwf) as Hc.
  pose proof (rget_word (registers s) PC Hwf) as Hpc.
  rewrite band_small by (try (apply word_int32; assumption); pow2_consts; lia).
  unfold truthy. destruct (Z.land (field i 9 3) (rget (registers s) COND) =? 0);
    [reflexivity|]. cbn [negb].
  unfold bind. rewrite (reg_read s PC Hwf ltac:(unfold PC; lia)).
  rewrite (proj1 (relative_address _ i 9 Hpc Hi ltac:(simpl; tauto))).
  apply set_reg_word; [unfold PC; lia|apply mod_word].
Qed.

(** X4.  BR: the branch is taken exactly when the mask in bits 11..9 and COND
    share a bit, so never while COND is 0; a taken branch adds the signed
    9-bit offset to PC modulo 2^16; nothing else changes. *)
Theorem vm_branch_spec (i : Z) (s : machine) :
  wf_registers (registers s) -> word i ->
  Vm.branch i s
  = Ret tt (if Z.land (field i 9 3) (rget (registers s) COND) =? 0 then s
            else write_reg PC ((rget (registers s) PC + simm 9 i) mod 2 ^ 16) s).
Proof. exact (vm_branch_sem i s). Qed.

Lemma vm_branch_spec_witness :
  Vm.branch 0x03FE sample = Ret tt (write_reg PC 0x2FFE sample).
Proof.
  refine (vm_branch_spec 0x03FE sample _ _).
  - apply wfb_wf_registers. vm_compute. reflexivity.
  - unfold word. lia.
Defined.

(** X5.  JMP: PC receives the content of the base register; nothing else changes. *)
Theorem vm_jump_spec (i : Z) (s : machine) :
  wf_registers (registers s) -> word i ->
  Vm.jump i s = Ret tt (write_reg PC (rget (registers s) (SR1 i)) s).
Proof.
  intros Hwf Hi. unfold Vm.jump.
  destruct (decode_reg i 6 Hi ltac:(lia)) as [-> Hb]. fold (SR1 i) in *.
  unfold bind. rewrite (reg_read s (SR1 i) Hwf ltac:(lia)).
  apply set_reg_word; [unfold PC; lia|apply rget_word, Hwf].
Qed.

Lemma vm_jump_spec_witness : Vm.jump 0xC1C0 sample = Ret tt (write_reg PC 0x3005 sample).
Proof.
  refine (vm_jump_spec 0xC1C0 sample _ _).
  - apply wfb_wf_registers. vm_compute. reflexivity.
  - unfold word. lia.
Defined.

(** X6.  JSR / JSRR: R7 receives PC first; then PC receives either PC plus the
    signed 11-bit offset or the content of the base register, read after R7
    was overwritten: JSRR R7 jumps to the return address itself. *)
Theorem vm_jumpToSubroutine_spec (i : Z) (s : machine) :
  wf_registers (registers s) -> word i ->
  let pc := rget (registers s) PC in
  let linked := write_reg R7 pc s in
  Vm.jumpToSubroutine i s
  = Ret tt (write_reg PC
              (if Z.testbit i 11 then (pc + simm 11 i) mod 2 ^ 16
               else rget (registers linked) (SR1 i))
              linked)
  /\ rget (registers linked) R7 = pc.
Proof.
  intros Hwf Hi pc linked. unfold Vm.jumpToSubroutine.
  pose proof (rget_word (registers s) PC Hwf) as Hpc. fold pc in Hpc.
  assert (wf_registers (registers linked)) as Hwf'
    by (apply wf_registers_insert; assumption).
  assert (rget (registers linked) PC = pc) as Hpc'.
  { unfold rget, linked, write_reg. cbn [registers with_registers].
    rewrite list_lookup_insert_ne by discriminate. reflexivity. }
  split.
  - unfold bind at 1. rewrite (reg_read s PC Hwf ltac:(unfold PC; lia)). fold pc.
    unfold bind at 1. rewrite (set_reg_word s R7 pc ltac:(unfold R7; lia) Hpc). fold linked.
    destruct (decode_flag i 11 Hi ltac:(lia)) as (b & -> & _ & ->).
    destruct (Z.testbit i 11).
    + unfold bind. rewrite (reg_read linked PC Hwf' ltac:(unfold PC; lia)). rewrite Hpc'.
      rewrite (proj1 (relative_address _ i 11 Hpc Hi ltac:(simpl; tauto))).
      apply set_reg_word; [unfold PC; lia|apply mod_word].
    + destruct (decode_reg i 6 Hi ltac:(lia)) as [-> Hb]. fold (SR1 i) in *.
      unfold bind. rewrite (reg_read linked (SR1 i) Hwf' ltac:(lia)).
      apply set_reg_word; [unfold PC; lia|apply rget_word, Hwf'].
  - unfold rget, linked, write_reg. cbn [registers with_registers].
    rewrite list_lookup_insert_eq; [reflexivity|]. rewrite (proj1 Hwf). unfold R7. lia.
Qed.

Lemma vm_jumpToSubroutine_spec_witness :
  Vm.jumpToSubroutine 0x41C0 sample
  = Ret tt (write_reg PC 0x3000 (write_reg R7 0x3000 sample))
  /\ rget (registers (write_reg R7 0x3000 sample)) R7 = 0x3000.
Proof.
  refine (vm_jumpToSubroutine_spec 0x41C0 sample _ _).
  - apply wfb_wf_registers. vm_compute. reflexivity.
  - unfold word. lia.
Defined.

(** X7.  LEA: the destination receives PC plus the signed 9-bit offset modulo
    2^16; memory is neither read nor written. *)
Theorem vm_loadEffectiveAddress_spec (i : Z) (s : machine) :
  wf_registers (registers s) -> word i ->
  Vm.loadEffectiveAddress i s
  = Ret tt (write_result (DR i) ((rget (registers s) PC + simm 9 i) mod 2 ^ 16) s).
Proof.
  intros Hwf Hi. unfold Vm.loadEffectiveAddress.
  destruct (decode_reg i 9 Hi ltac:(lia)) as [-> Hd]. fold (DR i) in *.
  pose proof (rget_word (registers s) PC Hwf) as Hpc.
  unfold bind at 1. rewrite (reg_read s PC Hwf ltac:(unfold PC; lia)).
  rewrite (proj1 (relative_address _ i 9 Hpc Hi ltac:(simpl; tauto))).
  rewrite (vm_write_flag s (DR i) _ (proj1 Hwf) Hd). simpl.
  rewrite Z.mod_mod by lia. reflexivity.
Qed.

Lemma vm_loadEffectiveAddress_spec_witness :
  Vm.loadEffectiveAddress 0xE1FF sample = Ret tt (write_result 0 0x2FFF sample).
Proof.
  refine (vm_loadEffectiveAddress_spec 0xE1FF sample _ _).
  - apply wfb_wf_registers. vm_compute. reflexivity.
  - unfold word. lia.
Defined.

(** ** LD, LDR, LDI, ST, STR, STI *)

Lemma mread_spec (m : Memory) (a : Z) :
  Forall word (cells m) -> 0 <= a -> ToUint16 (mem_get m (Num a)) = mread m a.
Proof.
  intros Hall Ha. unfold mem_get, get, mread. destruct (Z.leb_spec 0 a); [|lia].
  destruct (cells m !! Z.to_nat a) as [w|] eqn:E; simpl; [|reflexivity].
  apply Z.mod_small. exact (Forall_lookup_1 _ _ _ _ Hall E).
Qed.

Lemma mread_outside (m : Memory) (a : Z) :
  Z.of_nat (length (cells m)) <= a -> mread m a = 0.
Proof.
  intros Ha. unfold mread. rewrite (proj2 (lookup_ge_None _ _)); [reflexivity|lia].
Qed.

Lemma mem_get_inside (m : Memory) (a : Z) :
  0 <= a < Z.of_nat (length (cells m)) -> mem_get m (Num a) = Num (mread m a).
Proof.
  intros Ha. unfold mem_get, get, mread. destruct (Z.leb_spec 0 a); [|lia].
  destruct (cells m !! Z.to_nat a) as [w|] eqn:E; [reflexivity|].
  apply lookup_ge_None in E. lia.
Qed.

Lemma mread_word (m : Memory) (a : Z) : Forall word (cells m) -> word (mread m a).
Proof.
  intros Hall. unfold mread. destruct (cells m !! Z.to_nat a) as [w|] eqn:E; simpl.
  - eapply Forall_lookup_1; eauto.
  - unfold word. pow2_consts. lia.
Qed.

Lemma set_mem_word (s : machine) (a v : Z) :
  0 <= a -> word v -> set_mem (Num a) (Num v) s = Ret tt (write_mem a v s).
Proof.
  intros Ha Hv. unfold set_mem, write_mem, mem_set, set.
  destruct (Z.leb_spec 0 a); [|lia]. simpl. rewrite Z.mod_small by exact Hv. reflexivity.
Qed.

Lemma vm_readMemory_cell (s : machine) (a : Z) :
  a <> MR_KBSR -> Vm.readMemory (Num a) s = Ret (mem_get (memory s) (Num a)) s.
Proof. intros Ha. apply vm_readMemory_plain. simpl. apply Z.eqb_neq, Ha. Qed.

(** X8.  LD: the destination receives the cell at PC plus the signed 9-bit
    offset (modulo 2^16), or 0 when that address is xFFFF, which is outside
    the array; the flags follow; memory and console are untouched. *)
Theorem vm_load_spec (i : Z) (s : machine) :
  wf s -> word i ->
  let addr := (rget (registers s) PC + simm 9 i) mod 2 ^ 16 in
  addr <> MR_KBSR ->
  Vm.load i s = Ret tt (write_result (DR i) (mread (memory s) addr) s)
  /\ mread (memory s) 0xFFFF = 0.
Proof.
  intros [Hwf [Hlen Hall]] Hi addr Hk. split.
  - unfold Vm.load.
    destruct (decode_reg i 9 Hi ltac:(lia)) as [-> Hd]. fold (DR i) in *.
    pose proof (rget_word (registers s) PC Hwf) as Hpc.
    unfold bind at 1. rewrite (reg_read s PC Hwf ltac:(unfold PC; lia)).
    rewrite (proj1 (relative_address _ i 9 Hpc Hi ltac:(simpl; tauto))). fold addr.
    unfold bind at 1. rewrite (vm_readMemory_cell s addr Hk).
    rewrite (vm_write_flag s (DR i) _ (proj1 Hwf) Hd).
    rewrite mread_spec; [reflexivity|exact Hall|apply mod_word].
  - apply mread_outside. lia.
Qed.

Lemma vm_load_spec_witness :
  Vm.load 0x2410 sample = Ret tt (write_result 2 (mread (memory sample) 0x3010) sample)
  /\ mread (memory sample) 0xFFFF = 0.
Proof.
  refine (vm_load_spec 0x2410 sample _ _ _).
  - apply wfb_wf. vm_compute. reflexivity.
  - unfold word. lia.
  - vm_compute. discriminate.
Defined.

Lemma vm_loadWithOffset_sem (i : Z) (s : machine) :
  wf s -> word i ->
  let addr := (rget (registers s) (SR1 i) + simm 6 i) mod 2 ^ 16 in
  addr <> MR_KBSR ->
  Vm.loadWithOffset i s = Ret tt (write_result (DR i) (mread (memory s) addr) s).
Proof.
  intros [Hwf [Hlen Hall]] Hi addr Hk. unfold Vm.loadWithOffset.
  destruct (decode_reg i 9 Hi ltac:(lia)) as [-> Hd].
  destruct (decode_reg i 6 Hi ltac:(lia)) as [-> Hb]. fold (DR i) (SR1 i) in *.
  pose proof (rget_word (registers s) (SR1 i) Hwf) as Hbase.
  unfold bind at 1. rewrite (reg_read s (SR1 i) Hwf ltac:(lia)).
  rewrite (proj1 (relative_address _ i 6 Hbase Hi ltac:(simpl; tauto))). fold addr.
  unfold bind at 1. rewrite (vm_readMemory_cell s addr Hk).
  rewrite (vm_write_flag s (DR i) _ (proj1 Hwf) Hd).
  rewrite mread_spec; [reflexivity|exact Hall|apply mod_word].
Qed.

(** X9.  LDR: as LD, the address being the base register plus the signed 6-bit
    offset modulo 2^16. *)
Theorem vm_loadWithOffset_spec (i : Z) (s : machine) :
  wf s -> word i ->
  let addr := (rget (registers s) (SR1 i) + simm 6 i) mod 2 ^ 16 in
  addr <> MR_KBSR ->
  Vm.loadWithOffset i s = Ret tt (write_result (DR i) (mread (memory s) addr) s).
Proof. exact (vm_loadWithOffset_sem i s). Qed.

Lemma vm_loadWithOffset_spec_witness :
  Vm.loadWithOffset 0x68C1 sample
  = Ret tt (write_result 4 (mread (memory sample) 0x4001) sample).
Proof.
  refine (vm_loadWithOffset_spec 0x68C1 sample _ _ _).
  - apply wfb_wf. vm_compute. reflexivity.
  - unfold word. lia.
  - vm_compute. discriminate.
Defined.

(** X10.  LDI: the cell at PC plus offset holds the address of the cell loaded. *)
Theorem vm_loadIndirect_spec (i : Z) (s : machine) :
  wf s -> word i ->
  let addr := (rget (registers s) PC + simm 9 i) mod 2 ^ 16 in
  let ptr := mread (memory s) addr in
  addr <> MR_KBSR -> addr <> 0xFFFF -> ptr <> MR_KBSR ->
  Vm.loadIndirect i s = Ret tt (write_result (DR i) (mread (memory s) ptr) s).
Proof.
  intros [Hwf [Hlen Hall]] Hi addr ptr Hk Hin Hp. unfold Vm.loadIndirect.
  destruct (decode_reg i 9 Hi ltac:(lia)) as [-> Hd]. fold (DR i) in *.
  pose proof (rget_word (registers s) PC Hwf) as Hpc.
  unfold bind at 1. rewrite (reg_read s PC Hwf ltac:(unfold PC; lia)).
  rewrite (proj1 (relative_address _ i 9 Hpc Hi ltac:(simpl; tauto))). fold addr.
  unfold bind at 1. rewrite (vm_readMemory_cell s addr Hk).
  rewrite mem_get_inside by (pose proof (mod_word (rget (registers s) PC + simm 9 i));
                             unfold word in *; fold addr in H; pow2_consts; lia).
  fold ptr. unfold bind at 1. rewrite (vm_readMemory_cell s ptr Hp).
  rewrite (vm_write_flag s (DR i) _ (proj1 Hwf) Hd).
  rewrite mread_spec; [reflexivity|exact Hall|apply mread_word, Hall].
Qed.

Lemma vm_loadIndirect_spec_witness :
  Vm.loadIndirect 0xA410 sample
  = Ret tt (write_result 2 (mread (memory sample) (mread (memory sample) 0x3010)) sample).
Proof.
  refine (vm_loadIndirect_spec 0xA410 sample _ _ _ _ _).
  - apply wfb_wf. vm_compute. reflexivity.
  - unfold word. lia.
  - vm_compute. discriminate.
  - vm_compute. discriminate.
  - vm_compute. discriminate.
Defined.

Lemma vm_store_sem (i : Z) (s : machine) :
  wf_registers (registers s) -> word i ->
  Vm.store i s
  = Ret tt (write_mem ((rget (registers s) PC + simm 9 i) mod 2 ^ 16)
                      (rget (registers s) (DR i)) s).
Proof.
  intros Hwf Hi. unfold Vm.store, Vm.writeMemory.
  destruct (decode_reg i 9 Hi ltac:(lia)) as [-> Hd]. fold (DR i) in *.
  pose proof (rget_word (registers s) PC Hwf) as Hpc.
  unfold bind at 1. rewrite (reg_read s PC Hwf ltac:(unfold PC; lia)).
  rewrite (proj1 (relative_address _ i 9 Hpc Hi ltac:(simpl; tauto))).
  unfold bind. rewrite (reg_read s (DR i) Hwf ltac:(lia)).
  apply set_mem_word; [apply mod_word|apply rget_word, Hwf].
Qed.

Lemma vm_storeOffset_sem (i : Z) (s : machine) :
  wf_registers (registers s) -> word i ->
  Vm.storeOffset i s
  = Ret tt (write_mem ((rget (registers s) (SR1 i) + simm 6 i) mod 2 ^ 16)
                      (rget (registers s) (DR i)) s).
Proof.
  intros Hwf Hi. unfold Vm.storeOffset, Vm.writeMemory.
  destruct (decode_reg i 9 Hi ltac:(lia)) as [-> Hd].
  destruct (decode_reg i 6 Hi ltac:(lia)) as [-> Hb]. fold (DR i) (SR1 i) in *.
  pose proof (rget_word (registers s) (SR1 i) Hwf) as Hbase.
  unfold bind at 1. rewrite (reg_read s (SR1 i) Hwf ltac:(lia)).
  rewrite (proj1 (relative_address _ i 6 Hbase Hi ltac:(simpl; tauto))).
  unfold bind. rewrite (reg_read s (DR i) Hwf ltac:(lia)).
  apply set_mem_word; [apply mod_word|apply rget_word, Hwf].
Qed.

Lemma write_mem_outside (a v : Z) (s : machine) :
  Z.of_nat (length (cells (memory s))) <= a -> write_mem a v s = s.
Proof.
  intros Ha. unfold write_mem. rewrite list_insert_ge by lia.
  destruct s as [[cs pu] rs i o]. reflexivity.
Qed.

(** X11.  ST and STR: the cell at PC, or at the base register, plus the signed
    offset modulo 2^16 receives the source register; no register changes;
    a store to xFFFF, which is not a cell, is dropped. *)
Theorem vm_store_spec (i : Z) (s : machine) :
  wf s -> word i ->
  let v := rget (registers s) (DR i) in
  Vm.store i s
  = Ret tt (write_mem ((rget (registers s) PC + simm 9 i) mod 2 ^ 16) v s)
  /\ Vm.storeOffset i s
     = Ret tt (write_mem ((rget (registers s) (SR1 i) + simm 6 i) mod 2 ^ 16) v s)
  /\ write_mem 0xFFFF v s = s.
Proof.
  intros [Hr [Hlen Hall]] Hi v. split; [|split].
  - exact (vm_store_sem i s Hr Hi).
  - exact (vm_storeOffset_sem i s Hr Hi).
  - apply write_mem_outside. lia.
Qed.

Lemma vm_store_spec_witness :
  Vm.store 0x3210 sample = Ret tt (write_mem 0x3010 5 sample)
  /\ Vm.storeOffset 0x3210 sample = Ret tt (write_mem 0x4010 5 sample)
  /\ write_mem 0xFFFF 5 sample = sample.
Proof.
  refine (vm_store_spec 0x3210 sample _ _).
  - apply wfb_wf. vm_compute. reflexivity.
  - unfold word. lia.
Defined.

(** X12.  STI: the cell at PC plus offset holds the address of the cell written. *)
Theorem vm_storeIndirect_spec (i : Z) (s : machine) :
  wf s -> word i ->
  let addr := (rget (registers s) PC + simm 9 i) mod 2 ^ 16 in
  addr <> MR_KBSR -> addr <> 0xFFFF ->
  Vm.storeIndirect i s
  = Ret tt (write_mem (mread (memory s) addr) (rget (registers s) (DR i)) s).
Proof.
  intros [Hwf [Hlen Hall]] Hi addr Hk Hin. unfold Vm.storeIndirect, Vm.writeMemory.
  destruct (decode_reg i 9 Hi ltac:(lia)) as [-> Hd]. fold (DR i) in *.
  pose proof (rget_word (registers s) PC Hwf) as Hpc.
  unfold bind at 1. rewrite (reg_read s PC Hwf ltac:(unfold PC; lia)).
  rewrite (proj1 (relative_address _ i 9 Hpc Hi ltac:(simpl; tauto))). fold addr.
  unfold bind at 1. rewrite (vm_readMemory_cell s addr Hk).
  rewrite mem_get_inside by (pose proof (mod_word (rget (registers s) PC + simm 9 i));
                             unfold word in *; fold addr in H; pow2_consts; lia).
  unfold bind. rewrite (reg_read s (DR i) Hwf ltac:(lia)).
  apply set_mem_word; [apply mread_word, Hall|apply rget_word, Hwf].
Qed.

Lemma vm_storeIndirect_spec_witness :
  Vm.storeIndirect 0xB210 sample
  = Ret tt (write_mem (mread (memory sample) 0x3010) 5 sample).
Proof.
  refine (vm_storeIndirect_spec 0xB210 sample _ _ _ _).
  - apply wfb_wf. vm_compute. reflexivity.
  - unfold word. lia.
  - vm_compute. discriminate.
  - vm_compute. discriminate.
Defined.

(** ** Round trips: store and load, KBSR and KBDR *)

Lemma mread_write_mem (s : machine) (a v : Z) :
  0 <= a < Z.of_nat (length (cells (memory s))) ->
  mread (memory (write_mem a v s)) a = v.
Proof.
  intros Ha. unfold mread, write_mem. cbn [memory with_memory cells].
  rewrite list_lookup_insert_eq by lia. reflexivity.
Qed.

Lemma wf_write_mem (s : machine) (a v : Z) : wf s -> word v -> wf (write_mem a v s).
Proof.
  intros [Hr [Hlen Hall]] Hv. split; [exact Hr|]. unfold write_mem.
  cbn [memory with_memory cells]. split; [rewrite length_insert; exact Hlen|].
  apply Forall_insert; assumption.
Qed.

(** X13.  STR followed by LDR through the same base register and offset returns
    the stored word, for every address inside the array other than KBSR. *)
Theorem vm_store_then_load (i_st i_ld : Z) (s : machine) :
  wf s -> word i_st -> word i_ld ->
  SR1 i_ld = SR1 i_st -> simm 6 i_ld = simm 6 i_st ->
  let addr := (rget (registers s) (SR1 i_st) + simm 6 i_st) mod 2 ^ 16 in
  addr <> MR_KBSR -> addr <> 0xFFFF ->
  (Vm.storeOffset i_st;;; Vm.loadWithOffset i_ld) s
  = Ret tt (write_result (DR i_ld) (rget (registers s) (DR i_st))
              (write_mem addr (rget (registers s) (DR i_st)) s)).
Proof.
  intros Hwf Hst Hld Hb Ho addr Hk Hin.
  pose proof (rget_word (registers s) (DR i_st) (proj1 Hwf)) as Hv.
  unfold bind. rewrite (vm_storeOffset_sem i_st s (proj1 Hwf) Hst). fold addr.
  set (s1 := write_mem addr (rget (registers s) (DR i_st)) s).
  assert (wf s1) as Hwf1 by (apply wf_write_mem; assumption).
  assert (registers s1 = registers s) as Hr by reflexivity.
  pose proof (vm_loadWithOffset_sem i_ld s1 Hwf1 Hld) as Hl.
  cbv zeta in Hl. rewrite Hr, Hb, Ho in Hl. fold addr in Hl. rewrite (Hl Hk).
  unfold s1. rewrite mread_write_mem; [reflexivity|].
  pose proof (mod_word (rget (registers s) (SR1 i_st) + simm 6 i_st)) as Ha.
  fold addr in Ha. destruct Hwf as [_ [Hlen _]]. unfold word in Ha. pow2_consts. lia.
Qed.

Lemma vm_store_then_load_witness :
  (Vm.storeOffset 0x72C2;;; Vm.loadWithOffset 0x68C2) sample
  = Ret tt (write_result 4 5 (write_mem 0x4002 5 sample)).
Proof.
  refine (vm_store_then_load 0x72C2 0x68C2 sample _ _ _ _ _ _ _).
  - apply wfb_wf. vm_compute. reflexivity.
  - unfold word. lia.
  - unfold word. lia.
  - reflexivity.
  - reflexivity.
  - vm_compute. discriminate.
  - vm_compute. discriminate.
Defined.

(** X14.  The keyboard protocol: after a read of KBSR that found a key, a read of
    KBDR returns that key, as often as it is read, and consumes no input. *)
Theorem vm_read_KBDR_after_KBSR (s s1 : machine) (c : Z) :
  Z.of_nat (length (cells (memory s))) = 0xffff ->
  Vm.pollForKey s = Ret (Num c) s1 -> c <> 0 ->
  let polled := after_poll s (cells_after_poll c (cells (memory s))) in
  (Vm.readMemory MR_KBSR;;; Vm.readMemory MR_KBDR) s = Ret (Num c) polled
  /\ (Vm.readMemory MR_KBSR;;; Vm.readMemory MR_KBDR;;; Vm.readMemory MR_KBDR) s
     = Ret (Num c) polled.
Proof.
  intros Hlen Hp Hc polled.
  destruct (pollForKey_inv _ _ _ Hp) as [_ [[=]|(c' & [= <-] & Hr & _)]].
  destruct (cells_after_key (cells (memory s)) c Hlen Hr Hc) as (_ & Hd & _ & _).
  assert (Vm.readMemory MR_KBDR polled = Ret (Num c) polled) as Hread.
  { rewrite vm_readMemory_plain by reflexivity. unfold mem_get, polled, after_poll.
    cbn [memory cells]. rewrite Hd. reflexivity. }
  unfold bind. rewrite (vm_readMemory_KBSR s s1 c Hlen Hp). fold polled.
  rewrite !Hread. split; reflexivity.
Qed.

Lemma vm_read_KBDR_after_KBSR_witness :
  let s := initial [Data [x41]] in
  let polled := after_poll s (cells_after_poll 0x41 (cells (memory s))) in
  (Vm.readMemory MR_KBSR;;; Vm.readMemory MR_KBDR) s = Ret (Num 0x41) polled
  /\ (Vm.readMemory MR_KBSR;;; Vm.readMemory MR_KBDR;;; Vm.readMemory MR_KBDR) s
     = Ret (Num 0x41) polled.
Proof.
  refine (vm_read_KBDR_after_KBSR (initial [Data [x41]]) (initial []) 0x41 _ _ _).
  - vm_compute. reflexivity.
  - reflexivity.
  - discriminate.
Defined.

(** ** GETC and IN *)

(** The prompt of IN, as the string of the source. *)
Lemma prompt_text :
  Vm.prompt
  = List.map (fun a => Z.of_nat (nat_of_ascii a))
             (list_ascii_of_string "Enter a character: ").
Proof. reflexivity. Qed.

Lemma byte_code_word (b : byte) : word (byte_code b).
Proof.
  unfold word, byte_code. pose proof (Byte.to_N_bounded b). pow2_consts. lia.
Qed.

Lemma once_data_key (s : machine) (b : byte) (chunk : list byte) (rest : list event) :
  next_data (stdin s) = Some (b :: chunk, rest) -> byte_code b <> 3 ->
  once_data s = Ret (Num (byte_code b)) (with_stdin s rest).
Proof.
  intros Hn Hb. unfold once_data. rewrite Hn. unfold ctrl_c, first_byte.
  fold (byte_code b). simpl. rewrite (proj2 (Z.eqb_neq _ _) Hb). reflexivity.
Qed.

(** X15.  GETC: waits for the next 'data' event, however many polls time out
    before it; R0 receives the first byte of the chunk, the other bytes of
    the chunk are discarded; nothing is echoed. *)
Theorem vm_trapGetc_spec (s : machine) (b : byte) (chunk : list byte) (rest : list event) :
  next_data (stdin s) = Some (b :: chunk, rest) -> byte_code b <> 3 ->
  Vm.trapGetc s = Ret tt (write_reg R0 (byte_code b) (with_stdin s rest))
  /\ stdout (state_of (Vm.trapGetc s)) = stdout s.
Proof.
  intros Hn Hb. unfold Vm.trapGetc, Vm.getChar, bind.
  rewrite (once_data_key s b chunk rest Hn Hb).
  rewrite set_reg_word by (try apply byte_code_word; unfold R0; lia).
  split; reflexivity.
Qed.

Lemma vm_trapGetc_spec_witness :
  Vm.trapGetc sample = Ret tt (write_reg R0 0x61 (with_stdin sample [Data [x63]]))
  /\ stdout (state_of (Vm.trapGetc sample)) = stdout sample.
Proof.
  refine (vm_trapGetc_spec sample x61 [x62] [Data [x63]] _ _).
  - reflexivity.
  - discriminate.
Defined.

(** X16.  IN: writes the prompt, waits for the next 'data' event, echoes its
    first byte and leaves it in R0. *)
Theorem vm_trapIn_spec (s : machine) (b : byte) (chunk : list byte) (rest : list event) :
  next_data (stdin s) = Some (b :: chunk, rest) -> byte_code b <> 3 ->
  Vm.trapIn s
  = Ret tt (write_reg R0 (byte_code b)
              (with_stdout (with_stdin s rest)
                 (stdout s ++ [Vm.prompt] ++ [[byte_code b]]))).
Proof.
  intros Hn Hb. unfold Vm.trapIn, Vm.getChar, bind.
  change (stdout_write Vm.prompt s)
    with (Ret tt (with_stdout s (stdout s ++ [Vm.prompt]))).
  cbv iota beta.
  rewrite (once_data_key (with_stdout s (stdout s ++ [Vm.prompt])) b chunk rest Hn Hb).
  unfold stdout_write. cbn [stdout with_stdout with_stdin].
  rewrite set_reg_word by (try apply byte_code_word; unfold R0; lia).
  unfold fromCharCode, ToUint16. rewrite Z.mod_small by apply byte_code_word.
  rewrite <- app_assoc. reflexivity.
Qed.

Lemma vm_trapIn_spec_witness :
  Vm.trapIn sample
  = Ret tt (write_reg R0 0x61
              (with_stdout (with_stdin sample [Data [x63]])
                 (stdout sample ++ [Vm.prompt] ++ [[0x61]]))).
Proof.
  refine (vm_trapIn_spec sample x61 [x62] [Data [x63]] _ _).
  - reflexivity.
  - discriminate.
Defined.

(** ** PUTS and PUTSP *)

Lemma string_at_head (cs : Uint16Array) (a : Z) (ws : list Z) :
  string_at cs a ws -> cs !! Z.to_nat a = Some (hd 0 ws).
Proof. destruct ws as [|w ws]; simpl; tauto. Qed.

Lemma string_at_bound (cs : Uint16Array) (a : Z) (ws : list Z) :
  0 <= a -> string_at cs a ws -> a + Z.of_nat (length ws) < Z.of_nat (length cs).
Proof.
  revert a. induction ws as [|w ws IH]; intros a Ha H; simpl in *.
  - apply lookup_lt_Some in H. lia.
  - destruct H as (_ & _ & H). specialize (IH (a + 1) ltac:(lia) H). lia.
Qed.

Lemma with_stdout_same (s : machine) : with_stdout s (stdout s ++ []) = s.
Proof. destruct s. unfold with_stdout. simpl. rewrite app_nil_r. reflexivity. Qed.

Lemma read_next_char (s : machine) (a : Z) (ws : list Z) :
  0 <= a -> a <> MR_KBSR -> string_at (cells (memory s)) a ws ->
  Vm.readMemory (Num a) s = Ret (Num (hd 0 ws)) s.
Proof.
  intros Ha Hk Hs. rewrite (vm_readMemory_cell s a Hk). unfold mem_get.
  rewrite (get_cell _ a _ Ha (string_at_head _ _ _ Hs)). reflexivity.
Qed.

Lemma vm_trapPuts_loop_string (ws : list Z) :
  forall (a : Z) (fuel : nat) (s : machine),
    0 <= a -> Forall word ws ->
    string_at (cells (memory s)) a ws ->
    (a + Z.of_nat (length ws) < MR_KBSR \/ MR_KBSR < a) ->
    (length ws <= fuel)%nat ->
    Vm.trapPuts_loop fuel (Num a) (Num (hd 0 ws)) s
    = Ret tt (with_stdout s (stdout s ++ puts_output ws)).
Proof.
  induction ws as [|w ws IH]; intros a fuel s Ha Hw Hs Hk Hf.
  - destruct fuel; simpl; unfold ret; rewrite with_stdout_same; reflexivity.
  - destruct Hs as (Hc & Hnz & Hs). destruct fuel as [|fuel]; [simpl in Hf; lia|].
    simpl hd. cbn [Vm.trapPuts_loop].
    replace (Num w !== 0) with true
      by (unfold strict_ne, strict_eq; symmetry; apply negb_true_iff, Z.eqb_neq, Hnz).
    unfold bind at 1. unfold stdout_write at 1. cbv zeta. unfold bind at 1.
    simpl length in *.
    set (s1 := with_stdout s (stdout s ++ [fromCharCode (Num w)])).
    change (Num a .+ 1) with (Num (a + 1)).
    rewrite (read_next_char s1 (a + 1) ws ltac:(lia) ltac:(lia) Hs).
    rewrite (IH (a + 1) fuel s1 ltac:(lia) (Forall_inv_tail Hw) Hs ltac:(lia) ltac:(lia)).
    unfold s1, with_stdout. cbn [memory registers stdin stdout].
    rewrite <- app_assoc. unfold fromCharCode, ToUint16.
    rewrite Z.mod_small by exact (Forall_inv Hw). reflexivity.
Qed.

(** X17.  PUTS on a zero-terminated string that does not cross KBSR: the words
    from the address in R0 up to the first zero word are written one by
    one, each as one 16-bit code unit (the whole word, not its low byte);
    the terminator is read and not written; nothing else changes. *)
Theorem vm_trapPuts_spec (s : machine) (ws : list Z) :
  wf s ->
  let a := rget (registers s) R0 in
  string_at (cells (memory s)) a ws ->
  (a + Z.of_nat (length ws) < MR_KBSR \/ MR_KBSR < a) ->
  Vm.trapPuts s = Ret tt (with_stdout s (stdout s ++ puts_output ws)).
Proof.
  intros [Hr [Hlen Hall]] a Hs Hk.
  pose proof (rget_word (registers s) R0 Hr) as Ha. fold a in Ha.
  assert (Forall word ws) as Hws.
  { clear - Hs Hall. revert Hs. generalize a. induction ws as [|w ws IH]; intros b Hs.
    - constructor.
    - destruct Hs as (Hc & _ & Hs). constructor; [|exact (IH _ Hs)].
      exact (Forall_lookup_1 _ _ _ _ Hall Hc). }
  pose proof (string_at_bound _ a ws (proj1 Ha) Hs) as Hb.
  unfold Vm.trapPuts. unfold bind at 1.
  rewrite (reg_read s R0 Hr ltac:(unfold R0; lia)). fold a.
  unfold bind at 1.
  rewrite (read_next_char s a ws (proj1 Ha) ltac:(lia) Hs).
  unfold word in Ha. apply vm_trapPuts_loop_string; try assumption; lia.
Qed.

Lemma vm_trapPuts_spec_witness :
  Vm.trapPuts sample = Ret tt (with_stdout sample (stdout sample ++ [[72]; [105]])).
Proof.
  refine (vm_trapPuts_spec sample [72; 105] _ _ _).
  - apply wfb_wf. vm_compute. reflexivity.
  - vm_compute. repeat split; discriminate.
  - left. vm_compute. reflexivity.
Defined.

Lemma putsp_output_cons (w : Z) (ws : list Z) :
  putsp_output (w :: ws) = putsp_output [w] ++ putsp_output ws.
Proof. unfold putsp_output. simpl. rewrite app_nil_r. reflexivity. Qed.

Lemma vm_trapPutsp_loop_string (ws : list Z) :
  forall (a : Z) (fuel : nat) (s : machine),
    0 <= a -> Forall word ws ->
    string_at (cells (memory s)) a ws ->
    (a + Z.of_nat (length ws) < MR_KBSR \/ MR_KBSR < a) ->
    (length ws <= fuel)%nat ->
    Vm.trapPutsp_loop fuel (Num a) (Num (hd 0 ws)) s
    = Ret tt (with_stdout s (stdout s ++ putsp_output ws)).
Proof.
  induction ws as [|w ws IH]; intros a fuel s Ha Hw Hs Hk Hf.
  - destruct fuel; simpl; unfold ret; rewrite with_stdout_same; reflexivity.
  - destruct Hs as (Hc & Hnz & Hs). destruct fuel as [|fuel]; [simpl in Hf; lia|].
    simpl hd. cbn [Vm.trapPutsp_loop].
    replace (Num w !== 0) with true
      by (unfold strict_ne, strict_eq; symmetry; apply negb_true_iff, Z.eqb_neq, Hnz).
    pose proof (Forall_inv Hw) as Hww.
    assert (Num w .& 255 = Num (Z.land w 255)) as ->.
    { apply (band_small w 255); [apply word_int32, Hww|pow2_consts; lia]. }
    assert (Num w .>> 8 = Num (Z.shiftr w 8)) as ->.
    { apply sar_small; [apply word_int32, Hww|lia]. }
    assert (word (Z.land w 255)) as Hlo.
    { change 255 with (Z.ones 8). rewrite Z.land_ones by lia. unfold word.
      pose proof (Z.mod_pos_bound w (2 ^ 8) ltac:(lia)). pow2_consts. lia. }
    assert (word (Z.shiftr w 8)) as Hhi.
    { pose proof (shiftr_word w 8 Hww ltac:(lia)). unfold word in *. lia. }
    cbv zeta. unfold bind at 1. unfold stdout_write at 1. unfold bind at 1.
    set (s1 := with_stdout s (stdout s ++ [fromCharCode (Num (Z.land w 255))])).
    simpl length in *.
    assert (exists s2, (if Num (Z.shiftr w 8) !== 0
                        then stdout_write (fromCharCode (Num (Z.shiftr w 8)))
                        else ret tt) s1 = Ret tt s2
                       /\ memory s2 = memory s /\ registers s2 = registers s
                       /\ stdin s2 = stdin s
                       /\ stdout s2 = stdout s ++ putsp_output [w]) as (s2 & -> & Hm & Hrg & Hin & Hout).
    { unfold strict_ne, strict_eq, putsp_output. simpl List.map. simpl List.concat.
      subst s1. unfold fromCharCode, ToUint16.
      rewrite (Z.mod_small _ _ Hhi), (Z.mod_small _ _ Hlo).
      destruct (Z.shiftr w 8 =? 0); simpl negb; cbv iota.
      - eexists. split; [reflexivity|]. simpl. rewrite ?app_nil_r. tauto.
      - eexists. split; [reflexivity|]. unfold stdout_write. simpl.
        rewrite ?app_nil_r, <- ?app_assoc. simpl. tauto. }
    change (Num a .+ 1) with (Num (a + 1)).
    unfold bind at 1.
    assert (string_at (cells (memory s2)) (a + 1) ws) as Hs2 by (rewrite Hm; exact Hs).
    rewrite (read_next_char s2 (a + 1) ws ltac:(lia) ltac:(lia) Hs2).
    rewrite (IH (a + 1) fuel s2 ltac:(lia) (Forall_inv_tail Hw) Hs2 ltac:(lia) ltac:(lia)).
    destruct s2 as [m2 r2 i2 o2]. simpl in Hm, Hrg, Hin, Hout.
    subst m2 r2 i2 o2. unfold with_stdout. cbn [memory registers stdin stdout].
    rewrite <- app_assoc, <- putsp_output_cons. reflexivity.
Qed.

(** X18.  PUTSP on a zero-terminated string that does not cross KBSR: for each
    word up to the first zero word the low byte is written, then the high
    byte when it is not zero; a word whose low byte is zero still has that
    zero byte written. *)
Theorem vm_trapPutsp_spec (s : machine) (ws : list Z) :
  wf s ->
  let a := rget (registers s) R0 in
  string_at (cells (memory s)) a ws ->
  (a + Z.of_nat (length ws) < MR_KBSR \/ MR_KBSR < a) ->
  Vm.trapPutsp s = Ret tt (with_stdout s (stdout s ++ putsp_output ws)).
Proof.
  intros [Hr [Hlen Hall]] a Hs Hk.
  pose proof (rget_word (registers s) R0 Hr) as Ha. fold a in Ha.
  assert (Forall word ws) as Hws.
  { clear - Hs Hall. revert Hs. generalize a. induction ws as [|w ws IH]; intros b Hs.
    - constructor.
    - destruct Hs as (Hc & _ & Hs). constructor; [|exact (IH _ Hs)].
      exact (Forall_lookup_1 _ _ _ _ Hall Hc). }
  pose proof (string_at_bound _ a ws (proj1 Ha) Hs) as Hb.
  unfold Vm.trapPutsp. unfold bind at 1.
  rewrite (reg_read s R0 Hr ltac:(unfold R0; lia)). fold a.
  unfold bind at 1.
  rewrite (read_next_char s a ws (proj1 Ha) ltac:(lia) Hs).
  unfold word in Ha. apply vm_trapPutsp_loop_string; try assumption; lia.
Qed.

Lemma vm_trapPutsp_spec_witness :
  Vm.trapPutsp (write_reg R0 0x4100 sample)
  = Ret tt (with_stdout (write_reg R0 0x4100 sample)
              (stdout sample ++ [[0x48]; [0x69]; [0x21]])).
Proof.
  refine (vm_trapPutsp_spec (write_reg R0 0x4100 sample) [0x6948; 0x21] _ _ _).
  - apply wfb_wf. vm_compute. reflexivity.
  - vm_compute. repeat split; discriminate.
  - left. vm_compute. reflexivity.
Defined.

(** ** The invariant of the typed arrays *)

Lemma keeps_ret {A : Type} (P : machine -> Prop) (a : A) : keeps P (ret a).
Proof. intros s H. exact H. Qed.

Lemma keeps_spin {A : Type} (P : machine -> Prop) : keeps P (@spin A).
Proof. intros s H. exact H. Qed.

Lemma keeps_bind {A B : Type} (P : machine -> Prop) (m : M A) (k : A -> M B) :
  keeps P m -> (forall a, keeps P (k a)) -> keeps P (bind m k).
Proof.
  intros Hm Hk s H. unfold bind. specialize (Hm s H).
  destruct (m s) as [a s'|s'|s'|s']; simpl in *; try exact Hm. apply Hk, Hm.
Qed.

Lemma keeps_preserved {A X : Type} (P : machine -> Prop) (f : machine -> X) (m : M A) :
  (forall s t, f s = f t -> P s -> P t) -> preserves f m -> keeps P m.
Proof. intros Hf Hm s H. apply (Hf s); [symmetry; apply Hm|exact H]. Qed.

Lemma wf_set (rs : Uint16Array) (k v : value) :
  Forall word rs -> Forall word (set rs k v).
Proof.
  intros H. unfold set. destruct k as [j| |]; try exact H.
  destruct (0 <=? j); [|exact H]. apply Forall_insert; [exact H|apply ToUint16_word].
Qed.

Lemma keeps_wf_set_reg (k v : value) : keeps wf (set_reg k v).
Proof.
  intros s [[Hl Hr] Hc]. split; [|exact Hc].
  unfold set_reg. cbn [state_of registers with_registers]. split.
  - rewrite length_set. exact Hl.
  - apply (wf_set _ _ _ Hr).
Qed.

Lemma keeps_wf_set_mem (k v : value) : keeps wf (set_mem k v).
Proof.
  intros s [Hr [Hl Hc]]. split; [exact Hr|].
  unfold set_mem. cbn [state_of memory with_memory]. unfold mem_set.
  destruct k as [j| |]; cbn [cells]; split; try assumption.
  - rewrite length_set. exact Hl.
  - apply (wf_set _ _ _ Hc).
Qed.

Lemma keeps_wf_reg (k : value) : keeps wf (reg k).
Proof. intros s H. exact H. Qed.

Lemma keeps_wf_mem (k : value) : keeps wf (mem k).
Proof. intros s H. exact H. Qed.

Lemma keeps_wf_stdout_write (str : list Z) : keeps wf (stdout_write str).
Proof. intros s H. exact H. Qed.

Lemma keeps_wf_race : keeps wf race_data_sleep.
Proof.
  intros s H. unfold race_data_sleep.
  destruct (stdin s) as [|[|chunk] rest]; try exact H.
  destruct (ctrl_c chunk); exact H.
Qed.

Lemma keeps_wf_once : keeps wf once_data.
Proof.
  intros s H. unfold once_data.
  destruct (next_data (stdin s)) as [[chunk rest]|]; try exact H.
  destruct (ctrl_c chunk); exact H.
Qed.

Create HintDb keeps.
#[export] Hint Resolve keeps_ret keeps_spin keeps_wf_set_reg keeps_wf_set_mem
  keeps_wf_reg keeps_wf_mem keeps_wf_stdout_write keeps_wf_race keeps_wf_once : keeps.

Ltac keeps_step :=
  match goal with
  | |- keeps _ (bind _ _) => apply keeps_bind; [|intros ?]
  | |- keeps _ (if ?b then _ else _) => destruct b
  | |- keeps _ (let _ := _ in _) => cbv zeta
  | |- keeps _ _ => solve [auto with keeps]
  end.
Ltac keeps_tac := repeat keeps_step.

Lemma keeps_wf_readMemory (a : value) : keeps wf (Vm.readMemory a).
Proof. unfold Vm.readMemory, Vm.pollForKey. keeps_tac. Qed.
#[export] Hint Resolve keeps_wf_readMemory : keeps.

Lemma keeps_wf_updateCondFlag (r : value) : keeps wf (Vm.updateCondFlag r).
Proof. unfold Vm.updateCondFlag. keeps_tac. Qed.
#[export] Hint Resolve keeps_wf_updateCondFlag : keeps.

Lemma keeps_wf_trapPuts_loop (fuel : nat) :
  forall addr c, keeps wf (Vm.trapPuts_loop fuel addr c).
Proof. induction fuel as [|fuel IH]; intros addr c; simpl; keeps_tac. Qed.

Lemma keeps_wf_trapPutsp_loop (fuel : nat) :
  forall addr c, keeps wf (Vm.trapPutsp_loop fuel addr c).
Proof. induction fuel as [|fuel IH]; intros addr c; simpl; keeps_tac. Qed.

Lemma keeps_wf_trapPuts : keeps wf Vm.trapPuts.
Proof.
  intros s. unfold Vm.trapPuts. generalize (length (cells (memory s))). intros n. revert s.
  change (keeps wf (addr <- reg R0;; character <- Vm.readMemory addr;;
                    Vm.trapPuts_loop n addr character)).
  pose proof (keeps_wf_trapPuts_loop n). keeps_tac.
Qed.

Lemma keeps_wf_trapPutsp : keeps wf Vm.trapPutsp.
Proof.
  intros s. unfold Vm.trapPutsp. generalize (length (cells (memory s))). intros n. revert s.
  change (keeps wf (addr <- reg R0;; characterPair <- Vm.readMemory addr;;
                    Vm.trapPutsp_loop n addr characterPair)).
  pose proof (keeps_wf_trapPutsp_loop n). keeps_tac.
Qed.
#[export] Hint Resolve keeps_wf_trapPuts keeps_wf_trapPutsp : keeps.

Lemma keeps_wf_execute (op i : value) : keeps wf (Vm.execute op i).
Proof.
  unfold Vm.execute, Vm.add, Vm.and, Vm.not, Vm.branch, Vm.jump, Vm.jumpToSubroutine,
    Vm.load, Vm.loadIndirect, Vm.loadWithOffset, Vm.loadEffectiveAddress, Vm.store,
    Vm.storeIndirect, Vm.storeOffset, Vm.writeMemory, Vm.trap, Vm.trapGetc, Vm.trapIn,
    Vm.trapOut, Vm.getChar.
  keeps_tac.
Qed.

Lemma keeps_wf_step : keeps wf Vm.step.
Proof.
  unfold Vm.step, Vm.fetch. pose proof keeps_wf_execute. keeps_tac.
Qed.

Lemma wf_new_Uint16Array (n : Z) : Forall word (new_Uint16Array n).
Proof. apply Forall_replicate. unfold word. lia. Qed.

Lemma wf_initial (input : list event) : wf (initial input).
Proof.
  unfold initial, wf, wf_registers, wf_cells. cbn [registers memory cells].
  rewrite !length_new_Uint16Array.
  repeat split; try apply wf_new_Uint16Array; try reflexivity; try lia.
Qed.

Lemma wf_load_words (buf : list byte) :
  forall (a : Z) (m m' : Memory),
    wf_cells (cells m) -> load_words buf a m = Some m' -> wf_cells (cells m').
Proof.
  induction buf as [|b|hi lo rest IH] using list_pair_ind; intros a m m' Hm H.
  - simpl in H. congruence.
  - simpl in H. congruence.
  - cbn [load_words] in H. apply IH in H; [exact H|].
    destruct Hm as [Hl Hc]. unfold mem_set. cbn [cells]. split.
    + rewrite length_set. exact Hl.
    + apply (wf_set _ _ _ Hc).
Qed.

Lemma vm_loop_keeps_wf (fuel : nat) :
  forall (s : machine) (r : result unit),
    wf s -> Vm.loop fuel s = Some r -> wf (state_of r).
Proof.
  induction fuel as [|fuel IH]; intros s r Hwf H; [discriminate|].
  cbn [Vm.loop] in H. pose proof (keeps_wf_step s Hwf) as Hs.
  destruct (Vm.step s) as [[|] s'|s'|s'|s']; cbn [state_of] in Hs.
  - exact (IH s' r Hs H).
  - assert (r = Exit s') as -> by congruence. exact Hs.
  - assert (r = Exit s') as -> by congruence. exact Hs.
  - assert (r = Block s') as -> by congruence. exact Hs.
  - assert (r = Spin s') as -> by congruence. exact Hs.
Qed.

Lemma wf_load_image (buf : list byte) (s s' : machine) :
  wf s -> load_image buf s = Some s' -> wf s'.
Proof.
  intros [[Hl Hr] Hc] H. unfold load_image in H.
  destruct buf as [|hi [|lo rest]]; try discriminate.
  destruct (load_words rest (uint16BE hi lo) (memory s)) as [m|] eqn:E; [|discriminate].
  assert (s' = with_registers (with_memory s m) (set (registers s) PC 0x3000)) as ->
    by congruence.
  split; cbn [registers memory with_registers with_memory].
  - split; [rewrite length_set; exact Hl|apply wf_set, Hr].
  - exact (wf_load_words _ _ _ _ Hc E).
Qed.

(** X19.  Whatever image is loaded and whatever the console delivers, in every
    state in which [run] stops (exit, blocked read or endless string loop)
    there are still ten registers and 65535 cells, each a 16-bit word. *)
Theorem vm_run_keeps_wf (buf : list byte) (input : list event) (fuel : nat)
    (r : result unit) :
  Vm.run buf input fuel = Some (Some r) -> wf (state_of r).
Proof.
  unfold Vm.run. intros H.
  destruct (load_image buf (initial input)) as [s|] eqn:E; [|discriminate].
  apply (vm_loop_keeps_wf fuel s r).
  - exact (wf_load_image _ _ _ (wf_initial input) E).
  - congruence.
Qed.

Lemma vm_run_keeps_wf_witness :
  exists r, Vm.run trap_halt_image [] 1 = Some (Some r) /\ wf (state_of r).
Proof.
  assert (match Vm.run trap_halt_image [] 1 with
          | Some (Some _) => true
          | _ => false
          end = true) as H by (vm_compute; reflexivity).
  destruct (Vm.run trap_halt_image [] 1) as [[r|]|] eqn:E; try discriminate H.
  exists r. split; [reflexivity|].
  exact (vm_run_keeps_wf trap_halt_image [] 1 r E).
Defined.

(** X20.  ADD, AND, NOT, BR, JMP, JSR, LEA and the two unused opcodes work on the
    registers only: memory, pending console input and console output are
    the same afterwards, for every instruction word and every state. *)
Theorem vm_register_instructions_frame (op : Z) (i : value) (s : machine) :
  In op register_only ->
  outside_registers (state_of (Vm.execute op i s)) = outside_registers s.
Proof.
  intros Hop. revert s. change (preserves outside_registers (Vm.execute op i)).
  assert (forall k v, preserves outside_registers (set_reg k v)) as Hset
    by (intros k v s; reflexivity).
  assert (forall r, preserves outside_registers (Vm.updateCondFlag r)) as Hflag
    by (intros r; unfold Vm.updateCondFlag; frame).
  assert (preserves outside_registers (Vm.add i)) by (unfold Vm.add; frame).
  assert (preserves outside_registers (Vm.and i)) by (unfold Vm.and; frame).
  assert (preserves outside_registers (Vm.not i)) by (unfold Vm.not; frame).
  assert (preserves outside_registers (Vm.branch i)) by (unfold Vm.branch; frame).
  assert (preserves outside_registers (Vm.jump i)) by (unfold Vm.jump; frame).
  assert (preserves outside_registers (Vm.jumpToSubroutine i))
    by (unfold Vm.jumpToSubroutine; frame).
  assert (preserves outside_registers (Vm.loadEffectiveAddress i))
    by (unfold Vm.loadEffectiveAddress; frame).
  unfold register_only in Hop. simpl in Hop.
  repeat (destruct Hop as [<-|Hop]; [unfold Vm.execute; simpl; frame|]).
  destruct Hop.
Qed.

Lemma vm_register_instructions_frame_witness :
  outside_registers (state_of (Vm.execute OP_ADD 0x1261 sample)) = outside_registers sample.
Proof.
  refine (vm_register_instructions_frame OP_ADD 0x1261 sample _).
  simpl. tauto.
Defined.

(** ** Fetch and dispatch *)

Lemma set_reg_value (s : machine) (j : Z) (v : value) :
  0 <= j -> set_reg (Num j) v s = Ret tt (write_reg j (ToUint16 v) s).
Proof.
  intros Hj. unfold set_reg, write_reg, set. destruct (Z.leb_spec 0 j); [|lia]. reflexivity.
Qed.

Lemma reg_read_write_reg (s : machine) (j x : Z) :
  wf_registers (registers s) -> 0 <= j <= 9 -> word x ->
  reg (Num j) (write_reg j x s) = Ret (Num x) (write_reg j x s).
Proof.
  intros Hwf Hj Hx. unfold reg, write_reg. cbn [registers with_registers].
  rewrite (get_cell _ j x) by (try lia; apply list_lookup_insert_eq; destruct Hwf; lia).
  reflexivity.
Qed.

Lemma vm_fetch_spec (s : machine) :
  wf_registers (registers s) ->
  let pc := rget (registers s) PC in
  pc <> MR_KBSR ->
  Vm.fetch s
  = Ret (mem_get (memory s) (Num pc) .>> 12, mem_get (memory s) (Num pc))
        (write_reg PC ((pc + 1) mod 2 ^ 16) s).
Proof.
  intros Hwf pc Hk. unfold Vm.fetch.
  unfold bind at 1. rewrite (reg_read s PC Hwf ltac:(unfold PC; lia)). fold pc.
  unfold bind at 1. rewrite (vm_readMemory_cell s pc Hk). cbv zeta.
  unfold bind at 1. rewrite (reg_read s PC Hwf ltac:(unfold PC; lia)). fold pc.
  unfold bind. rewrite set_reg_value by (unfold PC; lia). reflexivity.
Qed.

Lemma vm_step_sem (s : machine) :
  wf s ->
  let pc := rget (registers s) PC in
  pc <> MR_KBSR -> pc <> 0xFFFF ->
  let w := mread (memory s) pc in
  Vm.step s = Vm.execute (Num (Z.shiftr w 12)) (Num w) (write_reg PC (pc + 1) s)
  /\ 0 <= Z.shiftr w 12 <= 15.
Proof.
  intros [Hr [Hlen Hall]] pc Hk Hin w.
  pose proof (rget_word (registers s) PC Hr) as Hpc. fold pc in Hpc. unfold word in Hpc.
  pose proof (mread_word (memory s) pc Hall) as Hw. fold w in Hw.
  split.
  - unfold Vm.step, bind. rewrite (vm_fetch_spec s Hr Hk). fold pc.
    rewrite mem_get_inside by (rewrite Hlen; pow2_consts; lia). fold w.
    cbn [fst snd]. rewrite sar_small by (try apply word_int32, Hw; lia).
    rewrite Z.mod_small by (pow2_consts; lia). reflexivity.
  - unfold word in Hw. rewrite Z.shiftr_div_pow2 by lia. pow2_consts.
    split; [apply Z.div_pos; lia|]. apply Z.lt_succ_r, Z.div_lt_upper_bound; lia.
Qed.

(** X21.  One loop iteration away from KBSR: the instruction is the cell at PC,
    the opcode its bits 15..12, and the handler runs with PC already
    advanced by one; nothing else has changed when the handler starts. *)
Theorem vm_step_decodes (s : machine) :
  wf s ->
  let pc := rget (registers s) PC in
  pc <> MR_KBSR -> pc <> 0xFFFF ->
  let w := mread (memory s) pc in
  Vm.fetch s = Ret (Num (Z.shiftr w 12), Num w) (write_reg PC (pc + 1) s)
  /\ Vm.step s = Vm.execute (Num (Z.shiftr w 12)) (Num w) (write_reg PC (pc + 1) s)
  /\ 0 <= Z.shiftr w 12 <= 15.
Proof.
  intros Hwf pc Hk Hin w. split; [|exact (vm_step_sem s Hwf Hk Hin)].
  destruct Hwf as [Hr [Hlen Hall]].
  pose proof (rget_word (registers s) PC Hr) as Hpc. fold pc in Hpc. unfold word in Hpc.
  pose proof (mread_word (memory s) pc Hall) as Hw. fold w in Hw.
  rewrite (vm_fetch_spec s Hr Hk). fold pc.
  rewrite mem_get_inside by (rewrite Hlen; pow2_consts; lia). fold w.
  rewrite sar_small by (try apply word_int32, Hw; lia).
  rewrite Z.mod_small by (pow2_consts; lia). reflexivity.
Qed.

Lemma vm_step_decodes_witness :
  let w := mread (memory sample) 0x3000 in
  Vm.fetch sample = Ret (Num (Z.shiftr w 12), Num w) (write_reg PC 0x3001 sample)
  /\ Vm.step sample = Vm.execute (Num (Z.shiftr w 12)) (Num w) (write_reg PC 0x3001 sample)
  /\ 0 <= Z.shiftr w 12 <= 15.
Proof.
  refine (vm_step_decodes sample _ _ _).
  - apply wfb_wf. vm_compute. reflexivity.
  - vm_compute. discriminate.
  - vm_compute. discriminate.
Defined.

Lemma vm_trap_unknown (w : Z) (s : machine) :
  word w -> ~ In (Z.land w 0xFF) [0x20; 0x21; 0x22; 0x23; 0x24; 0x25] ->
  Vm.trap (Num w) s = Ret true s.
Proof.
  intros Hw Hv. unfold Vm.trap.
  rewrite (band_small w 255) by (try apply word_int32, Hw; pow2_consts; lia).
  unfold strict_eq, TRAP_GETC, TRAP_HALT, TRAP_IN, TRAP_OUT, TRAP_PUTS, TRAP_PUTSP.
  simpl in Hv.
  repeat match goal with
         | |- context [Z.land w 255 =? ?c] =>
             destruct (Z.eqb_spec (Z.land w 255) c) as [E|_]; [exfalso; lia|]
         end.
  reflexivity.
Qed.

(** X22.  The unused opcodes 8 (RTI) and 13 (RES) and every TRAP whose vector is
    not x20..x25 are silently skipped: the iteration only advances PC and
    the loop goes on. *)
Theorem vm_step_skips_unknown (s : machine) :
  wf s ->
  let pc := rget (registers s) PC in
  pc <> MR_KBSR -> pc <> 0xFFFF ->
  let w := mread (memory s) pc in
  Z.shiftr w 12 = OP_RTI \/ Z.shiftr w 12 = OP_RES
  \/ (Z.shiftr w 12 = OP_TRAP
      /\ ~ In (Z.land w 0xFF) [0x20; 0x21; 0x22; 0x23; 0x24; 0x25]) ->
  Vm.step s = Ret true (write_reg PC (pc + 1) s).
Proof.
  intros Hwf pc Hk Hin w Hop.
  destruct (vm_step_sem s Hwf Hk Hin) as [-> _]. fold pc w.
  destruct Hop as [->|[->|[-> Hv]]]; try reflexivity.
  unfold Vm.execute. simpl. apply vm_trap_unknown; [|exact Hv].
  apply mread_word, Hwf.
Qed.

Lemma vm_step_skips_unknown_witness :
  Vm.step (write_reg PC 0x3003 sample)
  = Ret true (write_reg PC 0x3004 (write_reg PC 0x3003 sample)).
Proof.
  refine (vm_step_skips_unknown (write_reg PC 0x3003 sample) _ _ _ _).
  - apply wfb_wf. vm_compute. reflexivity.
  - vm_compute. discriminate.
  - vm_compute. discriminate.
  - right. right. split; [vm_compute; reflexivity|].
    vm_compute. intros [H|[H|[H|[H|[H|[H|H]]]]]]; try discriminate H. exact H.
Defined.

(** X23.  TRAP x25 (HALT) writes nothing, not even a message: the iteration only
    advances PC, and the loop ends with the process exit. *)
Theorem vm_step_halt (s : machine) (fuel : nat) :
  wf s ->
  let pc := rget (registers s) PC in
  pc <> MR_KBSR -> pc <> 0xFFFF ->
  let w := mread (memory s) pc in
  Z.shiftr w 12 = OP_TRAP -> Z.land w 0xFF = TRAP_HALT ->
  Vm.step s = Ret false (write_reg PC (pc + 1) s)
  /\ Vm.loop (S fuel) s = Some (Exit (write_reg PC (pc + 1) s)).
Proof.
  intros Hwf pc Hk Hin w Hop Hv.
  assert (Vm.step s = Ret false (write_reg PC (pc + 1) s)) as Hs.
  { destruct (vm_step_sem s Hwf Hk Hin) as [-> _]. fold pc w. rewrite Hop.
    unfold Vm.execute. simpl. unfold Vm.trap.
    rewrite (band_small w 255)
      by (try apply word_int32, mread_word, Hwf; pow2_consts; lia).
    change 255 with 0xFF. rewrite Hv. reflexivity. }
  split; [exact Hs|]. cbn [Vm.loop]. rewrite Hs. reflexivity.
Qed.

Lemma vm_step_halt_witness :
  Vm.step (write_reg PC 0x3002 sample)
  = Ret false (write_reg PC 0x3003 (write_reg PC 0x3002 sample))
  /\ Vm.loop 1 (write_reg PC 0x3002 sample)
     = Some (Exit (write_reg PC 0x3003 (write_reg PC 0x3002 sample))).
Proof.
  refine (vm_step_halt (write_reg PC 0x3002 sample) 0 _ _ _ _ _).
  - apply wfb_wf. vm_compute. reflexivity.
  - vm_compute. discriminate.
  - vm_compute. discriminate.
  - vm_compute. reflexivity.
  - vm_compute. reflexivity.
Defined.

(** X24.  With PC = xFFFF the fetch falls outside the 65535-cell array: the
    instruction is [undefined], which decodes as a BR that is never taken,
    and PC wraps to 0. *)
Theorem vm_step_at_0xFFFF (s : machine) :
  wf s -> rget (registers s) PC = 0xFFFF ->
  Vm.step s = Ret true (write_reg PC 0 s).
Proof.
  intros [Hr [Hlen Hall]] Hpc. unfold Vm.step, bind.
  rewrite (vm_fetch_spec s Hr) by (rewrite Hpc; discriminate). rewrite Hpc.
  unfold mem_get. rewrite get_outside by (unfold mem_len; lia).
  cbn [fst snd]. change ((0xFFFF + 1) mod 2 ^ 16) with 0.
  unfold Vm.execute. simpl (_ === _). cbv iota. unfold Vm.branch.
  unfold bind at 1. unfold bind at 1. unfold reg.
  set (c := get (registers (write_reg PC 0 s)) COND).
  assert (truthy (((Undefined .>> 9) .& 7) .& c) = false) as ->.
  { unfold band at 1. change (ToInt32 ((Undefined .>> 9) .& 7)) with 0.
    rewrite Z.land_0_l. reflexivity. }
  reflexivity.
Qed.

Lemma vm_step_at_0xFFFF_witness :
  Vm.step (write_reg PC 0xFFFF sample) = Ret true (write_reg PC 0 (write_reg PC 0xFFFF sample)).
Proof.
  refine (vm_step_at_0xFFFF (write_reg PC 0xFFFF sample) _ _).
  - apply wfb_wf. vm_compute. reflexivity.
  - reflexivity.
Defined.

(** ** PUTS at the end of memory *)

Lemma get_nonzero (cs : Uint16Array) (a : Z) :
  (forall w, cs !! Z.to_nat a = Some w -> w <> 0) -> 0 <= a ->
  (get cs (Num a) !== 0) = true.
Proof.
  intros H Ha. unfold get. destruct (Z.leb_spec 0 a); [|lia].
  destruct (cs !! Z.to_nat a) as [w|]; [|reflexivity].
  unfold strict_ne, strict_eq. apply negb_true_iff, Z.eqb_neq, H. reflexivity.
Qed.

Lemma vm_trapPuts_loop_unterminated (fuel : nat) :
  forall (a : Z) (c : value) (s : machine),
    MR_KBSR < a ->
    (forall b w, a < b -> cells (memory s) !! Z.to_nat b = Some w -> w <> 0) ->
    (c !== 0) = true ->
    returned (Vm.trapPuts_loop fuel (Num a) c s) = None.
Proof.
  induction fuel as [|fuel IH]; intros a c s Ha Hnz Hc; cbn [Vm.trapPuts_loop]; rewrite Hc.
  - reflexivity.
  - unfold bind at 1. unfold stdout_write at 1. cbv zeta. unfold bind at 1.
    change (Num a .+ 1) with (Num (a + 1)).
    rewrite vm_readMemory_cell by (unfold MR_KBSR in *; lia).
    apply IH; [lia| |].
    + intros b w Hb. apply Hnz. lia.
    + unfold mem_get. apply get_nonzero; [|unfold MR_KBSR in *; lia].
      intros w. apply Hnz. lia.
Qed.

(** X25.  PUTS does not wrap around at the end of memory: when R0 points above
    KBSR and no cell from there to the end of the array is zero, the loop
    reads [undefined] from then on and never returns, however many
    iterations it is given. *)
Theorem vm_trapPuts_unterminated (s : machine) (fuel : nat) :
  wf_registers (registers s) ->
  let a := rget (registers s) R0 in
  MR_KBSR < a ->
  Forall (fun w => w <> 0) (drop (Z.to_nat a) (cells (memory s))) ->
  returned (trapPuts_within fuel s) = None
  /\ returned (Vm.trapPuts s) = None.
Proof.
  intros Hr a Ha Hall.
  assert (forall b w, a <= b -> cells (memory s) !! Z.to_nat b = Some w -> w <> 0) as Hnz.
  { intros b w Hb Hl.
    apply (Forall_lookup_1 _ _ (Z.to_nat b - Z.to_nat a) w Hall).
    rewrite lookup_drop. rewrite <- Hl. f_equal. unfold MR_KBSR in Ha. lia. }
  assert (forall n, returned (trapPuts_within n s) = None) as H.
  { intros n. unfold trapPuts_within. unfold bind at 1.
    rewrite (reg_read s R0 Hr ltac:(unfold R0; lia)). fold a.
    unfold bind at 1. rewrite vm_readMemory_cell by lia.
    apply vm_trapPuts_loop_unterminated; [exact Ha| |].
    - intros b w Hb. apply Hnz. lia.
    - unfold mem_get. apply get_nonzero; [|unfold MR_KBSR in *; lia].
      intros w. apply Hnz. lia. }
  split; [apply H|]. exact (H (length (cells (memory s)))).
Qed.

Lemma vm_trapPuts_unterminated_witness :
  returned (trapPuts_within 1000 (write_reg R0 0xFFFE sample)) = None
  /\ returned (Vm.trapPuts (write_reg R0 0xFFFE sample)) = None.
Proof.
  refine (vm_trapPuts_unterminated (write_reg R0 0xFFFE sample) 1000 _ _ _).
  - apply wfb_wf_registers. vm_compute. reflexivity.
  - vm_compute. reflexivity.
  - vm_compute. constructor; [discriminate|constructor].
Defined.

(** ** main.js: ADD, LD, LEA, BR *)

Lemma main_signExtend_eq (i w : Z) :
  word i -> In w [5; 6; 9; 11] ->
  Main.signExtend (Num i .& Num (Z.ones w)) w = Num (main_offset w i)
  /\ main_offset w i mod 2 ^ 16 = simm w i mod 2 ^ 16
  /\ 0 <= main_offset w i < 2 ^ 28.
Proof.
  intros Hi Hw. unfold Main.signExtend, main_offset, simm.
  destruct (width_constants w Hw) as (_ & -> & E & Hs & Ho & Hw').
  destruct (suffix_sign_bit i w Hi Hw) as [-> ->].
  pose proof (land_mask_range i w ltac:(lia)) as Hr.
  assert (2 ^ w <= 2 ^ 15) as Hp by (apply Z.pow_le_mono_r; lia).
  pose proof (Z.add_lor_land (Z.land i (Z.ones w)) (Z.shiftl 0xFFFF w)) as Hadd.
  rewrite suffix_disjoint, Z.add_0_r, Z.shiftl_mul_pow2 in Hadd by lia.
  rewrite Z.shiftl_mul_pow2 in Hs by lia.
  destruct (Z.testbit i (w - 1)).
  - rewrite E, bor_small by (rewrite ?Z.shiftl_mul_pow2 by lia; pow2_consts; lia).
    rewrite Z.shiftl_mul_pow2 by lia. rewrite Hadd. split; [reflexivity|]. split.
    + replace (Z.land i (Z.ones w) + 65535 * 2 ^ w)
        with (Z.land i (Z.ones w) - 2 ^ w + 2 ^ w * 2 ^ 16) by (change (2 ^ 16) with 65536; lia).
      apply Z_mod_plus_full.
    + pow2_consts. lia.
  - split; [reflexivity|]. split; [reflexivity|]. pow2_consts. lia.
Qed.

Lemma main_write_flag (s : machine) (d : Z) (v : value) :
  length (registers s) = 10%nat -> 0 <= d <= 7 ->
  (set_reg d v;;; Main.updateCondFlag d) s
  = Ret tt (write_reg COND (main_flag_of (ToUint16 v)) (write_reg d (ToUint16 v) s)).
Proof.
  intros Hlen Hd. unfold bind, set_reg. rewrite main_updateCondFlag_spec.
  cbn [registers with_registers]. rewrite get_set_eq by lia.
  unfold write_reg, with_registers. cbn [registers memory stdin stdout].
  unfold main_flag_of, strict_eq.
  unfold set at 1. change (0 <=? COND) with true. cbv iota.
  unfold set. destruct (Z.leb_spec 0 d); [|lia].
  destruct (ToUint16 v =? 0); reflexivity.
Qed.

(** X26.  ADD of main.js writes the same sum as ADD of vm.js into the
    destination, but the flag it sets is Z for zero and P for everything
    else: a result with bit 15 set is flagged P. *)
Theorem main_add_spec (i : Z) (s : machine) :
  wf_registers (registers s) -> word i ->
  let r := (rget (registers s) (SR1 i)
            + (if Z.testbit i 5 then simm 5 i else rget (registers s) (SR2 i)))
           mod 2 ^ 16 in
  Main.add i s = Ret tt (write_reg COND (main_flag_of r) (write_reg (DR i) r s)).
Proof.
  intros Hwf Hi r. unfold Main.add.
  destruct (decode_reg i 9 Hi ltac:(lia)) as [-> Hd].
  destruct (decode_reg i 6 Hi ltac:(lia)) as [-> Hs1].
  destruct (decode_low_reg i Hi) as [-> Hs2].
  destruct (decode_flag i 5 Hi ltac:(lia)) as (b & -> & -> & _).
  fold (DR i) (SR1 i) in *.
  change (Num 31) with (Num (Z.ones 5)).
  destruct (main_signExtend_eq i 5 Hi ltac:(simpl; tauto)) as (-> & Hm & _).
  subst r. destruct (Z.testbit i 5).
  - unfold bind at 1. unfold bind at 1.
    rewrite (reg_read s (SR1 i) Hwf ltac:(lia)). unfold set_reg at 1.
    pose proof (main_write_flag s (DR i)
                  (Num (rget (registers s) (SR1 i)) .+ Num (main_offset 5 i))
                  (proj1 Hwf) Hd) as Hw.
    unfold bind, set_reg in Hw. rewrite Hw.
    cbn [JS.add ToUint16]. rewrite Z.add_mod, Hm, <- Z.add_mod by lia. reflexivity.
  - unfold bind at 1. unfold bind at 1.
    rewrite (reg_read s (SR1 i) Hwf ltac:(lia)). unfold bind at 1.
    rewrite (reg_read s (SR2 i) Hwf ltac:(lia)). unfold set_reg at 1.
    pose proof (main_write_flag s (DR i)
                  (Num (rget (registers s) (SR1 i)) .+ Num (rget (registers s) (SR2 i)))
                  (proj1 Hwf) Hd) as Hw.
    unfold bind, set_reg in Hw. rewrite Hw. reflexivity.
Qed.

Lemma main_add_spec_witness :
  Main.add 0x18A0 sample = Ret tt (write_reg COND FL_POS (write_reg 4 0xFFFF sample)).
Proof.
  refine (main_add_spec 0x18A0 sample _ _).
  - apply wfb_wf_registers. vm_compute. reflexivity.
  - unfold word. lia.
Defined.

(** X27.  LD and LEA of main.js are the same code, and neither reduces the
    address modulo 2^16: with a negative offset the address is above
    x1FFFE00, the read is [undefined], and the destination receives 0 with
    the flag Z, whatever memory holds. *)
Theorem main_load_negative_offset (i : Z) (s : machine) :
  wf s -> word i -> Z.testbit i 8 = true ->
  Main.load i s = Ret tt (write_reg COND FL_ZRO (write_reg (DR i) 0 s))
  /\ Main.loadEffectiveAddress i s = Main.load i s.
Proof.
  intros [Hr [Hlen Hall]] Hi Hneg. split; [|reflexivity]. unfold Main.load.
  destruct (decode_reg i 9 Hi ltac:(lia)) as [-> Hd]. fold (DR i) in *.
  change (Num 511) with (Num (Z.ones 9)).
  destruct (main_signExtend_eq i 9 Hi ltac:(simpl; tauto)) as (-> & _ & _).
  unfold bind at 1. rewrite (reg_read s PC Hr ltac:(unfold PC; lia)).
  pose proof (rget_word (registers s) PC Hr) as Hpc. unfold word in Hpc.
  pose proof (land_mask_range i 9 ltac:(lia)) as Hu.
  cbv zeta. cbn [JS.add]. unfold bind at 1.
  rewrite main_readMemory_eq, vm_readMemory_outside.
  - rewrite (main_write_flag s (DR i) Undefined (proj1 Hr) Hd). reflexivity.
  - unfold mem_len. rewrite Hlen. reflexivity.
  - unfold mem_len, main_offset. change (9 - 1) with 8. rewrite Hlen, Hneg. pow2_consts. lia.
Qed.

Lemma main_load_negative_offset_witness :
  Main.load 0x25FF sample = Ret tt (write_reg COND FL_ZRO (write_reg 2 0 sample))
  /\ Main.loadEffectiveAddress 0x25FF sample = Main.load 0x25FF sample.
Proof.
  refine (main_load_negative_offset 0x25FF sample _ _ _).
  - apply wfb_wf. vm_compute. reflexivity.
  - unfold word. lia.
  - reflexivity.
Defined.

Lemma branch_mask (i c : Z) :
  In c [0; FL_POS; FL_ZRO; FL_NEG] ->
  (Z.land (field i 9 3) c =? 0)
  = negb ((Z.testbit i 11 && (c =? FL_NEG))
          || (Z.testbit i 10 && (c =? FL_ZRO))
          || (Z.testbit i 9 && (c =? FL_POS))).
Proof.
  intros Hc. unfold field.
  assert (forall k, 0 <= k < 3 ->
            Z.testbit (Z.land (Z.shiftr i 9) (Z.ones 3)) k = Z.testbit i (k + 9)) as Hbit.
  { intros k Hk. rewrite Z.land_spec, Z.testbit_ones_nonneg, Z.shiftr_spec by lia.
    rewrite (proj2 (Z.ltb_lt k 3)) by lia. apply andb_true_r. }
  set (f := Z.land (Z.shiftr i 9) (Z.ones 3)) in *.
  pose proof (land_mask_range (Z.shiftr i 9) 3 ltac:(lia)) as Hf. fold f in Hf.
  change (2 ^ 3) with 8 in Hf.
  pose proof (Hbit 0 ltac:(lia)) as H0. pose proof (Hbit 1 ltac:(lia)) as H1.
  pose proof (Hbit 2 ltac:(lia)) as H2.
  change (0 + 9) with 9 in H0. change (1 + 9) with 10 in H1. change (2 + 9) with 11 in H2.
  rewrite <- H0, <- H1, <- H2. clear H0 H1 H2 Hbit.
  assert (f = 0 \/ f = 1 \/ f = 2 \/ f = 3 \/ f = 4 \/ f = 5 \/ f = 6 \/ f = 7) as Hcases by lia.
  simpl in Hc. unfold FL_POS, FL_ZRO, FL_NEG in *.
  destruct Hc as [<-|[<-|[<-|[<-|[]]]]];
    destruct Hcases as [->|[->|[->|[->|[->|[->|[->| ->]]]]]]]; reflexivity.
Qed.

(** X28.  BR of main.js tests the three mask bits one by one against COND and adds
    the untruncated offset; as long as COND holds 0 or one of the three
    flags it does exactly what BR of vm.js does. *)
Theorem main_branch_agrees (i : Z) (s : machine) :
  wf_registers (registers s) -> word i ->
  In (rget (registers s) COND) [0; FL_POS; FL_ZRO; FL_NEG] ->
  Main.branch i s = Vm.branch i s.
Proof.
  intros Hwf Hi Hc. rewrite (vm_branch_sem i s Hwf Hi), (branch_mask i _ Hc).
  unfold Main.branch.
  destruct (decode_flag i 11 Hi ltac:(lia)) as (b11 & -> & -> & _).
  destruct (decode_flag i 10 Hi ltac:(lia)) as (b10 & -> & -> & _).
  destruct (decode_flag i 9 Hi ltac:(lia)) as (b9 & -> & -> & _).
  unfold bind at 1. rewrite (reg_read s COND Hwf ltac:(unfold COND; lia)).
  cbv zeta. unfold strict_eq.
  destruct ((Z.testbit i 11 && (rget (registers s) COND =? FL_NEG))
            || (Z.testbit i 10 && (rget (registers s) COND =? FL_ZRO))
            || (Z.testbit i 9 && (rget (registers s) COND =? FL_POS))); [|reflexivity].
  simpl negb. cbv iota.
  change (Num 511) with (Num (Z.ones 9)).
  destruct (main_signExtend_eq i 9 Hi ltac:(simpl; tauto)) as (-> & Hm & _).
  unfold bind. rewrite (reg_read s PC Hwf ltac:(unfold PC; lia)).
  rewrite set_reg_value by (unfold PC; lia). cbn [JS.add ToUint16].
  rewrite Z.add_mod, Hm, <- Z.add_mod by lia. reflexivity.
Qed.

Lemma main_branch_agrees_witness : Main.branch 0x03FE sample = Vm.branch 0x03FE sample.
Proof.
  refine (main_branch_agrees 0x03FE sample _ _ _).
  - apply wfb_wf_registers. vm_compute. reflexivity.
  - unfold word. lia.
  - simpl. tauto.
Defined.

(** ** The debugging printers *)

Lemma to_digits_value (radix : Z) (fuel : nat) :
  forall (n : Z) (acc : list Z),
    2 <= radix -> 0 <= n < radix ^ Z.of_nat fuel ->
    fold_left (fun a d => a * radix + d) (to_digits fuel radix n acc) 0
    = fold_left (fun a d => a * radix + d) acc n.
Proof.
  induction fuel as [|fuel IH]; intros n acc Hr Hn.
  - simpl in *. replace n with 0 by lia. reflexivity.
  - cbn [to_digits]. destruct (Z.ltb_spec n radix) as [Hlt|Hge].
    + simpl. reflexivity.
    + rewrite IH.
      * cbn [fold_left]. f_equal. pose proof (Z.div_mod n radix ltac:(lia)). lia.
      * exact Hr.
      * split; [apply Z.div_pos; lia|]. apply Z.div_lt_upper_bound; [lia|].
        rewrite Nat2Z.inj_succ, Z.pow_succ_r in Hn by lia. lia.
Qed.

Lemma to_digits_range (radix : Z) (fuel : nat) :
  forall (n : Z) (acc : list Z),
    2 <= radix -> 0 <= n -> Forall (fun d => 0 <= d < radix) acc ->
    Forall (fun d => 0 <= d < radix) (to_digits fuel radix n acc).
Proof.
  induction fuel as [|fuel IH]; intros n acc Hr Hn Hacc; [exact Hacc|].
  cbn [to_digits]. destruct (Z.ltb_spec n radix) as [Hlt|Hge].
  - constructor; [lia|exact Hacc].
  - apply IH; [exact Hr|apply Z.div_pos; lia|].
    constructor; [apply Z.mod_pos_bound; lia|exact Hacc].
Qed.

Lemma to_digits_length (radix : Z) (fuel : nat) :
  forall (n : Z) (acc : list Z) (k : nat),
    2 <= radix -> 0 <= n < radix ^ Z.of_nat (S k) ->
    (length (to_digits (S fuel) radix n acc) <= S k + length acc)%nat.
Proof.
  induction fuel as [|fuel IH]; intros n acc k Hr Hn.
  - cbn [to_digits]. destruct (n <? radix); simpl; lia.
  - cbn [to_digits] in *. destruct (Z.ltb_spec n radix) as [Hlt|Hge]; [simpl; lia|].
    destruct k as [|k].
    { simpl in Hn. rewrite Z.pow_1_r in Hn. lia. }
    specialize (IH (n / radix) (n mod radix :: acc) k Hr).
    simpl length in IH. etransitivity; [apply IH|lia].
    split; [apply Z.div_pos; lia|]. apply Z.div_lt_upper_bound; [lia|].
    rewrite (Nat2Z.inj_succ (S k)), Z.pow_succ_r in Hn by lia. lia.
Qed.

Lemma log2_fuel (n : Z) : 0 <= n -> n < 2 ^ Z.of_nat (S (Z.to_nat (Z.log2 n))).
Proof.
  intros Hn. rewrite Nat2Z.inj_succ, Z2Nat.id by apply Z.log2_nonneg.
  destruct (Z.eq_dec n 0) as [->|Hnz]; [simpl; lia|].
  apply Z.log2_spec. lia.
Qed.

(** The digits of a non-negative number: its value, the digit range, and
    the length bound. *)
Lemma Number_toString_digits (n radix : Z) :
  0 <= n -> 2 <= radix ->
  exists ds,
    Number_toString n radix = List.map digit_char ds
    /\ of_digits radix ds = n
    /\ Forall (fun d => 0 <= d < radix) ds
    /\ (1 <= length ds)%nat
    /\ forall k : nat, n < radix ^ Z.of_nat (S k) -> (length ds <= S k)%nat.
Proof.
  intros Hn Hr. unfold Number_toString. rewrite Z.abs_eq by exact Hn.
  destruct (Z.ltb_spec n 0); [lia|]. cbn [app].
  set (fuel := Z.to_nat (Z.log2 n)).
  exists (to_digits (S fuel) radix n []). split; [reflexivity|].
  assert (0 <= n < radix ^ Z.of_nat (S fuel)) as Hfuel.
  { split; [exact Hn|]. eapply Z.lt_le_trans; [apply log2_fuel, Hn|].
    apply Z.pow_le_mono_l. lia. }
  split; [|split; [|split]].
  - unfold of_digits. rewrite to_digits_value by assumption. reflexivity.
  - apply to_digits_range; [exact Hr|exact Hn|constructor].
  - cbn [to_digits]. destruct (n <? radix); [simpl; lia|].
    clear. generalize (n / radix) (n mod radix). intros a b.
    assert (forall f x acc, (length acc <= length (to_digits f radix x acc))%nat) as Hmono.
    { induction f as [|f IH]; intros x acc; [simpl; lia|]. cbn [to_digits].
      destruct (x <? radix); [simpl; lia|].
      etransitivity; [|apply IH]. simpl. lia. }
    etransitivity; [|apply Hmono]. simpl. lia.
  - intros k Hk. pose proof (to_digits_length radix fuel n [] k Hr ltac:(lia)) as H0.
    change (length (@nil Z)) with 0%nat in H0. lia.
Qed.

Lemma padStart_digits (ds : list Z) (k : Z) :
  padStart (List.map digit_char ds) k 48
  = List.map digit_char (replicate (Z.to_nat k - length ds) 0 ++ ds).
Proof.
  unfold padStart. rewrite List.length_map, List.map_app. f_equal.
  generalize (Z.to_nat k - length ds)%nat. intros m.
  induction m as [|m IH]; [reflexivity|]. simpl. f_equal. exact IH.
Qed.

Lemma of_digits_pad (radix : Z) (m : nat) (ds : list Z) :
  of_digits radix (replicate m 0 ++ ds) = of_digits radix ds.
Proof.
  unfold of_digits. rewrite fold_left_app. f_equal.
  induction m as [|m IH]; [reflexivity|]. simpl. exact IH.
Qed.

Lemma to_digits_head (radix : Z) (fuel : nat) :
  forall (n : Z) (acc : list Z),
    2 <= radix -> 1 <= n < radix ^ Z.of_nat fuel ->
    hd 0 (to_digits fuel radix n acc) <> 0.
Proof.
  induction fuel as [|fuel IH]; intros n acc Hr Hn.
  - simpl in Hn. lia.
  - cbn [to_digits]. destruct (Z.ltb_spec n radix) as [Hlt|Hge]; [simpl; lia|].
    apply IH; [exact Hr|]. split.
    + apply Z.div_le_lower_bound; lia.
    + apply Z.div_lt_upper_bound; [lia|].
      rewrite Nat2Z.inj_succ, Z.pow_succ_r in Hn by lia. lia.
Qed.

Lemma Number_toString_head (n radix : Z) :
  1 <= n -> 2 <= radix ->
  hd 0 (to_digits (S (Z.to_nat (Z.log2 n))) radix n []) <> 0.
Proof.
  intros Hn Hr. apply to_digits_head; [exact Hr|]. split; [exact Hn|].
  eapply Z.lt_le_trans; [apply log2_fuel; lia|]. apply Z.pow_le_mono_l. lia.
Qed.

Lemma fold_digits_shift (radix : Z) (ds : list Z) :
  forall a, fold_left (fun a d => a * radix + d) ds a
            = a * radix ^ Z.of_nat (length ds) + of_digits radix ds.
Proof.
  unfold of_digits. induction ds as [|d ds IH]; intros a.
  - simpl. lia.
  - cbn [fold_left length]. rewrite IH, (IH (0 * radix + d)).
    rewrite Nat2Z.inj_succ, Z.pow_succ_r by lia. ring.
Qed.

Lemma of_digits_cons (radix d : Z) (ds : list Z) :
  of_digits radix (d :: ds) = d * radix ^ Z.of_nat (length ds) + of_digits radix ds.
Proof.
  unfold of_digits at 1. cbn [fold_left]. rewrite fold_digits_shift. ring.
Qed.

Lemma of_digits_bound (radix : Z) (ds : list Z) :
  2 <= radix -> Forall (fun d => 0 <= d < radix) ds ->
  0 <= of_digits radix ds < radix ^ Z.of_nat (length ds).
Proof.
  intros Hr. induction 1 as [|d ds Hd Hds IH].
  - unfold of_digits. simpl. lia.
  - rewrite of_digits_cons. cbn [length]. rewrite Nat2Z.inj_succ, Z.pow_succ_r by lia.
    assert (0 < radix ^ Z.of_nat (length ds)) by (apply Z.pow_pos_nonneg; lia). nia.
Qed.

Lemma of_digits_lower (radix : Z) (ds : list Z) :
  2 <= radix -> Forall (fun d => 0 <= d < radix) ds -> hd 0 ds <> 0 ->
  radix ^ (Z.of_nat (length ds) - 1) <= of_digits radix ds.
Proof.
  intros Hr Hall Hh. destruct ds as [|d ds]; [simpl in Hh; lia|].
  simpl in Hh. rewrite of_digits_cons. cbn [length]. rewrite Nat2Z.inj_succ.
  replace (Z.succ (Z.of_nat (length ds)) - 1) with (Z.of_nat (length ds)) by lia.
  pose proof (of_digits_bound radix ds Hr (Forall_inv_tail Hall)).
  pose proof (Forall_inv Hall) as Hd. cbv beta in Hd.
  assert (0 < radix ^ Z.of_nat (length ds)) by (apply Z.pow_pos_nonneg; lia). nia.
Qed.

Lemma of_digits_inj (radix : Z) (ds : list Z) :
  forall ds', 2 <= radix -> length ds = length ds' ->
    Forall (fun d => 0 <= d < radix) ds -> Forall (fun d => 0 <= d < radix) ds' ->
    of_digits radix ds = of_digits radix ds' -> ds = ds'.
Proof.
  induction ds as [|d ds IH]; intros [|d' ds'] Hr Hlen Hall Hall' E;
    try discriminate Hlen; [reflexivity|].
  injection Hlen as Hlen. rewrite !of_digits_cons, <- Hlen in E.
  pose proof (of_digits_bound radix ds Hr (Forall_inv_tail Hall)) as Hb.
  pose proof (of_digits_bound radix ds' Hr (Forall_inv_tail Hall')) as Hb'.
  rewrite <- Hlen in Hb'.
  assert (d = d') as -> by nia.
  f_equal. apply IH; try assumption.
  - exact (Forall_inv_tail Hall).
  - exact (Forall_inv_tail Hall').
  - lia.
Qed.

(** The padded digit sequence of a number is unique. *)
Lemma padded_digits_unique (radix : Z) (width : nat) (n : Z) (ds ds' : list Z) :
  2 <= radix -> padded_digits radix width n ds -> padded_digits radix width n ds' ->
  ds = ds'.
Proof.
  intros Hr (Hv & Hall & Hw & Hc) (Hv' & Hall' & Hw' & Hc').
  pose proof (of_digits_bound radix ds Hr Hall) as Hb.
  pose proof (of_digits_bound radix ds' Hr Hall') as Hb'.
  rewrite Hv in Hb. rewrite Hv' in Hb'.
  assert (forall a b : nat, (a < b)%nat -> radix ^ Z.of_nat a <= radix ^ (Z.of_nat b - 1)) as Hpow
    by (intros a b Hab; apply Z.pow_le_mono_r; lia).
  assert (length ds = length ds') as Hlen.
  { destruct (Nat.lt_trichotomy (length ds) (length ds')) as [Hlt|[E|Hlt]]; [|exact E|].
    - exfalso. destruct Hc' as [E|Hh]; [lia|].
      pose proof (of_digits_lower radix ds' Hr Hall' Hh) as Hl. rewrite Hv' in Hl.
      specialize (Hpow _ _ Hlt). lia.
    - exfalso. destruct Hc as [E|Hh]; [lia|].
      pose proof (of_digits_lower radix ds Hr Hall Hh) as Hl. rewrite Hv in Hl.
      specialize (Hpow _ _ Hlt). lia. }
  apply (of_digits_inj radix); try assumption. congruence.
Qed.

Lemma Number_toString_padded (n radix : Z) (width : nat) :
  0 <= n -> 2 <= radix -> (1 <= width)%nat ->
  exists ds,
    padStart (Number_toString n radix) (Z.of_nat width) 48 = List.map digit_char ds
    /\ padded_digits radix width n ds.
Proof.
  intros Hn Hr Hw.
  destruct (Number_toString_digits n radix Hn Hr) as (ds & E & Hv & Hd & H1 & Hlen).
  assert (0 < n -> hd 0 ds <> 0) as Hhead.
  { intros Hpos. assert (List.map digit_char ds
                         = List.map digit_char (to_digits (S (Z.to_nat (Z.log2 n))) radix n [])) as E'.
    { rewrite <- E. unfold Number_toString. rewrite Z.abs_eq by exact Hn.
      destruct (Z.ltb_spec n 0); [lia|]. reflexivity. }
    pose proof (Number_toString_head n radix ltac:(lia) Hr) as Hh.
    assert (forall d, 0 <= d < radix -> d <> 0 -> digit_char d <> 48) as Hdc
      by (intros d Hd0 Hne; unfold digit_char; destruct (d <? 10) eqn:?; lia).
    assert (Forall (fun d => 0 <= d < radix)
              (to_digits (S (Z.to_nat (Z.log2 n))) radix n [])) as Hd'
      by (apply to_digits_range; [exact Hr|exact Hn|constructor]).
    destruct ds as [|d ds]; [simpl in H1; lia|].
    destruct (to_digits (S (Z.to_nat (Z.log2 n))) radix n []) as [|d' ds'];
      [discriminate E'|].
    simpl in *. injection E' as E1 _. intros ->.
    apply (Hdc d' (Forall_inv Hd') Hh). rewrite <- E1. reflexivity. }
  exists (replicate (Z.to_nat (Z.of_nat width) - length ds) 0 ++ ds).
  split; [rewrite E; apply padStart_digits|].
  rewrite Nat2Z.id. split; [|split; [|split]].
  - rewrite of_digits_pad. exact Hv.
  - apply Forall_app. split; [apply Forall_replicate; lia|exact Hd].
  - rewrite length_app, length_replicate. lia.
  - rewrite length_app, length_replicate.
    destruct (Nat.le_gt_cases (length ds) width) as [Hle|Hgt]; [left; lia|].
    right. replace (width - length ds)%nat with 0%nat by lia. cbn [replicate app].
    apply Hhead. destruct (Z.eq_dec n 0) as [->|]; [|lia].
    specialize (Hlen 0%nat ltac:(simpl; lia)). lia.
Qed.

Lemma padded_digits_short (radix : Z) (width : nat) (n : Z) (ds : list Z) :
  2 <= radix -> padded_digits radix width n ds ->
  n < radix ^ Z.of_nat width -> length ds = width.
Proof.
  intros Hr (Hv & Hall & Hw & [E|Hh]) Hn; [exact E|].
  pose proof (of_digits_lower radix ds Hr Hall Hh) as Hl. rewrite Hv in Hl.
  destruct (Nat.eq_dec (length ds) width) as [E|Hne]; [exact E|]. exfalso.
  assert (radix ^ Z.of_nat width <= radix ^ (Z.of_nat (length ds) - 1))
    by (apply Z.pow_le_mono_r; lia).
  lia.
Qed.

(** X29.  printAsHex writes one line: the lower-case hexadecimal digits of
    the number, zero-padded to four digits and not further, followed by a
    line feed.  The digit sequence is the only one that denotes the number,
    has at least four digits and has no leading zero beyond the fourth
    digit from the right; for a 16-bit value it has exactly four digits. *)
Theorem printAsHex_spec (num : Z) (s : machine) :
  0 <= num ->
  exists ds,
    padded_digits 16 4 num ds
    /\ (forall ds', padded_digits 16 4 num ds' -> ds' = ds)
    /\ printAsHex num s
       = Ret tt (with_stdout s (stdout s ++ [List.map digit_char ds ++ [10]]))
    /\ (num < 2 ^ 16 -> length ds = 4%nat).
Proof.
  intros Hn.
  destruct (Number_toString_padded num 16 4 Hn ltac:(lia) ltac:(lia)) as (ds & E & Hp).
  change (Z.of_nat 4) with 4 in E.
  exists ds. split; [exact Hp|]. split; [|split].
  - intros ds' Hp'. exact (padded_digits_unique 16 4 num ds' ds ltac:(lia) Hp' Hp).
  - unfold printAsHex, console_log, stdout_write. cbv zeta. rewrite E. reflexivity.
  - intros Hw. apply (padded_digits_short 16 4 num ds ltac:(lia) Hp). exact Hw.
Qed.

Lemma printAsHex_spec_witness :
  exists ds,
    padded_digits 16 4 0x12345 ds
    /\ (forall ds', padded_digits 16 4 0x12345 ds' -> ds' = ds)
    /\ printAsHex 0x12345 sample
       = Ret tt (with_stdout sample (stdout sample ++ [List.map digit_char ds ++ [10]]))
    /\ (0x12345 < 2 ^ 16 -> length ds = 4%nat).
Proof.
  refine (printAsHex_spec 0x12345 sample _). lia.
Defined.

Lemma slice_digits (ds : list Z) (from to : Z) :
  slice (List.map digit_char ds) from to
  = List.map digit_char (take (Z.to_nat to - Z.to_nat from) (drop (Z.to_nat from) ds)).
Proof. unfold slice. rewrite List.skipn_map, List.firstn_map. reflexivity. Qed.

(** X30.  printAsBinary writes one line: the first sixteen digits of the
    binary representation zero-padded to sixteen digits, in four groups of
    four separated by spaces, followed by a line feed.  The digit sequence
    is the only one that denotes the number, has at least sixteen digits and
    has no leading zero beyond the sixteenth digit from the right; for a
    16-bit value these are all its digits, for a larger number the
    low-order digits beyond the sixteenth are not printed. *)
Theorem printAsBinary_spec (num : Z) (s : machine) :
  0 <= num ->
  exists ds,
    padded_digits 2 16 num ds
    /\ (forall ds', padded_digits 2 16 num ds' -> ds' = ds)
    /\ (let group := fun k => List.map digit_char (take 4 (drop k ds)) in
        printAsBinary num s
        = Ret tt (with_stdout s
                    (stdout s ++ [group 0%nat ++ [32] ++ group 4%nat ++ [32]
                                  ++ group 8%nat ++ [32] ++ group 12%nat ++ [10]])))
    /\ (num < 2 ^ 16 -> length ds = 16%nat).
Proof.
  intros Hn.
  destruct (Number_toString_padded num 2 16 Hn ltac:(lia) ltac:(lia)) as (ds & E & Hp).
  change (Z.of_nat 16) with 16 in E.
  exists ds. split; [exact Hp|]. split; [|split].
  - intros ds' Hp'. exact (padded_digits_unique 2 16 num ds' ds ltac:(lia) Hp' Hp).
  - cbv zeta. unfold printAsBinary, console_log, stdout_write. cbv zeta.
    rewrite E. cbn [List.map]. rewrite !slice_digits.
    cbn [join]. rewrite <- !app_assoc. reflexivity.
  - intros Hw. apply (padded_digits_short 2 16 num ds ltac:(lia) Hp). exact Hw.
Qed.

Lemma printAsBinary_spec_witness :
  exists ds,
    padded_digits 2 16 0x12345 ds
    /\ (forall ds', padded_digits 2 16 0x12345 ds' -> ds' = ds)
    /\ (let group := fun k => List.map digit_char (take 4 (drop k ds)) in
        printAsBinary 0x12345 sample
        = Ret tt (with_stdout sample
                    (stdout sample ++ [group 0%nat ++ [32] ++ group 4%nat ++ [32]
                                       ++ group 8%nat ++ [32] ++ group 12%nat ++ [10]])))
    /\ (0x12345 < 2 ^ 16 -> length ds = 16%nat).
Proof.
  refine (printAsBinary_spec 0x12345 sample _). lia.
Defined.

(** The lines written for x12345, the number of the two examples. *)
Lemma print_examples :
  stdout (state_of (printAsHex 0x12345 sample)) = [[49; 50; 51; 52; 53; 10]]
  /\ stdout (state_of (printAsBinary 0x12345 sample))
     = [[49; 48; 48; 49; 32; 48; 48; 48; 49; 32; 49; 48; 49; 48; 32; 48; 48; 49; 48; 10]].
Proof. split; vm_compute; reflexivity. Qed.
